(** * VisFlow dataflow editor: graph mutator and pointer interaction

    A shallow embedding of

    - [client/src/store/dataflow/helper.ts]: the graph mutator of the
      dataflow store (node and edge creation and removal, insertion of a
      node on an edge, serialization of a diagram);
    - the legacy interaction manager (mouse, drag and drop handlers).

    JavaScript objects live in an object store: a node or a port is a
    reference into a finite map, so that two places holding the same
    object see the same mutations.  An edge never changes after its
    construction; it is kept by value together with the identity it was
    allocated with, and the lists that hold it compare edges by identity.

    The calls that leave the mutator (the rendering canvas, the propagation
    engine, user messages, the console, the history store) are recorded
    in order in a trace of effects. *)

From stdpp Require Import base numbers option list gmap sets strings pretty.

Open Scope string_scope.
Open Scope Z_scope.
Open Scope list_scope.

(** ** Object model *)

Abbreviation NodeRef := nat (only parsing).
Abbreviation PortRef := nat (only parsing).

(** [components/edge]: an edge holds its two ports. *)
Record Edge := mkEdge {
  eid : nat;              (* object identity *)
  source : PortRef;
  target : PortRef;
}.

Global Instance Edge_eq_dec : EqDecision Edge.
Proof. solve_decision. Defined.

(** [components/port]: a port knows its node, its direction, whether it
    takes several connections, the tag the connectivity check compares,
    and its incident edges. *)
Record Port := mkPort {
  port_id : string;
  port_node : NodeRef;
  isInput : bool;
  isMultiple : bool;
  port_tag : string;
  port_edges : list Edge;
}.

Global Instance Port_inhabited : Inhabited Port :=
  populate (mkPort "" 0%nat false false "" []).

(** [CreateNodeData] of [store/dataflow/types]. *)
Record CreateNodeData := mkCreateNodeData {
  data_dataflowX : option Z;
  data_dataflowY : option Z;
  data_dataflowCenterX : option Z;
  data_dataflowCenterY : option Z;
}.

(** [components/node]: the fields of a node the mutator reads or writes. *)
Record Node := mkNode {
  node_id : string;
  nodeType : string;
  layer : Z;
  node_x : Z;
  node_y : Z;
  isSelected : bool;
  isActive : bool;
  isPropagationSource : bool;
  dataOnCreate : CreateNodeData;
  inputPorts : list PortRef;
  outputPorts : list PortRef;
}.

Global Instance Node_inhabited : Inhabited Node :=
  populate (mkNode "" "" 0 0 0 false false false
                   (mkCreateNodeData None None None None) [] []).

(** [CreateNodeOptions] of [store/dataflow/types]. *)
Record CreateNodeOptions := mkCreateNodeOptions {
  opt_type : string;
  opt_dataflowX : option Z;
  opt_dataflowY : option Z;
  opt_dataflowCenterX : option Z;
  opt_dataflowCenterY : option Z;
  opt_activate : bool;
}.

(** The persisted diagram format: [NodeSave], [EdgeSave], [DiagramSave]. *)
Record NodeSave := mkNodeSave {
  save_id : string;
  save_type : string;
  save_layer : Z;
  save_x : Z;
  save_y : Z;
}.

Record EdgeSave := mkEdgeSave {
  sourceNodeId : string;
  sourcePortId : string;
  targetNodeId : string;
  targetPortId : string;
}.

Global Instance NodeSave_eq_dec : EqDecision NodeSave.
Proof. solve_decision. Defined.

Global Instance EdgeSave_eq_dec : EqDecision EdgeSave.
Proof. solve_decision. Defined.

Record DiagramSave := mkDiagramSave {
  save_diagramName : string;
  save_nodes : list NodeSave;
  save_edges : list EdgeSave;
}.

(** The calls that leave the mutator, in the order they are made. *)
Inductive Effect :=
  | ShowSystemMessage (text level : string)
  | ConsoleError (text : string)
  | PropagateNode (n : NodeRef)
  | PropagatePort (p : PortRef)
  | PropagateNodes (ns : list NodeRef)
  | CanvasAddNode (n : NodeRef)
  | CanvasRemoveNode (n : NodeRef)
  | CanvasAddEdge (e : Edge)
  | CanvasRemoveEdge (e : Edge)
  | HistoryClear.

(** [DataflowState], with the object store the references point into. *)
Record DataflowState := mkState {
  nodes : list NodeRef;
  diagramName : string;
  numNodeLayers : Z;
  isDeserializing : bool;
  nodeObjs : gmap nat Node;
  portObjs : gmap nat Port;
  nextRef : nat;
  effects : list Effect;
}.

Definition set_nodes (f : list NodeRef → list NodeRef) (s : DataflowState) :=
  mkState (f (nodes s)) (diagramName s) (numNodeLayers s) (isDeserializing s)
          (nodeObjs s) (portObjs s) (nextRef s) (effects s).

Definition set_numNodeLayers (z : Z) (s : DataflowState) :=
  mkState (nodes s) (diagramName s) z (isDeserializing s)
          (nodeObjs s) (portObjs s) (nextRef s) (effects s).

Definition set_isDeserializing (b : bool) (s : DataflowState) :=
  mkState (nodes s) (diagramName s) (numNodeLayers s) b
          (nodeObjs s) (portObjs s) (nextRef s) (effects s).

Definition set_nodeObjs (f : gmap nat Node → gmap nat Node) (s : DataflowState) :=
  mkState (nodes s) (diagramName s) (numNodeLayers s) (isDeserializing s)
          (f (nodeObjs s)) (portObjs s) (nextRef s) (effects s).

Definition set_portObjs (f : gmap nat Port → gmap nat Port) (s : DataflowState) :=
  mkState (nodes s) (diagramName s) (numNodeLayers s) (isDeserializing s)
          (nodeObjs s) (f (portObjs s)) (nextRef s) (effects s).

Definition set_nextRef (n : nat) (s : DataflowState) :=
  mkState (nodes s) (diagramName s) (numNodeLayers s) (isDeserializing s)
          (nodeObjs s) (portObjs s) n (effects s).

Definition emit (e : Effect) (s : DataflowState) :=
  mkState (nodes s) (diagramName s) (numNodeLayers s) (isDeserializing s)
          (nodeObjs s) (portObjs s) (nextRef s) (effects s ++ [e]).

(** Dereferencing.  A JavaScript reference always points to an object; a
    reference that was never allocated reads as the default object. *)
Definition getNode (s : DataflowState) (n : NodeRef) : Node := nodeObjs s !!! n.
Definition getPort (s : DataflowState) (p : PortRef) : Port := portObjs s !!! p.

Definition updNode (n : NodeRef) (f : Node → Node) (s : DataflowState) :=
  set_nodeObjs (λ m, <[n := f (m !!! n)]> m) s.

Definition updPort (p : PortRef) (f : Port → Port) (s : DataflowState) :=
  set_portObjs (λ m, <[p := f (m !!! p)]> m) s.

Definition with_port_edges (f : list Edge → list Edge) (p : Port) : Port :=
  mkPort (port_id p) (port_node p) (isInput p) (isMultiple p) (port_tag p)
         (f (port_edges p)).

Definition with_selected (b : bool) (n : Node) : Node :=
  mkNode (node_id n) (nodeType n) (layer n) (node_x n) (node_y n) b
         (isActive n) (isPropagationSource n) (dataOnCreate n)
         (inputPorts n) (outputPorts n).

Definition with_active (b : bool) (n : Node) : Node :=
  mkNode (node_id n) (nodeType n) (layer n) (node_x n) (node_y n)
         (isSelected n) b (isPropagationSource n) (dataOnCreate n)
         (inputPorts n) (outputPorts n).

Definition with_saved (sv : NodeSave) (n : Node) : Node :=
  mkNode (save_id sv) (nodeType n) (save_layer sv) (save_x sv) (save_y sv)
         (isSelected n) (isActive n) (isPropagationSource n) (dataOnCreate n)
         (inputPorts n) (outputPorts n).

(** ** The collaborators of the mutator

    What a node class declares: its type tag, its ports, and whether its
    instances start a propagation. *)
Record PortSpec := mkPortSpec {
  spec_id : string;
  spec_isMultiple : bool;
  spec_tag : string;
}.

Record NodeClass := mkNodeClass {
  NODE_TYPE : string;
  class_inputs : list PortSpec;
  class_outputs : list PortSpec;
  class_isPropagationSource : bool;
}.

Record Connectivity := mkConnectivity {
  connectable : bool;
  reason : string;
}.

(** The imports of [helper.ts] whose code decides none of the operations
    below: the registry of node classes ([getConstructor] of
    [store/dataflow/node-types]), the connectivity check
    ([checkEdgeConnectivity] of [store/dataflow/util]), the search of a
    node for a port that can be connected to a given port
    ([Node.findConnectablePort]) and the name of a fresh diagram
    ([getInitialState] of [store/dataflow]).  The check and the search read
    the ports, hence the state. *)
Class Collaborators := {
  getConstructor : string → NodeClass;
  checkEdgeConnectivity : DataflowState → PortRef → PortRef → Connectivity;
  findConnectablePort : DataflowState → NodeRef → PortRef → option PortRef;
  initialDiagramName : string;
}.

(** ** Methods of ports, edges and nodes *)

Definition same_edge (e e' : Edge) : bool := bool_decide (eid e = eid e').

(** Modelled from the spec: [Port.addIncidentEdge], which links an edge to
    the port (the incident edges of a port, in the order they were linked). *)
Definition addIncidentEdge (p : PortRef) (e : Edge) (s : DataflowState) :=
  updPort p (with_port_edges (λ es, es ++ [e])) s.

(** Modelled from the spec: [Port.removeIncidentEdge], which detaches an
    edge from the port. *)
Definition removeIncidentEdge (p : PortRef) (e : Edge) (s : DataflowState) :=
  updPort p (with_port_edges (List.filter (λ e', negb (same_edge e e')))) s.

(** Modelled from the spec: [Port.getAllEdges], the incident edges. *)
Definition port_getAllEdges (s : DataflowState) (p : PortRef) : list Edge :=
  port_edges (getPort s p).

(** Insertion into a JavaScript [Set] of references kept in insertion
    order, as [Array.from] lists it. *)
Definition set_add (x : nat) (l : list nat) : list nat :=
  if bool_decide (x ∈ l) then l else l ++ [x].

Definition to_set (l : list nat) : list nat := foldl (λ acc x, set_add x acc) [] l.

(** Modelled from the spec: [Port.getConnectedNodes], the nodes at the
    other end of the incident edges. *)
Definition getConnectedNodes (s : DataflowState) (p : PortRef) : list NodeRef :=
  to_set (map (λ e, port_node (getPort s (if isInput (getPort s p)
                                          then source e else target e)))
              (port_getAllEdges s p)).

(** Modelled from the spec: [Node.getOutputEdges], the edges incident to
    the output ports of the node. *)
Definition getOutputEdges (s : DataflowState) (n : NodeRef) : list Edge :=
  concat (map (port_getAllEdges s) (outputPorts (getNode s n))).

(** Modelled from the spec: [Node.getAllEdges], the edges incident to any
    port of the node. *)
Definition getAllEdges (s : DataflowState) (n : NodeRef) : list Edge :=
  concat (map (port_getAllEdges s)
              (inputPorts (getNode s n) ++ outputPorts (getNode s n))).

(** Modelled from the spec: [Node.getOutputNodes], the output-neighbor node
    set: the nodes of the target ports of the output edges. *)
Definition getOutputNodes (s : DataflowState) (n : NodeRef) : list NodeRef :=
  to_set (map (λ e, port_node (getPort s (target e))) (getOutputEdges s n)).

(** Modelled from the spec: [Node.getOutputPort] and [Node.getInputPort],
    the port of the node with the given id ([undefined] when there is none). *)
Definition getOutputPort (s : DataflowState) (n : NodeRef) (pid : string)
  : option PortRef :=
  List.find (λ p, bool_decide (port_id (getPort s p) = pid))
            (outputPorts (getNode s n)).

Definition getInputPort (s : DataflowState) (n : NodeRef) (pid : string)
  : option PortRef :=
  List.find (λ p, bool_decide (port_id (getPort s p) = pid))
            (inputPorts (getNode s n)).

(** Modelled from the spec: [Node.serialize], the saved record
    [{id, type, layer, ...}] with the position of the node. *)
Definition node_serialize (s : DataflowState) (n : NodeRef) : NodeSave :=
  let o := getNode s n in
  mkNodeSave (node_id o) (nodeType o) (layer o) (node_x o) (node_y o).

(** Modelled from the spec: [Node.deserialize], which restores the saved
    record on the node. *)
Definition node_deserialize (n : NodeRef) (sv : NodeSave) (s : DataflowState) :=
  updNode n (with_saved sv) s.


(** Modelled from the spec: [Node.activate], [Node.select] and
    [Node.deactivate], which set the activation and selection flags. *)
Definition node_activate (n : NodeRef) := updNode n (with_active true).
Definition node_select (n : NodeRef) := updNode n (with_selected true).
Definition node_deactivate (n : NodeRef) := updNode n (with_active false).

(** Modelled from the spec: the construction of a node from the class the
    registry returned, [new constructor({ data: { id, dataOnCreate,
    ...nodeSave } })].  The node owns fresh ports, one per port the class
    declares; the fields of [nodeSave], spread last into [data], replace
    the assigned [id] and give the layer and the position. *)
Fixpoint newPorts (owner : NodeRef) (input : bool) (first : nat)
    (specs : list PortSpec) (s : DataflowState) : DataflowState :=
  match specs with
  | [] => s
  | sp :: specs =>
    newPorts owner input (S first) specs
      (set_portObjs
         (insert first
            (mkPort (spec_id sp) owner input (spec_isMultiple sp) (spec_tag sp) []))
         s)
  end.

Definition newNode (c : NodeClass) (id : string) (doc : CreateNodeData)
    (nodeSave : option NodeSave) (s : DataflowState) : DataflowState * NodeRef :=
  let r := nextRef s in
  let ins := seq (S r) (length (class_inputs c)) in
  let outs := seq (S r + length (class_inputs c)) (length (class_outputs c)) in
  let o := mkNode id (NODE_TYPE c) 0 0 0 false false
             (class_isPropagationSource c) doc ins outs in
  let o := match nodeSave with Some sv => with_saved sv o | None => o end in
  let s := newPorts r true (S r) (class_inputs c) s in
  let s := newPorts r false (S r + length (class_inputs c))%nat (class_outputs c) s in
  let s := set_nodeObjs (insert r o) s in
  (set_nextRef (S r + length (class_inputs c) + length (class_outputs c))%nat s, r).

(** ** The operations of [helper.ts] *)

Section Mutator.
Context `{Collaborators}.

Definition getNodeDataOnCreate (options : CreateNodeOptions) : CreateNodeData :=
  match opt_dataflowX options, opt_dataflowY options with
  | Some x, Some y => mkCreateNodeData (Some x) (Some y) None None
  | _, _ =>
    match opt_dataflowCenterX options, opt_dataflowCenterY options with
    | Some x, Some y => mkCreateNodeData None None (Some x) (Some y)
    | _, _ => mkCreateNodeData None None None None
    end
  end.

Definition newId (id : nat) : string := "node-" +:+ pretty id.

(** The loop [for (let id = 1;; id++)] of [assignNodeId].  The loop has no
    bound in the source; here it runs for at most [fuel] further rounds,
    and [assignNodeId] gives it one round per node of the diagram, which
    is always enough (lemma [assignNodeId_loop_fresh]): the last round is
    never reached with its candidate taken. *)
Fixpoint assignNodeId_loop (fuel id : nat) (nodeIds : gset string) : string :=
  if bool_decide (newId id ∉ nodeIds) then newId id
  else match fuel with
       | O => newId id
       | S fuel' => assignNodeId_loop fuel' (S id) nodeIds
       end.

Definition assignNodeId (state : DataflowState) : string :=
  let nodeIds : gset string :=
    list_to_set (map (λ node, node_id (getNode state node)) (nodes state)) in
  assignNodeId_loop (length (nodes state)) 1 nodeIds.

Definition createNode (state : DataflowState) (options : CreateNodeOptions)
    (nodeSave : option NodeSave) : DataflowState * NodeRef :=
  let constructor := getConstructor (opt_type options) in
  let id := assignNodeId state in
  let dataOnCreate := getNodeDataOnCreate options in
  let '(state, node) := newNode constructor id dataOnCreate nodeSave state in
  let state :=
    if bool_decide (nodeType (getNode state node) ≠ opt_type options)
    then emit (ConsoleError ("NODE_TYPE not set on node " +:+ opt_type options)) state
    else state in
  let state := emit (CanvasAddNode node) state in
  let state := set_nodes (λ ns, ns ++ [node]) state in
  let state :=
    if opt_activate options
    then node_select node (node_activate node state)
    else state in
  (state, node).

(** The optional argument [options?: { disableMessage: boolean }]. *)
Record EdgeOptions := mkEdgeOptions { disableMessage : bool }.

Definition messageDisabled (options : option EdgeOptions) : bool :=
  match options with
  | Some o => disableMessage o
  | None => false
  end.

Definition createEdge (state : DataflowState) (sourcePort targetPort : PortRef)
    (propagate : bool) (options : option EdgeOptions)
  : DataflowState * option Edge :=
  let connectivity := checkEdgeConnectivity state sourcePort targetPort in
  if negb (connectable connectivity) then
    (if negb (messageDisabled options)
     then emit (ShowSystemMessage (reason connectivity) "warn") state
     else state,
     None)
  else
    let srcIsInput := isInput (getPort state sourcePort) in
    (* always create edge from output port to input port *)
    let edge := mkEdge (nextRef state)
                       (if negb srcIsInput then sourcePort else targetPort)
                       (if negb srcIsInput then targetPort else sourcePort) in
    let state := set_nextRef (S (nextRef state)) state in
    let state := addIncidentEdge sourcePort edge state in
    let state := addIncidentEdge targetPort edge state in
    let state := emit (CanvasAddEdge edge) state in
    let state :=
      if propagate
      then emit (PropagateNode (port_node (getPort state (target edge)))) state
      else state in
    (state, Some edge).

Definition createEdgeToNode (state : DataflowState) (sourcePort : PortRef)
    (targetNode : NodeRef) (propagate : bool) (options : option EdgeOptions)
  : DataflowState * option Edge :=
  match findConnectablePort state targetNode sourcePort with
  | None =>
    (if negb (messageDisabled options)
     then emit (ShowSystemMessage "cannot find available port to connect" "warn") state
     else state,
     None)
  | Some targetPort => createEdge state sourcePort targetPort propagate None
  end.

Definition removeEdge (state : DataflowState) (edge : Edge) (propagate : bool)
  : DataflowState :=
  let state := removeIncidentEdge (source edge) edge state in
  let state := removeIncidentEdge (target edge) edge state in
  let state :=
    if propagate
    then emit (PropagateNode (port_node (getPort state (target edge)))) state
    else state in
  emit (CanvasRemoveEdge edge) state.

Definition removeEdges (state : DataflowState) (edges : list Edge) : DataflowState :=
  foldl (λ state edge, removeEdge state edge false) state edges.

(** [_.pull(array, value)]: removes every occurrence of the value. *)
Definition pull (x : nat) (l : list nat) : list nat :=
  List.filter (λ y, negb (bool_decide (y = x))) l.

Definition removeNode (state : DataflowState) (node : NodeRef) (propagate : bool)
  : DataflowState * list Edge :=
  let outputNodes := getOutputNodes state node in
  let edgesToRemove := getAllEdges state node in
  let state := removeEdges state edgesToRemove in
  let state := if propagate then emit (PropagateNodes outputNodes) state else state in
  let state := set_nodes (pull node) state in
  let state := emit (CanvasRemoveNode node) state in
  (state, edgesToRemove).

(** The first loop of [removeSelectedNodes]: the output neighbors of the
    selected nodes that are not in the list of selected nodes. *)
Definition addUnselected (selected : list NodeRef) (affected outs : list NodeRef)
  : list NodeRef :=
  foldl (λ affected toNode,
           if bool_decide (toNode ∉ selected)
           then set_add toNode affected else affected)
        affected outs.

Definition affectedOutputNodes (state : DataflowState) (selected : list NodeRef)
  : list NodeRef :=
  foldl (λ affected node,
           addUnselected selected affected (getOutputNodes state node))
        [] selected.

Definition removeNodes (state : DataflowState) (selected : list NodeRef)
  : DataflowState * list Edge :=
  foldl (λ '(state, removedEdges) node,
           let '(state, removed) := removeNode state node false in
           (state, removedEdges ++ removed))
        (state, []) selected.

Record Removed := mkRemoved {
  removedNodes : list NodeRef;
  removedEdges : list Edge;
}.

Definition removeSelectedNodes (state : DataflowState) : DataflowState * Removed :=
  let selected := List.filter (λ node, isSelected (getNode state node)) (nodes state) in
  let affected := affectedOutputNodes state selected in
  let '(state, removedEdges) := removeNodes state selected in
  let state := emit (PropagateNodes affected) state in
  (state, mkRemoved selected removedEdges).

Definition disconnectPort (state : DataflowState) (port : PortRef) (propagate : bool)
  : DataflowState * list Edge :=
  let affectedNodes :=
    if isInput (getPort state port) then [port_node (getPort state port)]
    else getConnectedNodes state port in
  let removedEdges := port_getAllEdges state port in
  let state := removeEdges state removedEdges in
  let state := if propagate then emit (PropagateNodes affectedNodes) state else state in
  (state, removedEdges).

(** [_.extend(state, _.omit(getInitialState(), 'canvas'))]: the fields of
    the store are those of a fresh diagram; the objects stay where they are. *)
Definition resetFields (state : DataflowState) : DataflowState :=
  mkState [] initialDiagramName 0 false
          (nodeObjs state) (portObjs state) (nextRef state) (effects state).

Definition resetDataflow (state : DataflowState) : DataflowState :=
  let state :=
    foldl (λ state node, (removeNode state node false).1) state (nodes state) in
  emit HistoryClear (resetFields state).


(** The [map] over [diagram.nodes] of [deserializeDiagram]: the state after
    the nodes are created, and the created nodes. *)
Definition deserializeNode (acc : DataflowState * list NodeRef) (nodeSave : NodeSave)
  : DataflowState * list NodeRef :=
  let '(state, created) := acc in
  let '(state, node) :=
    createNode state (mkCreateNodeOptions (save_type nodeSave) None None None None false)
               (Some nodeSave) in
  let state := node_deserialize node nodeSave state in
  let state := node_deactivate node state in (* Avoid all nodes being active. *)
  (state, created ++ [node]).

Definition findNodeById (state : DataflowState) (id : string) : option NodeRef :=
  List.find (λ node, bool_decide (node_id (getNode state node) = id)) (nodes state).

(** One round of the loop over [diagram.edges].  [None] is the [TypeError]
    of a saved id that names no node of the diagram.  A saved port id that
    names no port of the node makes the code hand an undefined port to the
    connectivity check, which is not in the repository; this is taken to
    fail as well. *)
Definition deserializeEdge (state : DataflowState) (edgeSave : EdgeSave)
  : option DataflowState :=
  sourceNode ← findNodeById state (sourceNodeId edgeSave);
  targetNode ← findNodeById state (targetNodeId edgeSave);
  sourcePort ← getOutputPort state sourceNode (sourcePortId edgeSave);
  targetPort ← getInputPort state targetNode (targetPortId edgeSave);
  Some (createEdge state sourcePort targetPort false None).1.

Definition deserializeEdges (state : DataflowState) (edges : list EdgeSave)
  : option DataflowState :=
  foldl (λ acc edgeSave, state ← acc; deserializeEdge state edgeSave)
        (Some state) edges.

(** [_.max(layers) || 0]. *)
Definition maxLayer (layers : list Z) : Z :=
  match layers with
  | [] => 0
  | l :: ls => foldl Z.max l ls
  end.

Definition deserializeDiagram (state : DataflowState) (diagram : DiagramSave)
  : option DataflowState :=
  (* First clear the diagram. *)
  let state := resetDataflow state in
  (* Turn on deserializing flag to avoid nodes trigger propagation. *)
  let state := set_isDeserializing true state in
  let '(state, created) := foldl deserializeNode (state, []) (save_nodes diagram) in
  let sources :=
    List.filter (λ node, isPropagationSource (getNode state node)) created in
  let state := set_numNodeLayers (maxLayer (map save_layer (save_nodes diagram))) state in
  state ← deserializeEdges state (save_edges diagram);
  let state := set_isDeserializing false state in
  Some (emit (PropagateNodes sources) state).

Record Inserted := mkInserted {
  createdEdges : list Edge;
  removedEdge : Edge;
}.

Definition insertNodeOnEdge (state : DataflowState) (node : NodeRef) (edge : Edge)
  : DataflowState * Inserted :=
  let edgeSource := source edge in
  let edgeTarget := target edge in
  (* Removes the existing edge first to avoid connectiviy check failing
     because of existing connection. *)
  let state := removeEdge state edge false in
  let nodeOutputPort := findConnectablePort state node edgeTarget in
  let '(state, e1, e2) :=
    match nodeOutputPort with
    | Some nodeOutputPort =>
      let '(state, e1) :=
        createEdgeToNode state (source edge) node false (Some (mkEdgeOptions true)) in
      let '(state, e2) :=
        createEdge state nodeOutputPort edgeTarget false (Some (mkEdgeOptions true)) in
      (state, e1, e2)
    | None => (state, None, None)
    end in
  let created := omap (λ e : option Edge, e) [e1; e2] in
  let state := if e1 is Some _ then emit (PropagatePort edgeSource) state else state in
  let state :=
    match e2, e1 with
    | Some _, None => emit (PropagateNode node) state
    | _, _ => state
    end in
  (state, mkInserted created edge).

End Mutator.

(** The state of a store that holds no diagram yet. *)
Definition emptyState `{Collaborators} : DataflowState :=
  mkState [] initialDiagramName 0 false ∅ ∅ 0 [].

(** ** Sequences of node creations and removals *)

Inductive Op :=
  | OpCreateNode (options : CreateNodeOptions) (nodeSave : option NodeSave)
  | OpRemoveNode (node : NodeRef) (propagate : bool).

Definition applyOp `{Collaborators} (state : DataflowState) (op : Op) : DataflowState :=
  match op with
  | OpCreateNode options nodeSave => (createNode state options nodeSave).1
  | OpRemoveNode node propagate => (removeNode state node propagate).1
  end.

Definition applyOps `{Collaborators} (state : DataflowState) (ops : list Op)
  : DataflowState :=
  foldl applyOp state ops.

(** A creation that is given no saved node. *)
Definition unsaved (op : Op) : Prop :=
  match op with
  | OpCreateNode _ (Some _) => False
  | _ => True
  end.

Global Instance unsaved_dec op : Decision (unsaved op).
Proof. destruct op as [? [?|]|]; simpl; apply _. Defined.

(** The ids of the nodes of the diagram, in the order of the nodes. *)
Definition nodeIds (s : DataflowState) : list string :=
  map (λ node, node_id (getNode s node)) (nodes s).

(** No creation of the sequence is given a saved node whose id is, when the
    creation is made, the id of a node of the diagram. *)
Fixpoint savedIdsFresh `{Collaborators} (state : DataflowState) (ops : list Op)
  : Prop :=
  match ops with
  | [] => True
  | op :: ops =>
    match op with
    | OpCreateNode _ (Some saved) => save_id saved ∉ nodeIds state
    | _ => True
    end
    ∧ savedIdsFresh (applyOp state op) ops
  end.

(** ** Observations on a state *)

(** The requests made to the propagation engine among a list of effects. *)
Definition isPropagation (e : Effect) : bool :=
  match e with
  | PropagateNode _ | PropagatePort _ | PropagateNodes _ => true
  | _ => false
  end.

Definition propagations (es : list Effect) : list Effect := List.filter isPropagation es.

(** The ports of a node, and the ports of the nodes of the diagram. *)
Definition portsOf (s : DataflowState) (n : NodeRef) : list PortRef :=
  inputPorts (getNode s n) ++ outputPorts (getNode s n).

Definition diagramPorts (s : DataflowState) : list PortRef :=
  concat (map (portsOf s) (nodes s)).

(** The edges of the diagram: the edges found at the ports of its nodes. *)
Definition diagramEdges (s : DataflowState) : list Edge :=
  concat (map (port_getAllEdges s) (diagramPorts s)).

(** An edge references a node when one of its two ports belongs to it. *)
Definition references (s : DataflowState) (e : Edge) (n : NodeRef) : Prop :=
  port_node (getPort s (source e)) = n ∨ port_node (getPort s (target e)) = n.

(** ** Structural invariants of the graph model *)

(** A node owns its ports: each port of a node of the diagram refers back
    to that node. *)
Definition portsOwned (s : DataflowState) : Prop :=
  Forall (λ n, Forall (λ p, port_node (getPort s p) = n) (portsOf s n)) (nodes s).

(** An edge found at a port references that port as its source or as its
    target, its two ports are ports of the nodes they refer to, and the
    edge is linked to both of them. *)
Definition edgeLinked (s : DataflowState) (p : PortRef) (e : Edge) : Prop :=
  (source e = p ∨ target e = p)
  ∧ source e ∈ portsOf s (port_node (getPort s (source e)))
  ∧ target e ∈ portsOf s (port_node (getPort s (target e)))
  ∧ e ∈ port_edges (getPort s (source e))
  ∧ e ∈ port_edges (getPort s (target e)).

Definition edgesLinked (s : DataflowState) : Prop :=
  Forall (λ p, Forall (edgeLinked s p) (port_edges (getPort s p))) (diagramPorts s).

Global Instance portsOwned_dec s : Decision (portsOwned s).
Proof. unfold portsOwned. apply _. Defined.

Global Instance edgeLinked_dec s p e : Decision (edgeLinked s p e).
Proof. unfold edgeLinked. apply _. Defined.

Global Instance edgesLinked_dec s : Decision (edgesLinked s).
Proof. unfold edgesLinked. apply _. Defined.

(** The references of the nodes of the diagram were allocated. *)
Definition allocated (state : DataflowState) : Prop :=
  Forall (λ node, (node < nextRef state)%nat) (nodes state).

(** ** Consistency of the graph *)

(** The ports of the nodes of the diagram were allocated. *)
Definition portsAllocated (s : DataflowState) : Prop :=
  Forall (λ p, (p < nextRef s)%nat) (diagramPorts s).

(** The two ends of an edge of the diagram are ports of nodes of the
    diagram. *)
Definition edgesInside (s : DataflowState) : Prop :=
  Forall (λ e, source e ∈ diagramPorts s ∧ target e ∈ diagramPorts s)
         (diagramEdges s).

(** An edge is one object: no other edge of the diagram has its
    identity. *)
Definition known (s : DataflowState) (e : Edge) : Prop :=
  Forall (λ e', eid e' = eid e → e' = e) (diagramEdges s).

(** The identities of the edges of the diagram were allocated and tell the
    edges apart. *)
Definition edgesIdentified (s : DataflowState) : Prop :=
  Forall (λ e, (eid e < nextRef s)%nat ∧ known s e) (diagramEdges s).

(** A consistent graph: a node is once in the diagram and owns its ports;
    an edge found at a port has the port as an end, is found at both of
    its ends, and its ends are ports of nodes of the diagram. *)
Definition consistent (s : DataflowState) : Prop :=
  NoDup (nodes s) ∧ allocated s ∧ portsAllocated s ∧ portsOwned s
  ∧ edgesLinked s ∧ edgesInside s ∧ edgesIdentified s.

Global Instance known_dec s e : Decision (known s e).
Proof. unfold known. apply _. Defined.

Global Instance consistent_dec s : Decision (consistent s).
Proof.
  unfold consistent, allocated, portsAllocated, edgesInside, edgesIdentified.
  apply _.
Defined.

(** The operations the module exports, as requests; a request is
    permitted in a diagram when the nodes, ports and edges it names are
    objects of the diagram. *)
Inductive Mutation :=
  | MutCreateNode (options : CreateNodeOptions) (nodeSave : option NodeSave)
  | MutCreateEdge (sourcePort targetPort : PortRef) (propagate : bool)
                  (options : option EdgeOptions)
  | MutCreateEdgeToNode (sourcePort : PortRef) (targetNode : NodeRef)
                        (propagate : bool) (options : option EdgeOptions)
  | MutInsertNodeOnEdge (node : NodeRef) (edge : Edge)
  | MutRemoveEdge (edge : Edge) (propagate : bool)
  | MutRemoveNode (node : NodeRef) (propagate : bool)
  | MutRemoveSelectedNodes
  | MutDisconnectPort (port : PortRef) (propagate : bool)
  | MutResetDataflow
  | MutDeserializeDiagram (diagram : DiagramSave).

Definition permitted (s : DataflowState) (m : Mutation) : Prop :=
  match m with
  | MutCreateEdge sourcePort targetPort _ _ =>
    sourcePort ∈ diagramPorts s ∧ targetPort ∈ diagramPorts s
  | MutCreateEdgeToNode sourcePort targetNode _ _ =>
    sourcePort ∈ diagramPorts s ∧ targetNode ∈ nodes s
  | MutInsertNodeOnEdge node edge => node ∈ nodes s ∧ edge ∈ diagramEdges s
  | MutRemoveEdge edge _ => edge ∈ diagramEdges s
  | MutRemoveNode node _ => node ∈ nodes s
  | MutDisconnectPort port _ => port ∈ diagramPorts s
  | _ => True
  end.

Global Instance permitted_dec s m : Decision (permitted s m).
Proof. destruct m; simpl; apply _. Defined.

(** The state after a request; [None] when reading a diagram fails. *)
Definition mutate `{Collaborators} (s : DataflowState) (m : Mutation)
  : option DataflowState :=
  match m with
  | MutCreateNode options nodeSave => Some (createNode s options nodeSave).1
  | MutCreateEdge sourcePort targetPort propagate options =>
    Some (createEdge s sourcePort targetPort propagate options).1
  | MutCreateEdgeToNode sourcePort targetNode propagate options =>
    Some (createEdgeToNode s sourcePort targetNode propagate options).1
  | MutInsertNodeOnEdge node edge => Some (insertNodeOnEdge s node edge).1
  | MutRemoveEdge edge propagate => Some (removeEdge s edge propagate)
  | MutRemoveNode node propagate => Some (removeNode s node propagate).1
  | MutRemoveSelectedNodes => Some (removeSelectedNodes s).1
  | MutDisconnectPort port propagate => Some (disconnectPort s port propagate).1
  | MutResetDataflow => Some (resetDataflow s)
  | MutDeserializeDiagram diagram => deserializeDiagram s diagram
  end.

(** A sequence of requests, each permitted in the state it is made in. *)
Fixpoint mutations `{Collaborators} (s : DataflowState) (ms : list Mutation)
  : option DataflowState :=
  match ms with
  | [] => Some s
  | m :: ms =>
    if bool_decide (permitted s m)
    then s' ← mutate s m; mutations s' ms
    else None
  end.

(** ** Diagrams and saved diagrams that can be replayed *)

(** A port of a node is the port a class declares: it has the declared
    id, capacity and tag, the direction of the list it is in, and refers
    to the node. *)
Definition portOf (s : DataflowState) (owner : NodeRef) (input : bool)
    (p : PortRef) (sp : PortSpec) : Prop :=
  port_id (getPort s p) = spec_id sp
  ∧ port_node (getPort s p) = owner
  ∧ isInput (getPort s p) = input
  ∧ isMultiple (getPort s p) = spec_isMultiple sp
  ∧ port_tag (getPort s p) = spec_tag sp.

(** A node is an instance of the class registered for the type of a saved
    node, and carries the fields of the saved node. *)
Definition instanceOf `{Collaborators} (s : DataflowState) (n : NodeRef)
    (sv : NodeSave) : Prop :=
  let o := getNode s n in
  let c := getConstructor (save_type sv) in
  node_id o = save_id sv
  ∧ nodeType o = NODE_TYPE c
  ∧ layer o = save_layer sv
  ∧ node_x o = save_x sv
  ∧ node_y o = save_y sv
  ∧ Forall2 (portOf s n true) (inputPorts o) (class_inputs c)
  ∧ Forall2 (portOf s n false) (outputPorts o) (class_outputs c).

(** The output ports of the nodes of the diagram, and the edges found at
    them: each edge of the diagram once, from its source side. *)
Definition outputPortsAll (s : DataflowState) : list PortRef :=
  concat (map (λ n, outputPorts (getNode s n)) (nodes s)).

Definition outputEdges (s : DataflowState) : list Edge :=
  concat (map (port_getAllEdges s) (outputPortsAll s)).



(** Every edge of the diagram is found at an output port of a node of the
    diagram. *)
Definition edgesAtOutputs (s : DataflowState) : Prop :=
  Forall (λ e, e ∈ outputEdges s) (diagramEdges s).

Global Instance edgesAtOutputs_dec s : Decision (edgesAtOutputs s).
Proof. unfold edgesAtOutputs. apply _. Defined.

(** The first port a class declares with a given id, and the class of the
    first saved node with a given id. *)
Definition findSpec (specs : list PortSpec) (pid : string) : option PortSpec :=
  List.find (λ sp, bool_decide (spec_id sp = pid)) specs.

Definition savedClass `{Collaborators} (svs : list NodeSave) (id : string)
  : option NodeClass :=
  option_map (λ sv, getConstructor (save_type sv))
             (List.find (λ sv, bool_decide (save_id sv = id)) svs).

Definition targetKey (es : EdgeSave) : string * string :=
  (targetNodeId es, targetPortId es).

Section Replay.
Context `{Collaborators}.
(** Which tag of an output port goes with which tag of an input port. *)
Variable compatible : string → string → bool.

(** A saved edge names an output port of a saved node and an input port of
    another saved node, with compatible tags. *)
Definition edgeReplayable (svs : list NodeSave) (es : EdgeSave) : Prop :=
  match savedClass svs (sourceNodeId es), savedClass svs (targetNodeId es) with
  | Some cS, Some cT =>
    match findSpec (class_outputs cS) (sourcePortId es),
          findSpec (class_inputs cT) (targetPortId es) with
    | Some spS, Some spT =>
      sourceNodeId es ≠ targetNodeId es
      ∧ compatible (spec_tag spS) (spec_tag spT) = true
    | _, _ => False
    end
  | _, _ => False
  end.

(** The saved edge goes to an input port that takes one connection. *)
Definition singleTarget (svs : list NodeSave) (es : EdgeSave) : bool :=
  match savedClass svs (targetNodeId es) with
  | Some cT =>
    match findSpec (class_inputs cT) (targetPortId es) with
    | Some spT => negb (spec_isMultiple spT)
    | None => false
    end
  | None => false
  end.

(** A saved diagram of registered classes whose edges can be made again
    one after the other: every edge is replayable, and no input port that
    takes one connection is the target of two saved edges. *)
Definition replayable (d : DiagramSave) : Prop :=
  Forall (λ sv, NODE_TYPE (getConstructor (save_type sv)) = save_type sv) (save_nodes d)
  ∧ Forall (edgeReplayable (save_nodes d)) (save_edges d)
  ∧ NoDup (map targetKey (List.filter (singleTarget (save_nodes d)) (save_edges d))).

(** An edge found at an output port of a node starts at that port and
    ends at an input port of another node of the diagram, with compatible
    tags. *)
Definition edgeDirected (s : DataflowState) (n : NodeRef) (p : PortRef) (e : Edge)
  : Prop :=
  source e = p
  ∧ Exists (λ m, m ≠ n ∧ target e ∈ inputPorts (getNode s m)) (nodes s)
  ∧ compatible (port_tag (getPort s p)) (port_tag (getPort s (target e))) = true.

(** The invariants of a diagram: node ids are unique, every node is an
    instance of the class registered for its type, a class declares no
    port id twice among its inputs or among its outputs, every edge goes
    from an output port to an input port of another node with compatible
    tags, and an input port that takes one connection is the target of at
    most one edge. *)
Definition wellFormed (s : DataflowState) : Prop :=
  NoDup (nodeIds s)
  ∧ Forall (λ n, instanceOf s n (node_serialize s n)
                 ∧ NoDup (map spec_id (class_inputs (getConstructor (nodeType (getNode s n)))))
                 ∧ NoDup (map spec_id (class_outputs (getConstructor (nodeType (getNode s n))))))
           (nodes s)
  ∧ Forall (λ n, Forall (λ p, Forall (edgeDirected s n p) (port_edges (getPort s p)))
                        (outputPorts (getNode s n)))
           (nodes s)
  ∧ NoDup (List.filter (λ q, negb (isMultiple (getPort s q)))
                       (map target (outputEdges s))).


End Replay.

Global Instance portOf_dec s owner input p sp : Decision (portOf s owner input p sp).
Proof. unfold portOf. apply _. Defined.

Global Instance instanceOf_dec `{Collaborators} s n sv : Decision (instanceOf s n sv).
Proof. unfold instanceOf. apply _. Defined.

Global Instance edgeReplayable_dec `{Collaborators} compatible svs es :
  Decision (edgeReplayable compatible svs es).
Proof. unfold edgeReplayable. repeat case_match; apply _. Defined.

Global Instance replayable_dec `{Collaborators} compatible d :
  Decision (replayable compatible d).
Proof. unfold replayable. apply _. Defined.

Global Instance edgeDirected_dec s compatible n p e :
  Decision (edgeDirected compatible s n p e).
Proof. unfold edgeDirected. apply _. Defined.

Global Instance wellFormed_dec `{Collaborators} compatible s :
  Decision (wellFormed compatible s).
Proof. unfold wellFormed. apply _. Defined.

(** The state while [deserializeDiagram] creates the nodes: the nodes made
    so far are instances for the saved nodes read so far, their references
    and those of their ports were allocated, no output port is listed
    twice, and no port has an edge yet. *)
Definition rebuilt `{Collaborators} (s : DataflowState) (svs : list NodeSave) : Prop :=
  Forall2 (instanceOf s) (nodes s) svs
  ∧ Forall (λ r, (r < nextRef s)%nat) (nodes s)
  ∧ Forall (λ p, (p < nextRef s)%nat) (diagramPorts s)
  ∧ NoDup (outputPortsAll s)
  ∧ Forall (λ p, port_edges (getPort s p) = []) (diagramPorts s).


(** The edges of a list that [removeEdge] detaches from a port: those of
    the identity of an edge of the list that has the port as an end. *)
Definition detached (es : list Edge) (p : PortRef) (e' : Edge) : bool :=
  existsb (λ e, (bool_decide (source e = p) || bool_decide (target e = p))
                && same_edge e e') es.

(** ** The interaction manager

    The handlers of the legacy interaction manager.  Page coordinates are
    integers.  The calls to the dataflow manager, the view manager and
    jQuery are recorded in order; the selection and the hover set of the
    dataflow manager are followed along. *)

Module Interaction.

Record Event := mkEvent {
  pageX : Z;
  pageY : Z;
  keyCode : Z;
  (* center of the event target, as [dragstartHandler] measures it *)
  targetCenter : Z * Z;
}.

(** A port as the handlers see it. *)
Record PortInfo := mkPortInfo {
  port_ref : nat;
  isInPort : bool;
}.

(** The argument of the handlers: [{ type, event, node?, port? }]. *)
Record Para := mkPara {
  para_type : string;
  para_event : Event;
  para_node : option nat;
  para_port : option PortInfo;
}.

Record Box := mkBox {
  box_width : Z;
  box_height : Z;
  box_left : Z;
  box_top : Z;
}.

Inductive NodeSet := AllNodes | NodesSelected.

(** The numbers [dragmoveHandler] computes for the style of the edge being
    drawn, as the expressions the code evaluates: the arithmetic of doubles
    and the functions of [Math] are not evaluated here. *)
Inductive Num :=
  | Int (z : Z)
  | Sub (a b : Num)
  | Mul (a b : Num)
  | Div (a b : Num)
  | Sqrt (a : Num)
  | Atan2 (y x : Num)
  | Cos (a : Num)
  | Sin (a : Num).

Inductive Call :=
  | CssCursor (value : string)
  | SelectboxShow (box : Box)
  | SelectboxHide
  | EdgeDrawingHidden
  (* jqsegment.css(property, value) *)
  | EdgeSegmentCss (property : string) (value : Num)
  (* jqsegment.css({ width, transform: rotate(angle rad) }) *)
  | EdgeSegmentStyle (width angle : Num)
  (* jqarrow.css({ left, top, transform: rotate(angle rad) }) *)
  | EdgeArrowStyle (left top angle : Num)
  | EdgeDrawingVisible
  | MoveNodes (dx dy : Z) (which : NodeSet)
  | ClearNodeHover
  | AddNodeHover (hovered : list nat)
  | ClearNodeSelection
  | AddHoveredToSelection
  | AddNodeSelection (node : option nat)
  | ClearEdgeHover
  | CreateEdge (port1 port2 : option PortInfo).

Record Selectbox := mkSelectbox { x1 : Z; x2 : Z; y1 : Z; y2 : Z }.

Record Manager := mkManager {
  mouseMode : string;               (* none, pan, selectbox, node, port *)
  dragstartPos : Z * Z;
  draglastPos : Z * Z;
  dragstopPos : Z * Z;
  dragstartPara : option Para;
  dragstopPara : option Para;
  dropPossible : bool;
  mousedownPos : Z * Z;
  mouseupPos : Z * Z;
  mouselastPos : Z * Z;
  selectbox : Selectbox;
  shifted : bool;
  ctrled : bool;
  visualizationBlocking : bool;
  mouseMoved : bool;
  (* core.dataflowManager *)
  nodesSelected : gset nat;
  nodesHovered : gset nat;
  calls : list Call;
}.

(** [initialize] calls [prepareInteraction], which hides the selection
    rectangle and binds the handlers. *)
Definition initialize : Manager :=
  mkManager "none" (0, 0) (0, 0) (0, 0) None None false (0, 0) (0, 0) (0, 0)
            (mkSelectbox 0 0 0 0) false false true false ∅ ∅ [SelectboxHide].

Definition set_mouseMode (v : string) (m : Manager) : Manager :=
  mkManager v (dragstartPos m) (draglastPos m) (dragstopPos m)
    (dragstartPara m) (dragstopPara m) (dropPossible m) (mousedownPos m)
    (mouseupPos m) (mouselastPos m) (selectbox m) (shifted m) (ctrled m)
    (visualizationBlocking m) (mouseMoved m) (nodesSelected m) (nodesHovered m)
    (calls m).

Definition set_drag (start last stop : Z * Z) (startPara stopPara : option Para)
    (possible : bool) (m : Manager) : Manager :=
  mkManager (mouseMode m) start last stop startPara stopPara possible
    (mousedownPos m) (mouseupPos m) (mouselastPos m) (selectbox m) (shifted m)
    (ctrled m) (visualizationBlocking m) (mouseMoved m) (nodesSelected m)
    (nodesHovered m) (calls m).

Definition set_mouse (down up last : Z * Z) (moved : bool) (m : Manager) : Manager :=
  mkManager (mouseMode m) (dragstartPos m) (draglastPos m) (dragstopPos m)
    (dragstartPara m) (dragstopPara m) (dropPossible m) down up last
    (selectbox m) (shifted m) (ctrled m) (visualizationBlocking m) moved
    (nodesSelected m) (nodesHovered m) (calls m).

Definition set_selectbox (b : Selectbox) (m : Manager) : Manager :=
  mkManager (mouseMode m) (dragstartPos m) (draglastPos m) (dragstopPos m)
    (dragstartPara m) (dragstopPara m) (dropPossible m) (mousedownPos m)
    (mouseupPos m) (mouselastPos m) b (shifted m) (ctrled m)
    (visualizationBlocking m) (mouseMoved m) (nodesSelected m) (nodesHovered m)
    (calls m).

Definition set_keys (shift ctrl blocking : bool) (m : Manager) : Manager :=
  mkManager (mouseMode m) (dragstartPos m) (draglastPos m) (dragstopPos m)
    (dragstartPara m) (dragstopPara m) (dropPossible m) (mousedownPos m)
    (mouseupPos m) (mouselastPos m) (selectbox m) shift ctrl blocking
    (mouseMoved m) (nodesSelected m) (nodesHovered m) (calls m).

Definition set_dataflow (selected hovered : gset nat) (m : Manager) : Manager :=
  mkManager (mouseMode m) (dragstartPos m) (draglastPos m) (dragstopPos m)
    (dragstartPara m) (dragstopPara m) (dropPossible m) (mousedownPos m)
    (mouseupPos m) (mouselastPos m) (selectbox m) (shifted m) (ctrled m)
    (visualizationBlocking m) (mouseMoved m) selected hovered (calls m).

Definition call (c : Call) (m : Manager) : Manager :=
  mkManager (mouseMode m) (dragstartPos m) (draglastPos m) (dragstopPos m)
    (dragstartPara m) (dragstopPara m) (dropPossible m) (mousedownPos m)
    (mouseupPos m) (mouselastPos m) (selectbox m) (shifted m) (ctrled m)
    (visualizationBlocking m) (mouseMoved m) (nodesSelected m) (nodesHovered m)
    (calls m ++ [c]).

(** Modelled from the spec: the selection and hover operations of the
    dataflow manager.  Clearing empties the set, adding extends it, and
    adding the hovered nodes to the selection is their union. *)
Definition clearNodeSelection (m : Manager) : Manager :=
  call ClearNodeSelection (set_dataflow ∅ (nodesHovered m) m).

Definition addHoveredToSelection (m : Manager) : Manager :=
  call AddHoveredToSelection
       (set_dataflow (nodesSelected m ∪ nodesHovered m) (nodesHovered m) m).

Definition addNodeSelection (node : option nat) (m : Manager) : Manager :=
  call (AddNodeSelection node)
       (set_dataflow (match node with
                      | Some n => nodesSelected m ∪ {[n]}
                      | None => nodesSelected m
                      end) (nodesHovered m) m).

Definition clearNodeHover (m : Manager) : Manager :=
  call ClearNodeHover (set_dataflow (nodesSelected m) ∅ m).

Definition addNodeHover (hovered : list nat) (m : Manager) : Manager :=
  call (AddNodeHover hovered)
       (set_dataflow (nodesSelected m) (nodesHovered m ∪ list_to_set hovered) m).

Definition isNodeSelected (node : option nat) (m : Manager) : bool :=
  match node with
  | Some n => bool_decide (n ∈ nodesSelected m)
  | None => false
  end.

(** The argument of [keyReleased]: one key or an array of keys. *)
Inductive KeyArg := Key (k : string) | Keys (ks : list string).

Definition keyReleased1 (m : Manager) (key : string) : Manager :=
  if bool_decide (key = "shift") then
    call (CssCursor "") (set_keys false (ctrled m) (visualizationBlocking m) m)
  else if bool_decide (key = "ctrl") then
    call (CssCursor "") (set_keys (shifted m) false true m)
  else m.

Definition keyReleased (key : KeyArg) (m : Manager) : Manager :=
  let key := match key with Key k => [k] | Keys ks => ks end in
  foldl keyReleased1 m key.

Definition keydown (event : Event) (m : Manager) : Manager :=
  if bool_decide (keyCode event = 16) then
    call (CssCursor "crosshair") (set_keys true (ctrled m) (visualizationBlocking m) m)
  else if bool_decide (keyCode event = 17) then
    call (CssCursor "move") (set_keys (shifted m) true false m)
  else m.

Definition keyup (event : Event) (m : Manager) : Manager :=
  if bool_decide (keyCode event = 16) then keyReleased (Key "shift") m
  else if bool_decide (keyCode event = 17) then keyReleased (Key "ctrl") m
  else m.

Definition mousedownHandler (para : Para) (m : Manager) : Manager :=
  let type := para_type para in
  let event := para_event para in
  let m := set_mouse (pageX event, pageY event) (mouseupPos m)
                     (pageX event, pageY event) (mouseMoved m) m in
  if bool_decide (mouseMode m ≠ "none") then m
  else if bool_decide (type = "background") then
    if ctrled m then set_mouseMode "pan" m
    else
      let m := set_selectbox (mkSelectbox (pageX event) (x2 (selectbox m))
                                          (pageY event) (y2 (selectbox m))) m in
      set_mouseMode "selectbox" m
  else if bool_decide (type = "node") then set_mouseMode "node" m
  else m.

Section Handlers.
(** The hit test of the dataflow manager, [getNodesInSelectbox]. *)
Variable getNodesInSelectbox : Box → list nat.

Definition mousemoveHandler (para : Para) (m : Manager) : Manager :=
  let type := para_type para in
  let event := para_event para in
  let m :=
    if bool_decide (type = "background") then
      if bool_decide (mouseMode m = "pan") then
        let dx := pageX event - (mouselastPos m).1 in
        let dy := pageY event - (mouselastPos m).2 in
        call (MoveNodes dx dy AllNodes) m
      else if bool_decide (mouseMode m = "selectbox") then
        let m := set_selectbox (mkSelectbox (x1 (selectbox m)) (pageX event)
                                            (y1 (selectbox m)) (pageY event)) m in
        let w := Z.abs (x2 (selectbox m) - x1 (selectbox m)) in
        let h := Z.abs (y2 (selectbox m) - y1 (selectbox m)) in
        let l := Z.min (x1 (selectbox m)) (x2 (selectbox m)) in
        let t := Z.min (y1 (selectbox m)) (y2 (selectbox m)) in
        let box := mkBox w h l t in
        let m := call (SelectboxShow box) m in
        let hovered := getNodesInSelectbox box in
        let m := clearNodeHover m in
        addNodeHover hovered m
      else m
    else m in
  set_mouse (mousedownPos m) (mouseupPos m) (pageX event, pageY event)
            (mouseMoved m) m.

End Handlers.

Definition clickHandler (para : Para) (m : Manager) : Manager :=
  let type := para_type para in
  if bool_decide (type = "empty") then clearNodeSelection m else m.

Definition mouseupHandler (para : Para) (m : Manager) : Manager :=
  let type := para_type para in
  let event := para_event para in
  let m := set_mouse (mousedownPos m) (pageX event, pageY event)
                     (mouselastPos m) (mouseMoved m) m in
  let dx := (mouseupPos m).1 - (mousedownPos m).1 in
  let dy := (mousedownPos m).2 - (mousedownPos m).2 in
  let m := set_mouse (mousedownPos m) (mouseupPos m) (mouselastPos m)
                     (bool_decide (Z.abs dx + Z.abs dy > 0)) m in
  let m :=
    if bool_decide (type = "background") then
      if bool_decide (mouseMode m = "pan") then call (CssCursor "") m
      else if bool_decide (mouseMode m = "selectbox") then
        let m := call SelectboxHide m in
        if negb (mouseMoved m) then
          (* mouse not moved for select box: trigger empty click *)
          clickHandler (mkPara "empty" event None None) m
        else if negb (ctrled m) then (* not panning, then selecting *)
          let m := if negb (shifted m) then clearNodeSelection m else m in
          addHoveredToSelection m
        else m
      else m
    else if bool_decide (type = "node") then
      if negb (mouseMoved m) then
        let m := if negb (shifted m) then clearNodeSelection m else m in
        addNodeSelection (para_node para) m
      else m
    else m in
  (* forcefully end all interactions *)
  let m := keyReleased (Keys ["shift"; "ctrl"]) m in
  let m := call ClearEdgeHover m in
  set_mouseMode "none" m.

Definition dragstartHandler (para : Para) (m : Manager) : Manager :=
  let type := para_type para in
  let event := para_event para in
  let m := set_drag (dragstartPos m) (draglastPos m) (dragstopPos m)
                    (Some para) (dragstopPara m) (dropPossible m) m in
  let m :=
    if bool_decide (type = "port") then
      let m := set_mouseMode "port" m in
      set_drag (targetCenter event) (draglastPos m) (dragstopPos m)
               (dragstartPara m) (dragstopPara m) true m
    else if bool_decide (type = "node") then
      let m := set_mouseMode "node" m in
      let m := call (CssCursor "move") m in
      if isNodeSelected (para_node para) m then m
      else addNodeSelection (para_node para) (clearNodeSelection m)
    else m in
  set_drag (dragstartPos m) (pageX event, pageY event) (dragstopPos m)
           (dragstartPara m) (dragstopPara m) (dropPossible m) m.

Definition dragstopHandler (para : Para) (m : Manager) : Manager :=
  let type := para_type para in
  let event := para_event para in
  let m := set_drag (dragstartPos m) (draglastPos m) (pageX event, pageY event)
                    (dragstartPara m) (Some para) (dropPossible m) m in
  let m :=
    if bool_decide (type = "port") then call EdgeDrawingHidden m
    else if bool_decide (type = "node") then call (CssCursor "") m
    else m in
  set_mouseMode "none" m.

(** [None] is the [TypeError] of reading [isInPort] when the drag that is
    dropped carried no port.  The port of the drop is passed on as it is. *)
Definition dropHandler (para : Para) (m : Manager) : option Manager :=
  let type := para_type para in
  if bool_decide (type = "port") && dropPossible m then
    (* connect ports *)
    port1 ← dragstartPara m ≫= para_port;
    let port2 := para_port para in
    let '(port1, port2) :=
      if isInPort port1
      then (port2, Some port1) (* always connect from out to in, swap *)
      else (Some port1, port2) in
    let m := call (CreateEdge port1 port2) m in
    (* prevent dropped on overlapping droppable *)
    Some (set_drag (dragstartPos m) (draglastPos m) (dragstopPos m)
                   (dragstartPara m) (dragstopPara m) false m)
  else Some m.

(** The calls to the selection of the dataflow manager among a list of calls. *)
Definition selectionCalls (cs : list Call) : list Call :=
  List.filter (λ c, match c with
                    | ClearNodeSelection | AddHoveredToSelection
                    | AddNodeSelection _ => true
                    | _ => false
                    end) cs.

(** The calls a handler added. *)
Definition newCalls (m m' : Manager) : list Call := drop (length (calls m)) (calls m').

(** A mouse-up is treated as an empty click when all it asks of the
    selection is to clear it, as [clickHandler] does for the type [empty]. *)
Definition treatedAsEmptyClick (para : Para) (m : Manager) : Prop :=
  selectionCalls (newCalls m (mouseupHandler para m)) = [ClearNodeSelection].

(** The pointer position of the event differs from the position recorded
    at mouse-down, in either axis. *)
Definition pointerMoved (para : Para) (m : Manager) : Prop :=
  pageX (para_event para) ≠ (mousedownPos m).1
  ∨ pageY (para_event para) ≠ (mousedownPos m).2.

(** The displacement asked of the nodes by a list of calls. *)
Definition totalMove (cs : list Call) : Z * Z :=
  foldl (λ acc c, match c with
                  | MoveNodes dx dy _ => (acc.1 + dx, acc.2 + dy)
                  | _ => acc
                  end) (0, 0) cs.

(** The rectangle between two corners. *)
Definition boxBetween (a b : Z * Z) : Box :=
  mkBox (Z.abs (b.1 - a.1)) (Z.abs (b.2 - a.2)) (Z.min a.1 b.1) (Z.min a.2 b.2).

(** A mouse event on the background at a position. *)
Definition background (x y : Z) : Para :=
  mkPara "background" (mkEvent x y 0 (0, 0)) None None.

(** A sequence of mouse moves over the background. *)
Definition mousemoves (getNodesInSelectbox : Box → list nat)
    (positions : list (Z * Z)) (m : Manager) : Manager :=
  foldl (λ m p, mousemoveHandler getNodesInSelectbox (background p.1 p.2) m)
        m positions.

(** [None] is the [TypeError] of reading [isInPort] when a port is dragged
    and the argument carries no port. *)
Definition dragmoveHandler (para : Para) (m : Manager) : option Manager :=
  let type := para_type para in
  let event := para_event para in
  let m := set_drag (dragstartPos m) (draglastPos m) (pageX event, pageY event)
                    (dragstartPara m) (dragstopPara m) (dropPossible m) m in
  if bool_decide (mouseMode m ≠ type) then Some m
  else if bool_decide (type = "port") then
    let dx := (dragstopPos m).1 - (dragstartPos m).1 in
    let dy := (dragstopPos m).2 - (dragstartPos m).2 in
    let hseg := Int 3 in
    let harrow := Int 9 in
    port ← para_port para;
    let '(dx, dy, m) :=
      if isInPort port then
        (- dx, - dy,
         call (EdgeSegmentCss "top" (Sub (Int (dragstopPos m).2) (Div hseg (Int 2))))
              (call (EdgeSegmentCss "left"
                       (Sub (Int (dragstopPos m).1) (Div hseg (Int 2)))) m))
      else
        (dx, dy,
         call (EdgeSegmentCss "top" (Sub (Int (dragstartPos m).2) (Div hseg (Int 2))))
              (call (EdgeSegmentCss "left"
                       (Sub (Int (dragstartPos m).1) (Div hseg (Int 2)))) m)) in
    let length := Sub (Sqrt (Int (dx * dx + dy * dy))) (Int 10) in
    let angle := Atan2 (Int dy) (Int dx) in
    let m := call (EdgeSegmentStyle length angle) m in
    let m :=
      call (EdgeArrowStyle
              (Sub (Int (dragstopPos m).1) (Mul (Int 20) (Cos angle)))
              (Sub (Sub (Int (dragstopPos m).2) (Mul (Int 20) (Sin angle)))
                   (Div harrow (Int 2)))
              angle) m in
    Some (call EdgeDrawingVisible m)
  else if bool_decide (type = "node") then
    let dx := pageX event - (draglastPos m).1 in
    let dy := pageY event - (draglastPos m).2 in
    (* the dragged node is moving together (with more offset) *)
    let m := call (MoveNodes dx dy NodesSelected) m in
    Some (set_drag (dragstartPos m) (pageX event, pageY event) (dragstopPos m)
                   (dragstartPara m) (dragstopPara m) (dropPossible m) m)
  else Some m.

(** A drag event on a node at a position, and a sequence of drag moves of
    a node. *)
Definition nodeAt (n : nat) (x y : Z) : Para :=
  mkPara "node" (mkEvent x y 0 (0, 0)) (Some n) None.

Definition dragmoves (n : nat) (positions : list (Z * Z)) (m : Manager)
  : option Manager :=
  foldl (λ acc p, m ← acc; dragmoveHandler (nodeAt n p.1 p.2) m)
        (Some m) positions.

End Interaction.

(** ** A registry and a connectivity check to run the mutator on *)

Module Demo.

(** Modelled from the spec: the connectivity check, which is given an
    output port and an input port, here in either order, and fails when
    the two ports have the same direction, when they belong to the same
    node, when the target input port already has an incident edge and does
    not support multiple connections, and when the type tags are
    incompatible (here: different). *)
Definition checkPorts (s : DataflowState) (a b : PortRef) : Connectivity :=
  let '(o, i) := if isInput (getPort s a) then (b, a) else (a, b) in
  if bool_decide (isInput (getPort s a) = isInput (getPort s b)) then
    mkConnectivity false "an edge connects an output port and an input port"
  else if bool_decide (port_node (getPort s o) = port_node (getPort s i)) then
    mkConnectivity false "ports belong to the same node"
  else if negb (isMultiple (getPort s i))
          && negb (bool_decide (port_edges (getPort s i) = [])) then
    mkConnectivity false
      "target input port already has an incident edge and does not support multiple connections"
  else if negb (bool_decide (port_tag (getPort s o) = port_tag (getPort s i))) then
    mkConnectivity false "source/target type tags are incompatible"
  else mkConnectivity true "".

(** Modelled from the spec: the first port of the node, among those of the
    direction opposite to the given port, that the check accepts. *)
Definition findPort (s : DataflowState) (n : NodeRef) (p : PortRef) : option PortRef :=
  List.find (λ q, connectable (checkPorts s p q))
            (if isInput (getPort s p) then outputPorts (getNode s n)
             else inputPorts (getNode s n)).

(** Three node classes: a loader with one output, a filter with one input
    and one output, and a chart with one input. *)
Definition registry (type : string) : NodeClass :=
  if bool_decide (type = "data-source") then
    mkNodeClass "data-source" [] [mkPortSpec "out" true "table"] true
  else if bool_decide (type = "filter") then
    mkNodeClass "filter" [mkPortSpec "in" false "table"]
                [mkPortSpec "out" true "table"] false
  else
    mkNodeClass type [mkPortSpec "in" false "table"] [] false.

Definition collaborators : Collaborators :=
  Build_Collaborators registry checkPorts findPort "".

(** Collaborators whose search returns the first input port of the node
    without asking the check, and whose check accepts no pair. *)
Definition strict : Collaborators :=
  Build_Collaborators registry
    (λ _ _ _, mkConnectivity false "source/target type tags are incompatible")
    (λ s n _, head (inputPorts (getNode s n))) "".


Definition options (type : string) : CreateNodeOptions :=
  mkCreateNodeOptions type None None None None false.

(** A loader (node 0, output port 1) and a chart (node 2, input port 3). *)
Definition twoNodes (C : Collaborators) : DataflowState :=
  let s := @emptyState C in
  let s := (@createNode C s (options "data-source") None).1 in
  (@createNode C s (options "chart") None).1.

(** The loader connected to the chart, then a second loader (node 5,
    output port 6) and a filter (node 7, input port 8, output port 9). *)
Definition connected : DataflowState :=
  let s := twoNodes collaborators in
  let s := (@createEdge collaborators s 1%nat 3%nat false None).1 in
  let s := (@createNode collaborators s (options "data-source") None).1 in
  (@createNode collaborators s (options "filter") None).1.

(** A hit test over three nodes laid out on a row at x = 20, 60 and 100:
    a node is under a rectangle that spans its x coordinate. *)
Definition hitTest (box : Interaction.Box) : list nat :=
  List.filter (λ n, bool_decide (Interaction.box_left box ≤ 20 + 40 * Z.of_nat n
                                 ≤ Interaction.box_left box + Interaction.box_width box))
              [0%nat; 1%nat; 2%nat].


(** A loader (node 0, output port 1), a filter (node 2, input port 3,
    output port 4) and a chart (node 5, input port 6), connected in a row;
    the filter sits on layer 1 at (120, 40), the chart on layer 2. *)
Definition pipeline : DataflowState :=
  let s := @emptyState collaborators in
  let s := (@createNode collaborators s (options "data-source") None).1 in
  let s := (@createNode collaborators s (options "filter") None).1 in
  let s := (@createNode collaborators s (options "chart") None).1 in
  let s := node_deserialize 2%nat (mkNodeSave "node-2" "filter" 1 120 40) s in
  let s := node_deserialize 5%nat (mkNodeSave "node-3" "chart" 2 240 40) s in
  let s := (@createEdge collaborators s 1%nat 3%nat false None).1 in
  (@createEdge collaborators s 4%nat 6%nat false None).1.

End Demo.
(** * Properties *)

(** ** Small facts about the state *)

Section StateFacts.

Lemma getPort_emit e s p : getPort (emit e s) p = getPort s p.
Proof. reflexivity. Qed.

Lemma getPort_set_nextRef n s p : getPort (set_nextRef n s) p = getPort s p.
Proof. reflexivity. Qed.

Lemma getPort_set_nodes f s p : getPort (set_nodes f s) p = getPort s p.
Proof. reflexivity. Qed.

Lemma getPort_updPort_eq p f s : getPort (updPort p f s) p = f (getPort s p).
Proof. unfold getPort, updPort; simpl. by rewrite lookup_total_insert_eq. Qed.

Lemma getPort_updPort_ne p q f s : p ≠ q → getPort (updPort p f s) q = getPort s q.
Proof. intros. unfold getPort, updPort; simpl. by rewrite lookup_total_insert_ne. Qed.

Lemma getPort_updPort p q f s :
  getPort (updPort p f s) q = if decide (p = q) then f (getPort s q) else getPort s q.
Proof.
  case_decide; [subst; apply getPort_updPort_eq | by apply getPort_updPort_ne].
Qed.

Lemma isInput_updPort_edges p q f s :
  isInput (getPort (updPort p (with_port_edges f) s) q) = isInput (getPort s q).
Proof. rewrite getPort_updPort. by case_decide. Qed.

Lemma port_node_updPort_edges p q f s :
  port_node (getPort (updPort p (with_port_edges f) s) q) = port_node (getPort s q).
Proof. rewrite getPort_updPort. by case_decide. Qed.

Lemma port_id_updPort_edges p q f s :
  port_id (getPort (updPort p (with_port_edges f) s) q) = port_id (getPort s q).
Proof. rewrite getPort_updPort. by case_decide. Qed.

End StateFacts.

(** ** Membership in the lists the operations build *)

Section Lists.
Context {A B : Type}.

Lemma elem_of_concat (x : A) (ls : list (list A)) :
  x ∈ concat ls ↔ ∃ l, x ∈ l ∧ l ∈ ls.
Proof.
  rewrite list_elem_of_In, in_concat. split.
  - intros (l & Hl & Hx). exists l. by rewrite !list_elem_of_In.
  - intros (l & Hx & Hl). exists l. by rewrite <- !list_elem_of_In.
Qed.

Lemma elem_of_map (f : A → B) (l : list A) (y : B) :
  y ∈ map f l ↔ ∃ x, y = f x ∧ x ∈ l.
Proof.
  rewrite list_elem_of_In, in_map_iff. split.
  - intros (x & <- & Hx). exists x. by rewrite list_elem_of_In.
  - intros (x & -> & Hx). exists x. by rewrite <- list_elem_of_In.
Qed.

Lemma elem_of_filter_bool (f : A → bool) (l : list A) (x : A) :
  x ∈ List.filter f l ↔ x ∈ l ∧ f x = true.
Proof. by rewrite !list_elem_of_In, List.filter_In. Qed.

Lemma filter_twice (f g : A → bool) (l : list A) :
  List.filter f (List.filter g l) = List.filter (λ x, g x && f x) l.
Proof.
  induction l as [|x l IH]; [done|]. simpl.
  destruct (g x); simpl; [destruct (f x)|]; by rewrite IH.
Qed.

Lemma filter_bool_nil (f : A → bool) (l : list A) :
  (∀ x, x ∈ l → f x = false) → List.filter f l = [].
Proof.
  induction l as [|x l IH]; [done|]. intros Hf. simpl.
  rewrite (Hf x) by left. apply IH. intros y Hy. apply Hf. by right.
Qed.

End Lists.

Section MutatorProperties.
Context `{Collaborators}.

(** C3: when the connectivity check fails, [createEdge] returns null, makes
    no edge (no identity is allocated, no port and no node changes, the
    list of nodes is the same), triggers no propagation, and its only
    effect is the warning that carries the reason of the check, made
    unless [options.disableMessage] is set. *)
Theorem createEdge_rejected state sourcePort targetPort propagate options :
  connectable (checkEdgeConnectivity state sourcePort targetPort) = false →
  let result := createEdge state sourcePort targetPort propagate options in
  result.2 = None
  ∧ nodes result.1 = nodes state
  ∧ nodeObjs result.1 = nodeObjs state
  ∧ portObjs result.1 = portObjs state
  ∧ nextRef result.1 = nextRef state
  ∧ port_edges (getPort result.1 sourcePort) = port_edges (getPort state sourcePort)
  ∧ port_edges (getPort result.1 targetPort) = port_edges (getPort state targetPort)
  ∧ effects result.1 =
      effects state ++
      (if messageDisabled options then []
       else [ShowSystemMessage
               (reason (checkEdgeConnectivity state sourcePort targetPort)) "warn"]).
Proof.
  intros Hc result. subst result. unfold createEdge. rewrite Hc. simpl.
  destruct (messageDisabled options); simpl; rewrite ?app_nil_r; done.
Qed.

(** C10: [createEdgeToNode] hands [createEdge] no options.  With
    [disableMessage] set, no message is shown when the node has no port to
    connect; when a port is found, the call is [createEdge] without options,
    and if the check of [createEdge] then fails the warning is still shown. *)
Theorem createEdgeToNode_drops_options state sourcePort targetNode propagate :
  match findConnectablePort state targetNode sourcePort with
  | None =>
    createEdgeToNode state sourcePort targetNode propagate (Some (mkEdgeOptions true))
    = (state, None)
  | Some targetPort =>
    (∀ options,
       createEdgeToNode state sourcePort targetNode propagate options
       = createEdge state sourcePort targetPort propagate None)
    ∧ (connectable (checkEdgeConnectivity state sourcePort targetPort) = false →
       createEdgeToNode state sourcePort targetNode propagate (Some (mkEdgeOptions true))
       = (emit (ShowSystemMessage
                  (reason (checkEdgeConnectivity state sourcePort targetPort)) "warn")
               state, None))
  end.
Proof.
  unfold createEdgeToNode.
  destruct (findConnectablePort state targetNode sourcePort) as [targetPort|]; [|done].
  split; [done|]. intros Hc. unfold createEdge. by rewrite Hc.
Qed.

End MutatorProperties.

(** The found port is rejected by the check: the warning is shown although
    the caller asked for silence. *)
Lemma createEdgeToNode_drops_options_witness :
  @createEdgeToNode Demo.strict (Demo.twoNodes Demo.strict) 1%nat 2%nat false
                    (Some (mkEdgeOptions true))
  = (emit (ShowSystemMessage "source/target type tags are incompatible" "warn")
          (Demo.twoNodes Demo.strict), None).
Proof.
  pose proof (@createEdgeToNode_drops_options Demo.strict
                (Demo.twoNodes Demo.strict) 1%nat 2%nat false) as Hthm.
  change (@findConnectablePort Demo.strict (Demo.twoNodes Demo.strict) 2%nat 1%nat)
    with (Some 3%nat) in Hthm.
  destruct Hthm as [_ Hwarn]. apply Hwarn. reflexivity.
Defined.

Lemma createEdge_rejected_witness :
  (@createEdge Demo.strict (Demo.twoNodes Demo.strict) 1%nat 3%nat true None).2 = None
  ∧ effects (@createEdge Demo.strict (Demo.twoNodes Demo.strict) 1%nat 3%nat true None).1
    = effects (Demo.twoNodes Demo.strict)
      ++ [ShowSystemMessage "source/target type tags are incompatible" "warn"].
Proof.
  pose proof (@createEdge_rejected Demo.strict (Demo.twoNodes Demo.strict)
                1%nat 3%nat true None eq_refl) as Hthm.
  split; [apply Hthm | apply (proj2 (proj2 (proj2 (proj2 (proj2 (proj2 (proj2 Hthm)))))))].
Defined.

Section EdgeDirection.
Context `{Collaborators}.

Lemma createEdge_accepted state sourcePort targetPort propagate options :
  connectable (checkEdgeConnectivity state sourcePort targetPort) = true →
  let srcIsInput := isInput (getPort state sourcePort) in
  let edge := mkEdge (nextRef state)
                     (if srcIsInput then targetPort else sourcePort)
                     (if srcIsInput then sourcePort else targetPort) in
  let linked :=
    addIncidentEdge targetPort edge
      (addIncidentEdge sourcePort edge (set_nextRef (S (nextRef state)) state)) in
  createEdge state sourcePort targetPort propagate options
  = ((if propagate
      then emit (PropagateNode (port_node (getPort state (target edge))))
                (emit (CanvasAddEdge edge) linked)
      else emit (CanvasAddEdge edge) linked),
     Some edge).
Proof.
  intros Hc. unfold createEdge. rewrite Hc. simpl.
  destruct (isInput (getPort state sourcePort)), propagate; simpl;
    rewrite ?getPort_emit; unfold addIncidentEdge;
    rewrite ?port_node_updPort_edges; reflexivity.
Qed.

Lemma createEdge_Some_inv state sourcePort targetPort propagate options state' edge :
  createEdge state sourcePort targetPort propagate options = (state', Some edge) →
  connectable (checkEdgeConnectivity state sourcePort targetPort) = true.
Proof.
  unfold createEdge.
  destruct (connectable (checkEdgeConnectivity state sourcePort targetPort)); [done|].
  simpl. intros [=].
Qed.



End EdgeDirection.




Module InteractionProperties.
Import Interaction.

Lemma keyReleased_both m :
  let m' := keyReleased (Keys ["shift"; "ctrl"]) m in
  shifted m' = false ∧ ctrled m' = false ∧ visualizationBlocking m' = true
  ∧ mouseMode m' = mouseMode m
  ∧ nodesSelected m' = nodesSelected m
  ∧ calls m' = calls m ++ [CssCursor ""; CssCursor ""].
Proof. simpl. unfold keyReleased1. simpl. by rewrite <- app_assoc. Qed.

Lemma mouseupHandler_mode para m : mouseMode (mouseupHandler para m) = "none".
Proof. reflexivity. Qed.

(** C9: after the mouse-up handler, whatever the mode, the type of the
    event target and the modifier flags were, both modifiers are released
    and the mode is [none]. *)
Theorem mouseupHandler_releases para m :
  shifted (mouseupHandler para m) = false
  ∧ ctrled (mouseupHandler para m) = false
  ∧ mouseMode (mouseupHandler para m) = "none".
Proof.
  unfold mouseupHandler. cbv zeta.
  match goal with
  | |- context [keyReleased (Keys ["shift"; "ctrl"]) ?x] => generalize x
  end.
  intros x. destruct (keyReleased_both x) as (Hs & Hc & _).
  split_and!; [exact Hs | exact Hc | reflexivity].
Qed.

Lemma mouseupHandler_selectbox para m :
  mouseMode m = "selectbox" →
  para_type para = "background" →
  let moved := bool_decide (pageX (para_event para) ≠ (mousedownPos m).1) in
  newCalls m (mouseupHandler para m)
  = [SelectboxHide]
    ++ (if moved
        then if ctrled m then []
             else if shifted m then [AddHoveredToSelection]
                  else [ClearNodeSelection; AddHoveredToSelection]
        else [ClearNodeSelection])
    ++ [CssCursor ""; CssCursor ""; ClearEdgeHover]
  ∧ nodesSelected (mouseupHandler para m)
    = (if moved
       then if ctrled m then nodesSelected m
            else if shifted m then nodesSelected m ∪ nodesHovered m
                 else ∅ ∪ nodesHovered m
       else ∅).
Proof.
  intros Hmode Htype moved. unfold newCalls, mouseupHandler. cbv zeta.
  rewrite Htype. simpl. rewrite Hmode. simpl.
  replace (bool_decide
             (Z.abs (pageX (para_event para) - (mousedownPos m).1)
              + Z.abs ((mousedownPos m).2 - (mousedownPos m).2) > 0))
    with moved.
  2:{ subst moved. apply bool_decide_ext. lia. }
  destruct moved; simpl.
  - destruct (ctrled m); simpl.
    + unfold keyReleased1; simpl. rewrite <- !app_assoc. simpl.
      by rewrite drop_app_length.
    + destruct (shifted m); simpl; unfold keyReleased1; simpl;
        rewrite <- !app_assoc; simpl; by rewrite drop_app_length.
  - unfold keyReleased1; simpl. rewrite <- !app_assoc. simpl.
    by rewrite drop_app_length.
Qed.

(** C8, as it is stated, fails: with the button pressed and released at
    the same place the gesture is an empty click, although the pointer
    position did not change in any axis. *)
Lemma empty_click_without_movement :
  ¬ (∀ para m,
       mouseMode m = "selectbox" → para_type para = "background" →
       (treatedAsEmptyClick para m ↔ pointerMoved para m)).
Proof.
  intros Hclaim.
  set (ev := mkEvent 10 10 0 (0, 0)).
  set (m := mousedownHandler (mkPara "background" ev None None) initialize).
  destruct (Hclaim (mkPara "background" ev None None) m eq_refl eq_refl) as [Hmoved _].
  destruct Hmoved as [Hx | Hy]; [reflexivity | apply Hx | apply Hy]; reflexivity.
Qed.

(** C8, amended: in mode [selectbox], a mouse-up on the background at the
    position of the mouse-down is an empty click and clears the selection;
    a mouse-up at another horizontal position is not an empty click, and
    if moreover [ctrled] is false the selection becomes the hovered set
    when [shifted] is false and its union with the hovered set when
    [shifted] is true. *)
Theorem mouseupHandler_selectbox_click para m :
  mouseMode m = "selectbox" →
  para_type para = "background" →
  ((pageX (para_event para), pageY (para_event para)) = mousedownPos m →
     treatedAsEmptyClick para m ∧ nodesSelected (mouseupHandler para m) = ∅)
  ∧ (pageX (para_event para) ≠ (mousedownPos m).1 →
     ¬ treatedAsEmptyClick para m
     ∧ (ctrled m = false →
        nodesSelected (mouseupHandler para m)
        = if shifted m then nodesSelected m ∪ nodesHovered m else nodesHovered m)).
Proof.
  intros Hmode Htype.
  destruct (mouseupHandler_selectbox para m Hmode Htype) as [Hcalls Hsel].
  unfold treatedAsEmptyClick. rewrite Hcalls, Hsel. clear Hcalls Hsel.
  split.
  - intros Hpos. rewrite bool_decide_eq_false_2; [done|].
    rewrite <- Hpos. simpl. tauto.
  - intros Hx. rewrite bool_decide_eq_true_2 by done.
    split.
    + destruct (ctrled m), (shifted m); simpl; discriminate.
    + intros ->. destruct (shifted m); [done|]. by rewrite (left_id_L ∅ (∪)).
Qed.

(** A press at (10,10) and a release at (50,50) without modifiers, with
    node 7 selected before and nodes 1 and 2 under the rectangle. *)
Lemma mouseupHandler_selectbox_click_witness :
  let m := set_dataflow {[7%nat]} {[1%nat; 2%nat]}
             (mousedownHandler (mkPara "background" (mkEvent 10 10 0 (0, 0)) None None)
                               initialize) in
  nodesSelected (mouseupHandler (mkPara "background" (mkEvent 50 50 0 (0, 0)) None None) m)
  = {[1%nat; 2%nat]}.
Proof.
  intros m.
  refine (proj2 (proj2 (mouseupHandler_selectbox_click
                          (mkPara "background" (mkEvent 50 50 0 (0, 0)) None None) m
                          eq_refl eq_refl) _) eq_refl).
  simpl. lia.
Defined.

End InteractionProperties.

Section InsertNodeOnEdge.
Context `{Collaborators}.

Lemma effects_removeEdge state edge :
  effects (removeEdge state edge false) = effects state ++ [CanvasRemoveEdge edge].
Proof. reflexivity. Qed.

Lemma getPort_removeEdge state edge propagate p :
  getPort (removeEdge state edge propagate) p
  = (if decide (target edge = p)
     then with_port_edges (List.filter (λ e', negb (same_edge edge e'))) else id)
      ((if decide (source edge = p)
        then with_port_edges (List.filter (λ e', negb (same_edge edge e'))) else id)
         (getPort state p)).
Proof.
  unfold removeEdge, removeIncidentEdge.
  destruct propagate; rewrite ?getPort_emit, !getPort_updPort;
    repeat case_decide; reflexivity.
Qed.

Lemma propagations_app es es' :
  propagations (es ++ es') = propagations es ++ propagations es'.
Proof. unfold propagations. apply List.filter_app. Qed.




End InsertNodeOnEdge.


Section RemoveNode.
Context `{Collaborators}.

Lemma removeEdges_cons state edge edges :
  removeEdges state (edge :: edges) = removeEdges (removeEdge state edge false) edges.
Proof. reflexivity. Qed.

Lemma nodes_removeEdges state edges : nodes (removeEdges state edges) = nodes state.
Proof. revert state. induction edges as [|e es IH]; intros; [done|]. by rewrite removeEdges_cons, IH. Qed.

Lemma nodeObjs_removeEdges state edges :
  nodeObjs (removeEdges state edges) = nodeObjs state.
Proof. revert state. induction edges as [|e es IH]; intros; [done|]. by rewrite removeEdges_cons, IH. Qed.

Lemma effects_removeEdges state edges :
  effects (removeEdges state edges) = effects state ++ map CanvasRemoveEdge edges.
Proof.
  revert state. induction edges as [|e es IH]; intros.
  - simpl. by rewrite app_nil_r.
  - rewrite removeEdges_cons, IH, effects_removeEdge, <- app_assoc. reflexivity.
Qed.

(** After a list of edges is removed, a port keeps the edges that none of
    the removals detached from it; nothing else of the port changes. *)
Lemma getPort_removeEdges state edges p :
  getPort (removeEdges state edges) p
  = with_port_edges (List.filter (λ e', negb (detached edges p e'))) (getPort state p).
Proof.
  revert state. induction edges as [|e es IH]; intros state.
  - simpl. unfold with_port_edges. rewrite filter_true. by destruct (getPort state p).
  - rewrite removeEdges_cons, IH, getPort_removeEdge.
    destruct (getPort state p) as [pid pn pin pm pt pes].
    unfold with_port_edges.
    repeat case_decide; simpl; f_equal; rewrite ?filter_twice;
      apply filter_ext; intros e'; simpl;
      repeat case_bool_decide; try congruence; simpl;
      destruct (same_edge e e'), (detached es p e'); reflexivity.
Qed.

Lemma port_node_removeEdges state edges p :
  port_node (getPort (removeEdges state edges) p) = port_node (getPort state p).
Proof. by rewrite getPort_removeEdges. Qed.

Lemma elem_of_getAllEdges state node e :
  e ∈ getAllEdges state node
  ↔ ∃ p, p ∈ portsOf state node ∧ e ∈ port_edges (getPort state p).
Proof.
  unfold getAllEdges, port_getAllEdges, portsOf.
  rewrite elem_of_concat. split.
  - intros (l & He & Hl). apply elem_of_map in Hl as (p & -> & Hp). eauto.
  - intros (p & Hp & He). eexists. split; [exact He|].
    apply elem_of_map. eauto.
Qed.

Lemma elem_of_diagramPorts s p :
  p ∈ diagramPorts s ↔ ∃ n, n ∈ nodes s ∧ p ∈ portsOf s n.
Proof.
  unfold diagramPorts. rewrite elem_of_concat. split.
  - intros (l & Hp & Hl). apply elem_of_map in Hl as (n & -> & Hn). eauto.
  - intros (n & Hn & Hp). eexists. split; [exact Hp|].
    apply elem_of_map. eauto.
Qed.

Lemma elem_of_diagramEdges s e :
  e ∈ diagramEdges s
  ↔ ∃ n p, n ∈ nodes s ∧ p ∈ portsOf s n ∧ e ∈ port_edges (getPort s p).
Proof.
  unfold diagramEdges, port_getAllEdges. rewrite elem_of_concat. split.
  - intros (l & He & Hl). apply elem_of_map in Hl as (p & -> & Hp).
    apply elem_of_diagramPorts in Hp as (n & Hn & Hp). eauto.
  - intros (n & p & Hn & Hp & He). eexists. split; [exact He|].
    apply elem_of_map. eexists. split; [done|].
    apply elem_of_diagramPorts. eauto.
Qed.

Lemma portsOwned_elim s n p :
  portsOwned s → n ∈ nodes s → p ∈ portsOf s n → port_node (getPort s p) = n.
Proof.
  unfold portsOwned. rewrite Forall_forall. intros Hown Hn Hp.
  specialize (Hown n Hn). rewrite Forall_forall in Hown. by apply Hown.
Qed.

Lemma edgesLinked_elim s n p e :
  edgesLinked s → n ∈ nodes s → p ∈ portsOf s n → e ∈ port_edges (getPort s p) →
  edgeLinked s p e.
Proof.
  unfold edgesLinked. rewrite Forall_forall. intros Hl Hn Hp He.
  assert (Hp' : p ∈ diagramPorts s) by (apply elem_of_diagramPorts; eauto).
  specialize (Hl p Hp'). rewrite Forall_forall in Hl. by apply Hl.
Qed.

Lemma elem_of_pull x y l : x ∈ pull y l ↔ x ∈ l ∧ x ≠ y.
Proof.
  unfold pull. rewrite elem_of_filter_bool.
  rewrite negb_true_iff, bool_decide_eq_false. tauto.
Qed.

Lemma detached_self es p e :
  e ∈ es → (source e = p ∨ target e = p) → detached es p e = true.
Proof.
  intros He Hp. unfold detached. apply existsb_exists. exists e.
  split; [by apply list_elem_of_In|].
  apply andb_true_iff. split.
  - apply orb_true_iff. destruct Hp; [left | right]; by apply bool_decide_eq_true.
  - unfold same_edge. by apply bool_decide_eq_true.
Qed.

(** C2: in a diagram whose nodes own their ports and whose edges are
    linked to both their ports, [removeNode] of a node of the diagram
    returns the edges incident to the node (the edges of the diagram that
    reference it), takes the node out of the diagram, and leaves no edge
    that references the node at any port of the diagram, nor any edge at
    the ports of the node.  Its effects are, in this order, the removal of
    each incident edge, then if [propagate] is set the recomputation of the
    output neighbors the node had before any edge was removed, then the
    removal of the node. *)
Theorem removeNode_leaves_no_edge state node propagate :
  portsOwned state →
  edgesLinked state →
  node ∈ nodes state →
  let result := removeNode state node propagate in
  result.2 = getAllEdges state node
  ∧ (∀ e, e ∈ diagramEdges state → (e ∈ result.2 ↔ references state e node))
  ∧ nodes result.1 = pull node (nodes state)
  ∧ (node ∉ nodes result.1)
  ∧ (∀ e, e ∈ diagramEdges result.1 → ¬ references result.1 e node)
  ∧ (∀ p, p ∈ portsOf state node → port_edges (getPort result.1 p) = [])
  ∧ effects result.1
    = effects state
      ++ map CanvasRemoveEdge (getAllEdges state node)
      ++ (if propagate then [PropagateNodes (getOutputNodes state node)] else [])
      ++ [CanvasRemoveNode node].
Proof.
  intros Hown Hlinked Hnode result.
  set (removed := getAllEdges state node).
  assert (Hport : ∀ p, getPort result.1 p
            = with_port_edges (List.filter (λ e', negb (detached removed p e')))
                              (getPort state p)).
  { intros p. subst result. unfold removeNode. simpl.
    destruct propagate; simpl; rewrite ?getPort_emit, ?getPort_set_nodes, ?getPort_emit;
      apply getPort_removeEdges. }
  assert (Hobjs : nodeObjs result.1 = nodeObjs state).
  { subst result. unfold removeNode. simpl.
    destruct propagate; simpl; apply nodeObjs_removeEdges. }
  assert (Hnodes : nodes result.1 = pull node (nodes state)).
  { subst result. unfold removeNode. simpl.
    destruct propagate; simpl; by rewrite nodes_removeEdges. }
  assert (Hports : ∀ n, portsOf result.1 n = portsOf state n).
  { intros n. unfold portsOf, getNode. by rewrite Hobjs. }
  assert (Hrefs : ∀ e, e ∈ diagramEdges state →
            (e ∈ removed ↔ references state e node)).
  { intros e He. apply elem_of_diagramEdges in He as (n & p & Hn & Hp & He).
    destruct (edgesLinked_elim _ _ _ _ Hlinked Hn Hp He) as (_ & Hs & Ht & Hes & Het).
    subst removed. rewrite elem_of_getAllEdges. split.
    - intros (q & Hq & Heq).
      destruct (edgesLinked_elim _ _ _ _ Hlinked Hnode Hq Heq) as (Hends & _).
      pose proof (portsOwned_elim _ _ _ Hown Hnode Hq) as Hqn.
      destruct Hends as [<- | <-]; [by left | by right].
    - intros [Hr | Hr]; rewrite Hr in *; eauto. }
  split_and!.
  - reflexivity.
  - exact Hrefs.
  - exact Hnodes.
  - rewrite Hnodes, elem_of_pull. tauto.
  - intros e He Href.
    apply elem_of_diagramEdges in He as (n & p & Hn & Hp & He).
    rewrite Hnodes, elem_of_pull in Hn. destruct Hn as [Hn Hne].
    rewrite Hports in Hp. rewrite Hport in He. simpl in He.
    apply elem_of_filter_bool in He as [He Hkept].
    assert (Href' : references state e node).
    { unfold references in *. by rewrite !Hport in Href. }
    assert (Hin : e ∈ removed).
    { apply Hrefs; [|done]. apply elem_of_diagramEdges. eauto. }
    destruct (edgesLinked_elim _ _ _ _ Hlinked Hn Hp He) as (Hends & _).
    rewrite (detached_self removed p e Hin Hends) in Hkept. discriminate.
  - intros p Hp. rewrite Hport. simpl.
    apply filter_bool_nil. intros e He.
    apply negb_false_iff. apply detached_self.
    + subst removed. apply elem_of_getAllEdges. eauto.
    + by destruct (edgesLinked_elim _ _ _ _ Hlinked Hnode Hp He) as (Hends & _).
  - subst result removed. unfold removeNode. simpl.
    destruct propagate; simpl; rewrite effects_removeEdges, <- ?app_assoc; reflexivity.
Qed.

End RemoveNode.

(** The first loader of the demo diagram, connected to the chart, is
    removed with propagation. *)
Lemma removeNode_leaves_no_edge_witness :
  let result := removeNode Demo.connected 0%nat true in
  result.2 = [mkEdge 4 1 3]
  ∧ nodes result.1 = [2%nat; 5%nat; 7%nat]
  ∧ (∀ e, e ∈ diagramEdges result.1 → ¬ references result.1 e 0%nat)
  ∧ effects result.1
    = effects Demo.connected
      ++ [CanvasRemoveEdge (mkEdge 4 1 3); PropagateNodes [2%nat]; CanvasRemoveNode 0].
Proof.
  assert (Hown : portsOwned Demo.connected)
    by (apply (bool_decide_unpack _); vm_compute; exact I).
  assert (Hlinked : edgesLinked Demo.connected)
    by (apply (bool_decide_unpack _); vm_compute; exact I).
  assert (Hnode : 0%nat ∈ nodes Demo.connected)
    by (apply (bool_decide_unpack _); vm_compute; exact I).
  destruct (removeNode_leaves_no_edge Demo.connected 0%nat true Hown Hlinked Hnode)
    as (Hret & _ & Hnodes & _ & Hrefs & _ & Heff).
  split_and!; [exact Hret | exact Hnodes | exact Hrefs | exact Heff].
Defined.

Section RemoveSelectedNodes.

Lemma elem_of_set_add x y l : x ∈ set_add y l ↔ x ∈ l ∨ x = y.
Proof.
  unfold set_add. case_bool_decide.
  - split; [by left | intros [?| ->]; done].
  - rewrite elem_of_app, list_elem_of_singleton. tauto.
Qed.

Lemma NoDup_set_add y l : NoDup l → NoDup (set_add y l).
Proof.
  unfold set_add. case_bool_decide; [done|]. intros Hl.
  apply NoDup_app. split; [done|]. split; [|apply NoDup_singleton].
  intros x Hx Hy. apply list_elem_of_singleton in Hy. by subst.
Qed.

Lemma elem_of_addUnselected selected affected outs x :
  x ∈ addUnselected selected affected outs
  ↔ x ∈ affected ∨ (x ∈ outs ∧ x ∉ selected).
Proof.
  unfold addUnselected. revert affected.
  induction outs as [|o outs IH]; intros affected; simpl.
  - split; [by left | intros [?|[Hx _]]; [done | by apply elem_of_nil in Hx]].
  - rewrite IH. case_bool_decide as Ho.
    + rewrite elem_of_set_add, elem_of_cons. split.
      * intros [[?| ->]|[? ?]]; eauto.
      * intros [?|[[->|?] ?]]; eauto.
    + rewrite elem_of_cons. split.
      * intros [?|[? ?]]; eauto.
      * intros [?|[[->|?] Hx]]; eauto. contradiction.
Qed.

Lemma NoDup_addUnselected selected affected outs :
  NoDup affected → NoDup (addUnselected selected affected outs).
Proof.
  unfold addUnselected. revert affected.
  induction outs as [|o outs IH]; intros affected Hnd; simpl; [done|].
  apply IH. case_bool_decide; [by apply NoDup_set_add | done].
Qed.

Lemma elem_of_affected_from state selected acc todo x :
  x ∈ foldl (λ affected node,
               addUnselected selected affected (getOutputNodes state node)) acc todo
  ↔ x ∈ acc ∨ (∃ n, n ∈ todo ∧ x ∈ getOutputNodes state n ∧ x ∉ selected).
Proof.
  revert acc. induction todo as [|n todo IH]; intros acc; simpl.
  - split; [by left | intros [?|(n & Hn & _)]; [done | by apply elem_of_nil in Hn]].
  - rewrite IH, elem_of_addUnselected. split.
    + intros [[?|[? ?]]|(n' & ? & ? & ?)]; eauto.
      * right. exists n. split; [left | done].
      * right. exists n'. split; [by right | done].
    + intros [?|(n' & Hn' & ? & ?)]; eauto.
      apply elem_of_cons in Hn' as [->|?]; eauto.
Qed.

Lemma elem_of_affectedOutputNodes state selected x :
  x ∈ affectedOutputNodes state selected
  ↔ ∃ n, n ∈ selected ∧ x ∈ getOutputNodes state n ∧ x ∉ selected.
Proof.
  unfold affectedOutputNodes.
  rewrite (elem_of_affected_from state selected [] selected x). split.
  - intros [Hx|?]; [by apply elem_of_nil in Hx | done].
  - by right.
Qed.

Lemma NoDup_affectedOutputNodes state selected :
  NoDup (affectedOutputNodes state selected).
Proof.
  unfold affectedOutputNodes.
  assert (Hgen : ∀ todo acc, NoDup acc →
            NoDup (foldl (λ affected node,
                            addUnselected selected affected (getOutputNodes state node))
                         acc todo)).
  { induction todo as [|n todo IH]; intros acc Hacc; simpl; [done|].
    apply IH. by apply NoDup_addUnselected. }
  apply (Hgen selected []). constructor.
Qed.

Lemma removeNode_false state node :
  removeNode state node false
  = (emit (CanvasRemoveNode node)
          (set_nodes (pull node) (removeEdges state (getAllEdges state node))),
     getAllEdges state node).
Proof. reflexivity. Qed.

Lemma removeNodes_cons state node todo acc :
  foldl (λ '(state, removedEdges) node,
           let '(state, removed) := removeNode state node false in
           (state, removedEdges ++ removed))
        (state, acc) (node :: todo)
  = foldl (λ '(state, removedEdges) node,
           let '(state, removed) := removeNode state node false in
           (state, removedEdges ++ removed))
        ((removeNode state node false).1, acc ++ (removeNode state node false).2) todo.
Proof. reflexivity. Qed.

Lemma removeNodes_state state todo acc :
  let result :=
    foldl (λ '(state, removedEdges) node,
             let '(state, removed) := removeNode state node false in
             (state, removedEdges ++ removed))
          (state, acc) todo in
  (∀ x, x ∈ nodes result.1 ↔ x ∈ nodes state ∧ x ∉ todo)
  ∧ propagations (effects result.1) = propagations (effects state)
  ∧ nodeObjs result.1 = nodeObjs state.
Proof.
  revert state acc. induction todo as [|n todo IH]; intros state acc.
  - simpl. split_and!; [|done..]. intros x. rewrite elem_of_nil. tauto.
  - rewrite removeNodes_cons. cbv zeta.
    destruct (IH (removeNode state n false).1 (acc ++ (removeNode state n false).2))
      as (Hnodes & Hprop & Hobjs).
    split_and!.
    + intros x. rewrite Hnodes. rewrite removeNode_false. simpl.
      rewrite nodes_removeEdges, elem_of_pull, elem_of_cons. tauto.
    + rewrite Hprop. rewrite removeNode_false. simpl.
      rewrite effects_removeEdges, !propagations_app. simpl.
      rewrite app_nil_r.
      assert (Hnone : ∀ es, propagations (map CanvasRemoveEdge es) = []).
      { induction es; [done|]. simpl. done. }
      by rewrite Hnone, app_nil_r.
    + rewrite Hobjs. rewrite removeNode_false. simpl. apply nodeObjs_removeEdges.
Qed.

(** C5: [removeSelectedNodes] removes the nodes of the diagram that are
    selected, and only them.  It asks for one propagation, as its last
    effect: that of the output neighbors of the removed nodes that are not
    among the removed nodes, each once; for a node of the diagram, not
    being removed is not being selected.  When every output neighbor of a
    removed node is itself removed, no node is propagated. *)
Theorem removeSelectedNodes_propagates_frontier state :
  let selected := List.filter (λ node, isSelected (getNode state node)) (nodes state) in
  let affected := affectedOutputNodes state selected in
  let result := removeSelectedNodes state in
  removedNodes result.2 = selected
  ∧ (∀ n, n ∈ removedNodes result.2
          ↔ n ∈ nodes state ∧ isSelected (getNode state n) = true)
  ∧ (∀ n, n ∈ nodes result.1
          ↔ n ∈ nodes state ∧ isSelected (getNode state n) = false)
  ∧ (∃ before, effects result.1 = before ++ [PropagateNodes affected]
               ∧ propagations before = propagations (effects state))
  ∧ propagations (effects result.1)
    = propagations (effects state) ++ [PropagateNodes affected]
  ∧ NoDup affected
  ∧ (∀ m, m ∈ affected
          ↔ ∃ n, n ∈ removedNodes result.2 ∧ m ∈ getOutputNodes state n
                 ∧ m ∉ removedNodes result.2)
  ∧ (∀ m, m ∈ nodes state →
          (m ∈ affected
           ↔ (∃ n, n ∈ removedNodes result.2 ∧ m ∈ getOutputNodes state n)
             ∧ isSelected (getNode state m) = false))
  ∧ ((∀ n m, n ∈ removedNodes result.2 → m ∈ getOutputNodes state n →
             m ∈ removedNodes result.2) →
     affected = []).
Proof.
  intros selected affected result.
  assert (Hsel : ∀ n, n ∈ selected
            ↔ n ∈ nodes state ∧ isSelected (getNode state n) = true).
  { intros n. subst selected.
    apply (elem_of_filter_bool (λ node, isSelected (getNode state node))). }
  assert (Hres : result
      = (emit (PropagateNodes affected) (removeNodes state selected).1,
         mkRemoved selected (removeNodes state selected).2)).
  { subst result. unfold removeSelectedNodes. fold selected. fold affected.
    by destruct (removeNodes state selected). }
  destruct (removeNodes_state state selected []) as (Hnodes & Hprop & _).
  fold (removeNodes state selected) in Hnodes, Hprop.
  assert (Haff : ∀ m, m ∈ affected
            ↔ ∃ n, n ∈ selected ∧ m ∈ getOutputNodes state n ∧ m ∉ selected).
  { intros m. apply elem_of_affectedOutputNodes. }
  rewrite Hres. simpl. split_and!.
  - reflexivity.
  - exact Hsel.
  - intros n. rewrite Hnodes, Hsel. split.
    + intros [Hn Hnot]. split; [done|].
      destruct (isSelected (getNode state n)); [|done]. by destruct Hnot.
    + intros [Hn Hf]. split; [done|]. intros [_ Ht]. congruence.
  - eexists. split; [reflexivity | exact Hprop].
  - rewrite propagations_app, Hprop. reflexivity.
  - apply NoDup_affectedOutputNodes.
  - exact Haff.
  - intros m Hm. rewrite Haff. split.
    + intros (n & Hn & Hout & Hnot). split; [eauto|].
      destruct (isSelected (getNode state m)) eqn:Hs; [|done].
      destruct Hnot. by apply Hsel.
    + intros [(n & Hn & Hout) Hf]. exists n. split_and!; [done..|].
      rewrite Hsel. intros [_ Ht]. congruence.
  - intros Hclosed. destruct affected as [|m l]; [done|].
    destruct (proj1 (Haff m)) as (n & Hn & Hout & Hnot); [left|].
    destruct Hnot. eauto.
Qed.

End RemoveSelectedNodes.

(** The loader and the chart it feeds are selected and removed together:
    each is the only neighbor of the other, and no node is propagated. *)
Lemma removeSelectedNodes_propagates_frontier_witness :
  let state := node_select 2%nat (node_select 0%nat Demo.connected) in
  removedNodes (removeSelectedNodes state).2 = [0%nat; 2%nat]
  ∧ nodes (removeSelectedNodes state).1 = [5%nat; 7%nat]
  ∧ affectedOutputNodes state [0%nat; 2%nat] = [].
Proof.
  intros state.
  assert (Hsel : List.filter (λ node, isSelected (getNode state node)) (nodes state)
                 = [0%nat; 2%nat]) by (vm_compute; reflexivity).
  assert (Hout0 : getOutputNodes state 0%nat = [2%nat]) by (vm_compute; reflexivity).
  assert (Hout2 : getOutputNodes state 2%nat = []) by (vm_compute; reflexivity).
  assert (Hleft : nodes (removeSelectedNodes state).1 = [5%nat; 7%nat])
    by (vm_compute; reflexivity).
  pose proof (removeSelectedNodes_propagates_frontier state) as Hthm.
  cbv zeta in Hthm. destruct Hthm as (Hrem & _ & _ & _ & _ & _ & _ & _ & Hnone).
  rewrite Hrem, Hsel in Hnone. rewrite Hrem, Hsel.
  clearbody state.
  split; [reflexivity|]. split; [exact Hleft|].
  apply Hnone. intros n m Hn Hm.
  apply elem_of_cons in Hn as [->|Hn].
  - rewrite Hout0 in Hm. apply list_elem_of_singleton in Hm as ->.
    apply elem_of_cons. right. apply elem_of_cons. by left.
  - apply list_elem_of_singleton in Hn as ->.
    rewrite Hout2 in Hm. apply elem_of_nil in Hm. destruct Hm.
Defined.

Section NodeIds.
Context `{Collaborators}.

Global Instance newId_inj : Inj (=) (=) newId.
Proof.
  intros a b Hab. unfold newId in Hab.
  apply String.app_inj in Hab. by apply (inj pretty) in Hab.
Qed.

Lemma assignNodeId_loop_spec fuel id (nodeIds : gset string) :
  (∃ k, (id ≤ k ≤ id + fuel)%nat ∧ (newId k ∉ nodeIds)) →
  ∃ n, assignNodeId_loop fuel id nodeIds = newId n
       ∧ (id ≤ n ≤ id + fuel)%nat
       ∧ (newId n ∉ nodeIds)
       ∧ ∀ k, (id ≤ k < n)%nat → newId k ∈ nodeIds.
Proof.
  revert id. induction fuel as [|fuel IH]; intros id (k & Hk & Hfree);
    cbn [assignNodeId_loop].
  - assert (k = id) as -> by lia.
    exists id. split_and!; [by destruct (bool_decide _) | lia | lia | exact Hfree | lia].
  - case_bool_decide as Hid.
    + exists id. split_and!; [done | lia | lia | exact Hid | lia].
    + destruct (IH (S id)) as (n & Hn & Hrange & Hnfree & Hmin).
      { exists k. split; [|done].
        assert (k ≠ id) by (intros ->; contradiction). lia. }
      exists n. split_and!; [done | lia | lia | done |].
      intros j Hj. destruct (decide (j = id)) as [->|].
      * exact Hid.
      * apply Hmin. lia.
Qed.

(** One round per node of the diagram is enough: among as many candidates
    as there are nodes, plus one, some candidate is not taken. *)
Lemma candidate_not_taken (ids : list string) :
  (∃ k, (1 ≤ k ≤ 1 + length ids)%nat ∧ (newId k ∉ ids)).
Proof.
  destruct (decide (Forall (λ k, newId k ∈ ids) (seq 1 (S (length ids)))))
    as [Hall | Hsome].
  - exfalso. rewrite Forall_forall in Hall.
    assert (Hsub : (newId <$> seq 1 (S (length ids))) ⊆+ ids).
    { apply NoDup_submseteq.
      - apply (NoDup_fmap_2 newId), NoDup_seq.
      - intros x Hx. apply list_elem_of_fmap in Hx as (k & -> & Hk). by apply Hall. }
    apply submseteq_length in Hsub. rewrite length_fmap, length_seq in Hsub. lia.
  - apply not_Forall_Exists in Hsome; [|apply _].
    apply Exists_exists in Hsome as (k & Hk & Hfree).
    apply elem_of_seq in Hk. exists k. split; [lia | done].
Qed.

Lemma assignNodeId_spec state :
  ∃ n, assignNodeId state = newId n
       ∧ (1 ≤ n)%nat
       ∧ (newId n ∉ nodeIds state)
       ∧ ∀ k, (1 ≤ k < n)%nat → newId k ∈ nodeIds state.
Proof.
  unfold assignNodeId.
  destruct (assignNodeId_loop_spec (length (nodes state)) 1
              (list_to_set (nodeIds state))) as (n & Hn & Hrange & Hfree & Hmin).
  { destruct (candidate_not_taken (nodeIds state)) as (k & Hk & Hfree).
    exists k. unfold nodeIds in Hk. rewrite length_map in Hk.
    split; [lia|]. by rewrite elem_of_list_to_set. }
  exists n. split_and!; [exact Hn | lia | |].
  - by rewrite elem_of_list_to_set in Hfree.
  - intros k Hk. apply (elem_of_list_to_set (C:=gset string)). apply Hmin. lia.
Qed.

Lemma newPorts_keeps owner input first specs state :
  nodeObjs (newPorts owner input first specs state) = nodeObjs state
  ∧ nodes (newPorts owner input first specs state) = nodes state
  ∧ nextRef (newPorts owner input first specs state) = nextRef state
  ∧ effects (newPorts owner input first specs state) = effects state.
Proof.
  revert first state. induction specs as [|sp specs IH]; intros first state; [done|].
  cbn [newPorts].
  destruct (IH (S first)
              (set_portObjs
                 (insert first
                    (mkPort (spec_id sp) owner input (spec_isMultiple sp)
                            (spec_tag sp) [])) state)) as (-> & -> & -> & ->).
  done.
Qed.

Lemma nodeObjs_newPorts owner input first specs state :
  nodeObjs (newPorts owner input first specs state) = nodeObjs state.
Proof. apply newPorts_keeps. Qed.

Lemma nodes_newPorts owner input first specs state :
  nodes (newPorts owner input first specs state) = nodes state.
Proof. apply newPorts_keeps. Qed.

Lemma nextRef_newPorts owner input first specs state :
  nextRef (newPorts owner input first specs state) = nextRef state.
Proof. apply newPorts_keeps. Qed.

Lemma effects_newPorts owner input first specs state :
  effects (newPorts owner input first specs state) = effects state.
Proof. apply newPorts_keeps. Qed.

Lemma map_ext_elem_of {A B} (f g : A → B) (l : list A) :
  (∀ x, x ∈ l → f x = g x) → map f l = map g l.
Proof.
  intros Hfg. apply map_ext_in. intros x Hx. apply Hfg. by apply list_elem_of_In.
Qed.

(** What [createNode] does to the list of nodes and to their ids. *)
Lemma createNode_ids state options nodeSave :
  allocated state →
  let result := createNode state options nodeSave in
  result.2 = nextRef state
  ∧ nodes result.1 = nodes state ++ [result.2]
  ∧ node_id (getNode result.1 result.2)
    = match nodeSave with Some sv => save_id sv | None => assignNodeId state end
  ∧ nodeIds result.1 = nodeIds state ++ [node_id (getNode result.1 result.2)]
  ∧ allocated result.1.
Proof.
  intros Halloc result.
  set (c := getConstructor (opt_type options)).
  set (r := nextRef state).
  set (o := mkNode (assignNodeId state) (NODE_TYPE c) 0 0 0 false false
              (class_isPropagationSource c) (getNodeDataOnCreate options)
              (seq (S r) (length (class_inputs c)))
              (seq (S r + length (class_inputs c)) (length (class_outputs c)))).
  set (o' := match nodeSave with Some sv => with_saved sv o | None => o end).
  assert (Hshape : ∃ f : Node → Node,
            (∀ x, node_id (f x) = node_id x)
            ∧ result.2 = r
            ∧ nodes result.1 = nodes state ++ [r]
            ∧ nodeObjs result.1 = <[r := f o']> (nodeObjs state)
            ∧ (nextRef state < nextRef result.1)%nat).
  { subst result. unfold createNode. fold c. unfold newNode. fold r. fold o. fold o'.
    cbv zeta.
    destruct (opt_activate options).
    - exists (λ x, with_selected true (with_active true x)). split; [done|].
      case_bool_decide; simpl; unfold getNode; simpl;
        rewrite ?nodes_newPorts, ?nodeObjs_newPorts;
        rewrite ?lookup_total_insert_eq, ?insert_insert_eq;
        (split_and!; [done | done | done | lia]).
    - exists (λ x, x). split; [done|].
      case_bool_decide; simpl; rewrite ?nodes_newPorts, ?nodeObjs_newPorts;
        (split_and!; [done | done | done | lia]). }
  destruct Hshape as (f & Hf & Hr & Hnodes & Hobjs & Hnext).
  assert (Hid : node_id (getNode result.1 result.2) = node_id o').
  { unfold getNode. by rewrite Hr, Hobjs, lookup_total_insert_eq, Hf. }
  split_and!.
  - exact Hr.
  - by rewrite Hr.
  - rewrite Hid. subst o'. by destruct nodeSave.
  - unfold nodeIds at 1. rewrite Hnodes, map_app, Hr. cbn [map]. f_equal.
    apply map_ext_elem_of. intros x Hx. unfold getNode. rewrite Hobjs.
    rewrite lookup_total_insert_ne; [done|].
    unfold allocated in Halloc. rewrite Forall_forall in Halloc.
    specialize (Halloc x Hx). subst r. lia.
  - unfold allocated. rewrite Hnodes, Forall_app. split.
    + unfold allocated in Halloc. eapply Forall_impl; [exact Halloc|].
      intros x Hx. cbv beta in *. lia.
    + constructor; [|constructor]. subst r. lia.
Qed.

Lemma nextRef_removeEdges state edges :
  nextRef (removeEdges state edges) = nextRef state.
Proof.
  revert state. induction edges as [|e es IH]; intros; [done|].
  by rewrite removeEdges_cons, IH.
Qed.

Lemma NoDup_map_filter {A B} (f : A → B) (g : A → bool) (l : list A) :
  NoDup (map f l) → NoDup (map f (List.filter g l)).
Proof.
  induction l as [|x l IH]; [done|]. simpl. rewrite NoDup_cons. intros [Hx Hl].
  destruct (g x); simpl; [|by apply IH].
  apply NoDup_cons. split; [|by apply IH].
  intros Hin. apply Hx. apply elem_of_map in Hin as (y & Hy & Hin).
  apply elem_of_filter_bool in Hin as [Hin _].
  apply elem_of_map. eauto.
Qed.

Lemma removeNode_ids state node propagate :
  allocated state →
  NoDup (nodeIds state) →
  allocated (removeNode state node propagate).1
  ∧ NoDup (nodeIds (removeNode state node propagate).1).
Proof.
  intros Halloc Hnd.
  assert (Hnodes : nodes (removeNode state node propagate).1 = pull node (nodes state)).
  { unfold removeNode. destruct propagate; simpl; by rewrite nodes_removeEdges. }
  assert (Hobjs : nodeObjs (removeNode state node propagate).1 = nodeObjs state).
  { unfold removeNode. destruct propagate; simpl; apply nodeObjs_removeEdges. }
  assert (Hnext : nextRef (removeNode state node propagate).1 = nextRef state).
  { unfold removeNode. destruct propagate; simpl; apply nextRef_removeEdges. }
  split.
  - unfold allocated. rewrite Hnodes, Hnext. unfold allocated in Halloc.
    rewrite Forall_forall in *. intros x Hx. apply elem_of_pull in Hx as [Hx _].
    by apply Halloc.
  - unfold nodeIds, getNode. rewrite Hnodes, Hobjs. unfold pull.
    by apply NoDup_map_filter.
Qed.

Lemma removeNode_allocated state node propagate :
  allocated state → allocated (removeNode state node propagate).1.
Proof.
  intros Halloc.
  assert (Hnodes : nodes (removeNode state node propagate).1 = pull node (nodes state)).
  { unfold removeNode. destruct propagate; simpl; by rewrite nodes_removeEdges. }
  assert (Hnext : nextRef (removeNode state node propagate).1 = nextRef state).
  { unfold removeNode. destruct propagate; simpl; apply nextRef_removeEdges. }
  unfold allocated. rewrite Hnodes, Hnext. unfold allocated in Halloc.
  rewrite Forall_forall in *. intros x Hx. apply elem_of_pull in Hx as [Hx _].
  by apply Halloc.
Qed.

Lemma applyOps_allocated ops : ∀ s, allocated s → allocated (applyOps s ops).
Proof.
  unfold applyOps. induction ops as [|op ops IH]; intros s Ha; [done|].
  cbn [foldl]. apply IH. destruct op as [options nodeSave|node propagate]; cbn [applyOp].
  - by destruct (createNode_ids s options nodeSave Ha) as (_ & _ & _ & _ & Ha').
  - by apply removeNode_allocated.
Qed.

Lemma createNode_NoDup state options nodeSave :
  allocated state →
  NoDup (nodeIds (createNode state options nodeSave).1)
  ↔ NoDup (nodeIds state)
    ∧ match nodeSave with
      | Some saved => save_id saved ∉ nodeIds state
      | None => True
      end.
Proof.
  intros Halloc.
  destruct (createNode_ids state options nodeSave Halloc) as (_ & _ & Hid & Hids & _).
  rewrite Hids, Hid, NoDup_app. clear Hid Hids.
  assert (Hnew : match nodeSave with
                 | Some sv => save_id sv
                 | None => assignNodeId state
                 end ∉ nodeIds state
                 ↔ match nodeSave with
                   | Some saved => save_id saved ∉ nodeIds state
                   | None => True
                   end).
  { destruct nodeSave as [saved|]; [done|].
    destruct (assignNodeId_spec state) as (n & -> & _ & Hfree & _). tauto. }
  rewrite <- Hnew. split.
  - intros (Hnd & Hnot & _). split; [done|]. intros Hin.
    apply (Hnot _ Hin). by apply list_elem_of_singleton.
  - intros [Hnd Hnot]. split_and!; [done| |apply NoDup_singleton].
    intros x Hx Hy. apply list_elem_of_singleton in Hy. by subst.
Qed.

Lemma savedIdsFresh_NoDup ops :
  ∀ s, allocated s → NoDup (nodeIds s) →
       savedIdsFresh s ops
       ↔ ∀ k, NoDup (nodeIds (applyOps s (take k ops))).
Proof.
  unfold applyOps.
  induction ops as [|op ops IH]; intros s Halloc Hnd; cbn [savedIdsFresh].
  - split; [|done]. intros _ k. by rewrite take_nil.
  - assert (Hstep : allocated (applyOp s op)
                    ∧ (NoDup (nodeIds (applyOp s op))
                       ↔ match op with
                         | OpCreateNode _ (Some saved) => save_id saved ∉ nodeIds s
                         | _ => True
                         end)).
    { destruct op as [options nodeSave|node propagate]; cbn [applyOp].
      - split.
        + by destruct (createNode_ids s options nodeSave Halloc) as (_ & _ & _ & _ & Ha).
        + rewrite (createNode_NoDup s options nodeSave Halloc).
          destruct nodeSave; tauto.
      - destruct (removeNode_ids s node propagate Halloc Hnd). tauto. }
    destruct Hstep as [Halloc' Hiff]. split.
    + intros [Hfresh Hrest] [|k]; [done|]. cbn [take foldl].
      apply (IH (applyOp s op) Halloc'); [by apply Hiff | exact Hrest].
    + intros Hall.
      assert (Hnd' : NoDup (nodeIds (applyOp s op))) by exact (Hall 1%nat).
      split; [by apply Hiff|].
      apply (IH (applyOp s op) Halloc' Hnd'). intros k. exact (Hall (S k)).
Qed.

(** C6, amended: after any sequence of creations and removals from the
    empty diagram, a creation that is given no saved node gives the new
    node the id [node-n] for the smallest positive [n] such that [node-n]
    is not the id of a node of the diagram, and a creation that is given a
    saved node gives it the id of the saved node.  A creation without a
    saved node and a removal keep the ids of the nodes pairwise distinct,
    and a creation with a saved node keeps them distinct exactly when the
    saved id is not in the diagram.  So the ids are pairwise distinct all
    along a sequence exactly when no creation of the sequence is given a
    saved node whose id is in the diagram at that time; they are when no
    creation is given a saved node at all. *)
Theorem createNode_assigns_smallest_unused_id ops :
  let state := applyOps emptyState ops in
  (∀ options,
     let result := createNode state options None in
     (∃ n, (1 ≤ n)%nat
           ∧ node_id (getNode result.1 result.2) = newId n
           ∧ (newId n ∉ nodeIds state)
           ∧ (∀ k, (1 ≤ k < n)%nat → newId k ∈ nodeIds state)
           ∧ nodeIds result.1 = nodeIds state ++ [newId n])
     ∧ (NoDup (nodeIds state) → NoDup (nodeIds result.1)))
  ∧ (∀ options saved,
       let result := createNode state options (Some saved) in
       node_id (getNode result.1 result.2) = save_id saved
       ∧ nodeIds result.1 = nodeIds state ++ [save_id saved]
       ∧ (NoDup (nodeIds result.1)
          ↔ NoDup (nodeIds state) ∧ save_id saved ∉ nodeIds state))
  ∧ (∀ node propagate,
       NoDup (nodeIds state) → NoDup (nodeIds (removeNode state node propagate).1))
  ∧ (savedIdsFresh emptyState ops
     ↔ ∀ k, NoDup (nodeIds (applyOps emptyState (take k ops))))
  ∧ (Forall unsaved ops → NoDup (nodeIds state)).
Proof.
  intros state.
  assert (Halloc : allocated state).
  { subst state. apply applyOps_allocated. constructor. }
  split_and!.
  - intros options result. split.
    + destruct (createNode_ids state options None Halloc) as (_ & _ & Hid & Hids & _).
      destruct (assignNodeId_spec state) as (n & Hn & Hpos & Hfree & Hmin).
      exists n. fold result in Hid, Hids. rewrite Hids, Hid, Hn. done.
    + intros Hnd. by apply (createNode_NoDup state options None Halloc).
  - intros options saved result.
    destruct (createNode_ids state options (Some saved) Halloc)
      as (_ & _ & Hid & Hids & _).
    fold result in Hid, Hids. rewrite Hid. split_and!; [done | by rewrite Hids, Hid |].
    apply (createNode_NoDup state options (Some saved) Halloc).
  - intros node propagate Hnd. by apply removeNode_ids.
  - apply savedIdsFresh_NoDup; constructor.
  - intros Hops. subst state. clear Halloc.
    assert (Hfresh : ∀ s, savedIdsFresh s ops).
    { induction Hops as [|op ops Hop Hops IH]; intros s; cbn [savedIdsFresh]; [done|].
      split; [|apply IH]. destruct op as [options [sv|]|node propagate]; [|done|done].
      destruct Hop. }
    pose proof (proj1 (savedIdsFresh_NoDup ops emptyState ltac:(constructor)
                         ltac:(constructor)) (Hfresh _) (length ops)) as Hnd.
    by rewrite firstn_all in Hnd.
Qed.

End NodeIds.

(** A loader is created, a chart is read from a saved node with the id
    [node-7], and the loader is removed: the next node created without a
    saved node takes the id [node-1], which was freed, and a node created
    from the saved node again would repeat the id [node-7]. *)
Lemma createNode_assigns_smallest_unused_id_witness :
  let saved := mkNodeSave "node-7" "chart" 0 0 0 in
  let state := @applyOps Demo.collaborators (@emptyState Demo.collaborators)
                 [OpCreateNode (Demo.options "data-source") None;
                  OpCreateNode (Demo.options "chart") (Some saved);
                  OpRemoveNode 0 true] in
  nodeIds state = ["node-7"]
  ∧ nodeIds (@createNode Demo.collaborators state (Demo.options "filter") None).1
    = ["node-7"; "node-1"]
  ∧ NoDup (nodeIds (@createNode Demo.collaborators state (Demo.options "filter") None).1)
  ∧ ¬ NoDup (nodeIds (@createNode Demo.collaborators state (Demo.options "chart")
                        (Some saved)).1).
Proof.
  intros saved state.
  destruct (@createNode_assigns_smallest_unused_id Demo.collaborators
              [OpCreateNode (Demo.options "data-source") None;
               OpCreateNode (Demo.options "chart") (Some saved);
               OpRemoveNode 0 true]) as (Hnew & Hsaved & _ & _).
  fold state in Hnew, Hsaved.
  assert (Hids : nodeIds state = ["node-7"]) by reflexivity.
  destruct (Hnew (Demo.options "filter")) as [(n & Hpos & _ & Hfree & Hmin & Hafter) Hkeep].
  destruct (Hsaved (Demo.options "chart") saved) as (_ & _ & Hiff).
  assert (Hn : n = 1%nat).
  { destruct (decide (n = 1%nat)) as [|Hne]; [done|]. exfalso.
    assert (Hone : newId 1 ∈ nodeIds state) by (apply Hmin; lia).
    rewrite Hids in Hone. apply list_elem_of_singleton in Hone. discriminate. }
  subst n. split_and!.
  - exact Hids.
  - rewrite Hafter, Hids. reflexivity.
  - apply Hkeep. rewrite Hids. apply NoDup_singleton.
  - intros Hnd. apply Hiff in Hnd as [_ Hnot]. apply Hnot. rewrite Hids.
    apply list_elem_of_singleton. reflexivity.
Defined.

(** C6, as it is stated, fails: a creation that is given a saved node
    takes the id of the saved node.  Two creations from the same saved
    node give two nodes with the same id, and the id [node-7] is not the
    first unused one in the empty diagram. *)
Lemma createNode_saved_id_repeats :
  let saved := mkNodeSave "node-7" "filter" 0 0 0 in
  let state := @applyOps Demo.collaborators (@emptyState Demo.collaborators)
                 [OpCreateNode (Demo.options "filter") (Some saved);
                  OpCreateNode (Demo.options "filter") (Some saved)] in
  nodeIds state = ["node-7"; "node-7"] ∧ ¬ NoDup (nodeIds state).
Proof.
  split; [reflexivity|].
  change (¬ NoDup ["node-7"; "node-7"]).
  rewrite NoDup_cons. intros [Hin _]. apply Hin. left.
Qed.

Section Construction.
Context `{Collaborators}.

Lemma getPort_newPorts_lt owner input first specs s p :
  (p < first)%nat →
  getPort (newPorts owner input first specs s) p = getPort s p.
Proof.
  revert first s. induction specs as [|sp specs IH]; intros first s Hp; [done|].
  cbn [newPorts]. rewrite IH by lia.
  unfold getPort. simpl. rewrite lookup_total_insert_ne by lia. done.
Qed.

Lemma getPort_newPorts_at owner input first specs s i sp :
  specs !! i = Some sp →
  getPort (newPorts owner input first specs s) (first + i)
  = mkPort (spec_id sp) owner input (spec_isMultiple sp) (spec_tag sp) [].
Proof.
  revert first s i. induction specs as [|sp0 specs IH]; intros first s i Hi; [done|].
  cbn [newPorts]. destruct i as [|i]; simpl in Hi.
  - injection Hi as ->. rewrite getPort_newPorts_lt by lia.
    unfold getPort. simpl. rewrite Nat.add_0_r. by rewrite lookup_total_insert_eq.
  - replace (first + S i)%nat with (S first + i)%nat by lia. by apply IH.
Qed.

(** The state after one saved node is read by [deserializeDiagram]. *)
Lemma deserializeNode_spec s created sv :
  let r := nextRef s in
  let c := getConstructor (save_type sv) in
  let a := length (class_inputs c) in
  let b := length (class_outputs c) in
  let result := deserializeNode (s, created) sv in
  result.2 = created ++ [r]
  ∧ nodes result.1 = nodes s ++ [r]
  ∧ nextRef result.1 = (S r + a + b)%nat
  ∧ getNode result.1 r
    = mkNode (save_id sv) (NODE_TYPE c) (save_layer sv) (save_x sv) (save_y sv)
             false false (class_isPropagationSource c)
             (mkCreateNodeData None None None None)
             (seq (S r) a) (seq (S r + a) b)
  ∧ (∀ r', r' ≠ r → getNode result.1 r' = getNode s r')
  ∧ (∀ p, (p ≤ r)%nat → getPort result.1 p = getPort s p)
  ∧ (∀ i sp, class_inputs c !! i = Some sp →
       getPort result.1 (S r + i)
       = mkPort (spec_id sp) r true (spec_isMultiple sp) (spec_tag sp) [])
  ∧ (∀ i sp, class_outputs c !! i = Some sp →
       getPort result.1 (S r + a + i)
       = mkPort (spec_id sp) r false (spec_isMultiple sp) (spec_tag sp) []).
Proof.
  intros r c a b result.
  set (s2 := newPorts r false (S r + a) (class_outputs c)
               (newPorts r true (S r) (class_inputs c) s)).
  assert (Hports : portObjs result.1 = portObjs s2).
  { subst result. unfold deserializeNode, createNode, newNode. cbn [opt_type opt_activate].
    fold c. fold r. fold a. fold s2. cbv zeta. by case_bool_decide. }
  assert (Hport : ∀ p, getPort result.1 p = getPort s2 p).
  { intros p. unfold getPort. by rewrite Hports. }
  assert (Hshape : result.2 = created ++ [r]
            ∧ nodes result.1 = nodes s ++ [r]
            ∧ nextRef result.1 = (S r + a + b)%nat
            ∧ nodeObjs result.1
              = <[r := mkNode (save_id sv) (NODE_TYPE c) (save_layer sv) (save_x sv)
                          (save_y sv) false false (class_isPropagationSource c)
                          (mkCreateNodeData None None None None)
                          (seq (S r) a) (seq (S r + a) b)]> (nodeObjs s)).
  { subst result. unfold deserializeNode, createNode, newNode. cbn [opt_type opt_activate].
    fold c. fold r. fold a. fold b. fold s2. cbv zeta.
    case_bool_decide; simpl; subst s2;
      rewrite ?nodes_newPorts, ?nodeObjs_newPorts;
      rewrite ?lookup_total_insert_eq, ?insert_insert_eq; done. }
  destruct Hshape as (Hcreated & Hnodes & Hnext & Hobjs).
  split_and!; try done.
  - unfold getNode. by rewrite Hobjs, lookup_total_insert_eq.
  - intros r' Hr'. unfold getNode. by rewrite Hobjs, lookup_total_insert_ne.
  - intros p Hp. rewrite Hport. subst s2. by rewrite !getPort_newPorts_lt by lia.
  - intros i sp Hi. rewrite Hport. subst s2.
    apply lookup_lt_Some in Hi as Hlt. fold a in Hlt.
    rewrite getPort_newPorts_lt by lia. by apply getPort_newPorts_at.
  - intros i sp Hi. rewrite Hport. subst s2. by apply getPort_newPorts_at.
Qed.

Lemma Forall2_impl_elem_of {A B} (P Q : A → B → Prop) (l : list A) (k : list B) :
  Forall2 P l k → (∀ x y, x ∈ l → P x y → Q x y) → Forall2 Q l k.
Proof.
  intros HP HPQ. induction HP as [|x y l k Hxy HP IH]; constructor.
  - apply HPQ; [left | done].
  - apply IH. intros x' y' Hx'. apply HPQ. by right.
Qed.

Lemma instanceOf_ext s s' n sv :
  getNode s' n = getNode s n →
  (∀ p owner input sp, p ∈ portsOf s n →
     portOf s owner input p sp → portOf s' owner input p sp) →
  instanceOf s n sv → instanceOf s' n sv.
Proof.
  intros Hnode Hports. unfold instanceOf. rewrite Hnode.
  intros (? & ? & ? & ? & ? & Hin & Hout). split_and!; try done.
  - eapply Forall2_impl_elem_of; [exact Hin|]. intros p sp Hp. apply Hports.
    unfold portsOf. apply elem_of_app. by left.
  - eapply Forall2_impl_elem_of; [exact Hout|]. intros p sp Hp. apply Hports.
    unfold portsOf. apply elem_of_app. by right.
Qed.

Lemma elem_of_outputPortsAll s p :
  p ∈ outputPortsAll s ↔ ∃ n, n ∈ nodes s ∧ p ∈ outputPorts (getNode s n).
Proof.
  unfold outputPortsAll. rewrite elem_of_concat. split.
  - intros (l & Hp & Hl). apply elem_of_map in Hl as (n & -> & Hn). eauto.
  - intros (n & Hn & Hp). eexists. split; [exact Hp|]. apply elem_of_map. eauto.
Qed.

Lemma outputPortsAll_diagramPorts s p : p ∈ outputPortsAll s → p ∈ diagramPorts s.
Proof.
  rewrite elem_of_outputPortsAll, elem_of_diagramPorts.
  intros (n & Hn & Hp). exists n. split; [done|].
  unfold portsOf. apply elem_of_app. by right.
Qed.

Lemma concat_snoc {A} (ls : list (list A)) (l : list A) :
  concat (ls ++ [l]) = concat ls ++ l.
Proof. rewrite concat_app. simpl. by rewrite app_nil_r. Qed.

Lemma rebuilt_deserializeNode s created svs sv :
  rebuilt s svs → rebuilt (deserializeNode (s, created) sv).1 (svs ++ [sv]).
Proof.
  intros (Hinst & Hnodes & Hports & Hnd & Hempty).
  destruct (deserializeNode_spec s created sv)
    as (_ & Hn & Hnext & Hnew & Hold & Hpold & Hin & Hout).
  cbv zeta in *.
  remember (deserializeNode (s, created) sv).1 as s' eqn:Hs'. clear Hs'.
  set (r := nextRef s) in *.
  set (c := getConstructor (save_type sv)) in *.
  set (a := length (class_inputs c)) in *.
  set (b := length (class_outputs c)) in *.
  rewrite Forall_forall in Hnodes, Hports, Hempty.
  assert (Hnode_old : ∀ n, n ∈ nodes s → getNode s' n = getNode s n).
  { intros n Hn'. apply Hold. specialize (Hnodes n Hn'). lia. }
  assert (Hport_old : ∀ p, p ∈ diagramPorts s → getPort s' p = getPort s p).
  { intros p Hp. apply Hpold. specialize (Hports p Hp). lia. }
  assert (HportsOf_old : map (portsOf s') (nodes s) = map (portsOf s) (nodes s)).
  { apply map_ext_elem_of. intros n Hn'. unfold portsOf. by rewrite Hnode_old. }
  assert (HportsOf_new : portsOf s' r = seq (S r) a ++ seq (S r + a) b).
  { unfold portsOf. by rewrite Hnew. }
  assert (Hdiagram : diagramPorts s' = diagramPorts s ++ seq (S r) a ++ seq (S r + a) b).
  { unfold diagramPorts. by rewrite Hn, map_app, HportsOf_old, concat_app; simpl;
      rewrite HportsOf_new, app_nil_r. }
  assert (Houtputs : outputPortsAll s' = outputPortsAll s ++ seq (S r + a) b).
  { unfold outputPortsAll. rewrite Hn, map_app, concat_app. simpl.
    rewrite Hnew. simpl. rewrite app_nil_r. f_equal. f_equal.
    apply map_ext_elem_of. intros n Hn'. by rewrite Hnode_old. }
  assert (Hnew_in : ∀ p, p ∈ seq (S r) a →
            ∃ sp, getPort s' p
                  = mkPort (spec_id sp) r true (spec_isMultiple sp) (spec_tag sp) []).
  { intros p Hp. apply elem_of_seq in Hp.
    destruct (lookup_lt_is_Some_2 (class_inputs c) (p - S r)) as [sp Hsp]; [fold a; lia|].
    exists sp. rewrite <- (Hin _ _ Hsp). f_equal. lia. }
  assert (Hnew_out : ∀ p, p ∈ seq (S r + a) b →
            ∃ sp, getPort s' p
                  = mkPort (spec_id sp) r false (spec_isMultiple sp) (spec_tag sp) []).
  { intros p Hp. apply elem_of_seq in Hp.
    destruct (lookup_lt_is_Some_2 (class_outputs c) (p - (S r + a))) as [sp Hsp];
      [fold b; lia|].
    exists sp. pose proof (Hout _ _ Hsp) as Hp'.
    replace (S r + a + (p - (S r + a)))%nat with p in Hp' by lia. exact Hp'. }
  unfold rebuilt. split_and!.
  - rewrite Hn. apply Forall2_app.
    + eapply Forall2_impl_elem_of; [exact Hinst|]. intros n sv0 Hn' Hi.
      eapply instanceOf_ext; [by apply Hnode_old | | exact Hi].
      intros p owner input sp Hp. unfold portOf. rewrite Hport_old; [done|].
      apply elem_of_diagramPorts. eauto.
    + constructor; [|constructor]. unfold instanceOf. rewrite Hnew.
      cbn [node_id nodeType layer node_x node_y inputPorts outputPorts].
      fold c. split_and!; try done.
      * apply Forall2_same_length_lookup_2; [by rewrite length_seq|].
        intros i p sp Hp Hsp. apply lookup_seq in Hp as [-> _].
        unfold portOf. by rewrite (Hin _ _ Hsp).
      * apply Forall2_same_length_lookup_2; [by rewrite length_seq|].
        intros i p sp Hp Hsp. apply lookup_seq in Hp as [-> _].
        unfold portOf. by rewrite (Hout _ _ Hsp).
  - rewrite Hn, Hnext. apply Forall_app. split.
    + apply Forall_forall. intros n Hn'. specialize (Hnodes n Hn'). lia.
    + constructor; [lia | constructor].
  - rewrite Hdiagram, Hnext. rewrite !Forall_app. split_and!.
    + apply Forall_forall. intros p Hp. specialize (Hports p Hp). lia.
    + apply Forall_forall. intros p Hp. apply elem_of_seq in Hp. lia.
    + apply Forall_forall. intros p Hp. apply elem_of_seq in Hp. lia.
  - rewrite Houtputs. apply NoDup_app. split; [done|]. split; [|apply NoDup_seq].
    intros p Hp Hp'. apply elem_of_seq in Hp'.
    apply outputPortsAll_diagramPorts in Hp. specialize (Hports p Hp). lia.
  - rewrite Hdiagram. rewrite !Forall_app. split_and!.
    + apply Forall_forall. intros p Hp. rewrite Hport_old by done. by apply Hempty.
    + apply Forall_forall. intros p Hp. by destruct (Hnew_in p Hp) as [sp ->].
    + apply Forall_forall. intros p Hp. by destruct (Hnew_out p Hp) as [sp ->].
Qed.

Lemma rebuilt_deserializeNodes svs :
  ∀ s created done,
    rebuilt s done →
    rebuilt (foldl deserializeNode (s, created) svs).1 (done ++ svs).
Proof.
  induction svs as [|sv svs IH]; intros s created done Hs.
  - by rewrite app_nil_r.
  - cbn [foldl].
    destruct (deserializeNode (s, created) sv) as [s' created'] eqn:Hstep.
    replace (done ++ sv :: svs) with ((done ++ [sv]) ++ svs)
      by (by rewrite <- app_assoc).
    apply IH. pose proof (rebuilt_deserializeNode s created done sv Hs) as Hs'.
    by rewrite Hstep in Hs'.
Qed.

End Construction.

Section Replaying.
Context `{Collaborators}.
Variable compatible : string → string → bool.









End Replaying.

Section Deserialize.
Context `{Collaborators}.
Variable compatible : string → string → bool.


Lemma deserializeEdges_cons s es rest :
  deserializeEdges s (es :: rest)
  = s' ← deserializeEdge s es; deserializeEdges s' rest.
Proof.
  unfold deserializeEdges. cbn [foldl]. cbn [mbind option_bind].
  destruct (deserializeEdge s es) as [s'|]; [done|].
  cbn [mbind option_bind]. induction rest as [|es' rest IH]; [done|]. exact IH.
Qed.







End Deserialize.

Section RoundTrip.
Context `{Collaborators}.
Variable compatible : string → string → bool.







Lemma filter_ext_elem_of {A} (f g : A → bool) (l : list A) :
  (∀ x, x ∈ l → f x = g x) → List.filter f l = List.filter g l.
Proof.
  intros Hfg. apply filter_ext_in. intros x Hx. apply Hfg. by apply list_elem_of_In.
Qed.









(** ** What is read is what was saved, seen on the graph *)










End RoundTrip.




(** * Further properties of the interaction manager *)

Module InteractionFacts.
Import Interaction.



(** Pressing and releasing a modifier key leaves it released: after
    key-down and key-up of shift, [shifted] is false; after those of ctrl,
    [ctrled] is false and the visualization blocking is on again, whatever
    they were before.  Each key leaves the flags of the other alone, and
    any other key changes nothing. *)
Theorem keyup_after_keydown event m :
  let m' := keyup event (keydown event m) in
  (keyCode event = 16 →
     shifted (keydown event m) = true ∧ shifted m' = false
     ∧ ctrled m' = ctrled m ∧ visualizationBlocking m' = visualizationBlocking m)
  ∧ (keyCode event = 17 →
     ctrled (keydown event m) = true ∧ visualizationBlocking (keydown event m) = false
     ∧ ctrled m' = false ∧ visualizationBlocking m' = true
     ∧ shifted m' = shifted m)
  ∧ (keyCode event ≠ 16 → keyCode event ≠ 17 → m' = m).
Proof.
  unfold keyup, keydown. cbv zeta. split_and!.
  - intros ->. simpl. unfold keyReleased1. simpl. done.
  - intros ->. simpl. unfold keyReleased1. simpl. done.
  - intros H16 H17.
    rewrite !(bool_decide_eq_false_2 (keyCode event = 16)) by done.
    by rewrite !(bool_decide_eq_false_2 (keyCode event = 17)) by done.
Qed.

Lemma keyup_after_keydown_witness :
  ctrled (keyup (mkEvent 0 0 17 (0, 0)) (keydown (mkEvent 0 0 17 (0, 0)) initialize))
  = false
  ∧ visualizationBlocking
      (keyup (mkEvent 0 0 17 (0, 0)) (keydown (mkEvent 0 0 17 (0, 0)) initialize))
    = true.
Proof.
  pose proof (keyup_after_keydown (mkEvent 0 0 17 (0, 0)) initialize) as Hthm.
  cbv zeta in Hthm. destruct Hthm as (_ & H17 & _).
  destruct (H17 eq_refl) as (_ & _ & Hc & Hv & _). by split.
Defined.

Section Moves.
Variable getNodesInSelectbox : Box → list nat.

Lemma mousemoveHandler_pan x y m :
  mouseMode m = "pan" →
  let m' := mousemoveHandler getNodesInSelectbox (background x y) m in
  mouseMode m' = "pan"
  ∧ mouselastPos m' = (x, y)
  ∧ calls m'
    = calls m ++ [MoveNodes (x - (mouselastPos m).1) (y - (mouselastPos m).2) AllNodes].
Proof.
  intros Hmode. unfold mousemoveHandler, background. cbv zeta.
  cbn [para_type para_event pageX pageY]. rewrite Hmode. simpl. by rewrite Hmode.
Qed.

Lemma totalMove_from acc cs :
  foldl (λ acc c, match c with
                  | MoveNodes dx dy _ => (acc.1 + dx, acc.2 + dy)
                  | _ => acc
                  end) acc cs
  = (acc.1 + (totalMove cs).1, acc.2 + (totalMove cs).2).
Proof.
  unfold totalMove. revert acc. induction cs as [|c cs IH]; intros [a b].
  - simpl. f_equal; lia.
  - cbn [foldl]. rewrite IH. rewrite (IH (match c with
                                          | MoveNodes dx dy _ => ((0, 0).1 + dx, (0, 0).2 + dy)
                                          | _ => (0, 0)
                                          end)).
    destruct c; simpl; f_equal; lia.
Qed.

Lemma totalMove_cons dx dy w cs :
  totalMove (MoveNodes dx dy w :: cs) = (dx + (totalMove cs).1, dy + (totalMove cs).2).
Proof. unfold totalMove at 1. cbn [foldl]. by rewrite totalMove_from. Qed.

(** While panning, each move asks the nodes to move by the step from the
    last recorded pointer position, so that the steps of a sequence of
    moves add up to the displacement of the pointer from where it was
    before the sequence to where the last move left it. *)
Theorem pan_moves_add_up positions m :
  mouseMode m = "pan" →
  let m' := mousemoves getNodesInSelectbox positions m in
  mouseMode m' = "pan"
  ∧ mouselastPos m' = default (mouselastPos m) (last positions)
  ∧ ∃ moved, calls m' = calls m ++ moved
             ∧ length moved = length positions
             ∧ totalMove moved
               = ((mouselastPos m').1 - (mouselastPos m).1,
                  (mouselastPos m').2 - (mouselastPos m).2).
Proof.
  unfold mousemoves. revert m.
  induction positions as [|[x y] positions IH]; intros m Hmode.
  - cbn [foldl]. split_and!; [done | done |]. exists []. rewrite app_nil_r.
    split_and!; [done | done |]. unfold totalMove. simpl. f_equal; lia.
  - cbn [foldl fst snd].
    destruct (mousemoveHandler_pan x y m Hmode) as (Hmode1 & Hlast1 & Hcalls1).
    cbv zeta in *.
    remember (mousemoveHandler getNodesInSelectbox (background x y) m) as m1 eqn:Hm1.
    clear Hm1. destruct (IH m1 Hmode1) as (Hmode' & Hlast' & moved & Hcalls' & Hlen & Htotal).
    cbv zeta in *. split_and!; [done | |].
    + rewrite Hlast', Hlast1. by destruct positions as [|p positions'] using rev_ind;
        [|rewrite app_comm_cons, !last_snoc].
    + eexists. split_and!.
      * rewrite Hcalls', Hcalls1, <- app_assoc. reflexivity.
      * simpl. by rewrite Hlen.
      * cbn [app]. rewrite totalMove_cons, Htotal, Hlast1. simpl. f_equal; lia.
Qed.

Lemma mousemoveHandler_selectbox_step x y m :
  mouseMode m = "selectbox" →
  let m' := mousemoveHandler getNodesInSelectbox (background x y) m in
  let box := boxBetween (x1 (selectbox m), y1 (selectbox m)) (x, y) in
  mouseMode m' = "selectbox"
  ∧ nodesHovered m' = list_to_set (getNodesInSelectbox box)
  ∧ nodesSelected m' = nodesSelected m
  ∧ shifted m' = shifted m ∧ ctrled m' = ctrled m
  ∧ mousedownPos m' = mousedownPos m
  ∧ calls m'
    = calls m ++ [SelectboxShow box; ClearNodeHover;
                  AddNodeHover (getNodesInSelectbox box)].
Proof.
  intros Hmode. unfold mousemoveHandler, background, boxBetween. cbv zeta.
  cbn [para_type para_event pageX pageY]. simpl. rewrite Hmode. simpl.
  rewrite Hmode. split_and!; try done.
  - by rewrite (left_id_L ∅ (∪)).
  - by rewrite <- !app_assoc.
Qed.

(** While a selection rectangle is drawn, a move replaces the hover set by
    the nodes under the rectangle between the anchor and the pointer.  The
    rectangle has a width and a height that are not negative, contains the
    anchor and the pointer, and is the same whichever of its two corners is
    the anchor.  The selection is not touched. *)
Theorem selectbox_move_hovers x y m :
  mouseMode m = "selectbox" →
  let m' := mousemoveHandler getNodesInSelectbox (background x y) m in
  let a := (x1 (selectbox m), y1 (selectbox m)) in
  let box := boxBetween a (x, y) in
  nodesHovered m' = list_to_set (getNodesInSelectbox box)
  ∧ nodesSelected m' = nodesSelected m
  ∧ 0 ≤ box_width box ∧ 0 ≤ box_height box
  ∧ box_left box ≤ a.1 ≤ box_left box + box_width box
  ∧ box_left box ≤ x ≤ box_left box + box_width box
  ∧ box_top box ≤ a.2 ≤ box_top box + box_height box
  ∧ box_top box ≤ y ≤ box_top box + box_height box
  ∧ boxBetween (x, y) a = box.
Proof.
  intros Hmode m' a box.
  destruct (mousemoveHandler_selectbox_step x y m Hmode) as (_ & Hhover & Hsel & _).
  split; [exact Hhover|]. split; [exact Hsel|].
  subst box a. unfold boxBetween. cbn [box_width box_height box_left box_top fst snd].
  split_and!; try lia. f_equal; lia.
Qed.

Lemma mousedownHandler_background x y m :
  mouseMode m = "none" → ctrled m = false →
  let m' := mousedownHandler (background x y) m in
  mouseMode m' = "selectbox"
  ∧ mousedownPos m' = (x, y)
  ∧ (x1 (selectbox m'), y1 (selectbox m')) = (x, y)
  ∧ nodesSelected m' = nodesSelected m
  ∧ shifted m' = shifted m ∧ ctrled m' = false.
Proof.
  intros Hmode Hc. unfold mousedownHandler, background. cbv zeta.
  cbn [para_type para_event pageX pageY]. simpl. rewrite Hmode, Hc. simpl. done.
Qed.

(** A box selection from start to end: from the mode [none] without ctrl,
    a press on the background, a move and a release at a position with
    another horizontal coordinate select the nodes under the rectangle
    between the press and the move; with shift held they are added to the
    selection, without it they replace it.  The mode is [none] again. *)
Theorem box_select_gesture x0 y0 x y m :
  mouseMode m = "none" →
  ctrled m = false →
  x ≠ x0 →
  let m' := mouseupHandler (background x y)
              (mousemoveHandler getNodesInSelectbox (background x y)
                 (mousedownHandler (background x0 y0) m)) in
  let under := list_to_set (getNodesInSelectbox (boxBetween (x0, y0) (x, y))) in
  nodesSelected m' = (if shifted m then nodesSelected m ∪ under else under)
  ∧ mouseMode m' = "none".
Proof.
  intros Hmode Hc Hx m' under.
  destruct (mousedownHandler_background x0 y0 m Hmode Hc)
    as (Hmode1 & Hdown1 & Hanchor & Hsel1 & Hs1 & Hc1).
  cbv zeta in *.
  remember (mousedownHandler (background x0 y0) m) as m1 eqn:Hm1. clear Hm1.
  destruct (mousemoveHandler_selectbox_step x y m1 Hmode1)
    as (Hmode2 & Hhover2 & Hsel2 & Hs2 & Hc2 & Hdown2 & _).
  cbv zeta in *. injection Hanchor as Hx1 Hy1. rewrite Hx1, Hy1 in Hhover2.
  remember (mousemoveHandler getNodesInSelectbox (background x y) m1) as m2 eqn:Hm2.
  clear Hm2.
  destruct (InteractionProperties.mouseupHandler_selectbox (background x y) m2 Hmode2 eq_refl)
    as (_ & Hsel3).
  subst m'. split.
  - rewrite Hsel3. cbn [background para_event pageX].
    rewrite Hdown2, Hdown1. cbn [fst].
    rewrite bool_decide_eq_true_2 by done.
    rewrite Hc2, Hc1, Hs2, Hs1, Hsel2, Hsel1, Hhover2.
    destruct (shifted m); [done|]. by rewrite (left_id_L ∅ (∪)).
  - apply InteractionProperties.mouseupHandler_mode.
Qed.

End Moves.

Lemma pan_moves_add_up_witness :
  let m := mousedownHandler (background 10 10)
             (keydown (mkEvent 0 0 17 (0, 0)) initialize) in
  totalMove (newCalls m (mousemoves Demo.hitTest [(15, 12); (40, 30); (33, 50)] m))
  = (23, 40).
Proof.
  intros m.
  assert (Hmode : mouseMode m = "pan") by (vm_compute; reflexivity).
  destruct (pan_moves_add_up Demo.hitTest [(15, 12); (40, 30); (33, 50)] m Hmode)
    as (_ & _ & moved & Hcalls & _ & Htotal).
  unfold newCalls. rewrite Hcalls, drop_app_length, Htotal.
  vm_compute. reflexivity.
Defined.

Lemma selectbox_move_hovers_witness :
  let m := mousedownHandler (background 50 10) initialize in
  nodesHovered (mousemoveHandler Demo.hitTest (background 10 40) m) = {[0%nat]}.
Proof.
  intros m.
  assert (Hmode : mouseMode m = "selectbox") by (vm_compute; reflexivity).
  destruct (selectbox_move_hovers Demo.hitTest 10 40 m Hmode) as (Hhover & _).
  rewrite Hhover. vm_compute. reflexivity.
Defined.

Lemma box_select_gesture_witness :
  nodesSelected
    (mouseupHandler (background 70 50)
       (mousemoveHandler Demo.hitTest (background 70 50)
          (mousedownHandler (background 10 10) initialize)))
  = {[0%nat; 1%nat]}.
Proof.
  destruct (box_select_gesture Demo.hitTest 10 10 70 50 initialize eq_refl eq_refl)
    as (Hsel & _); [lia|].
  rewrite Hsel. vm_compute. reflexivity.
Defined.

(** The flag [mouseMoved] after a release: the vertical term is the
    difference of the press position with itself. *)
Lemma mouseupHandler_mouseMoved para m :
  mouseMoved (mouseupHandler para m)
  = bool_decide (Z.abs (pageX (para_event para) - (mousedownPos m).1)
                 + Z.abs ((mousedownPos m).2 - (mousedownPos m).2) > 0).
Proof.
  unfold mouseupHandler. cbv zeta.
  match goal with
  | |- context [set_mouse ?a ?b ?c (bool_decide ?P) ?x] =>
    remember (set_mouse a b c (bool_decide P) x) as m0 eqn:Hm0;
    assert (Hmoved : mouseMoved m0 = bool_decide P) by (by rewrite Hm0)
  end.
  clear Hm0. cbn [set_mouse mousedownPos mouseupPos fst snd] in Hmoved.
  rewrite <- Hmoved. clear Hmoved.
  destruct m0 as [mode ? ? ? ? ? ? ? ? ? ? shift ctrl ? moved ? ? ?].
  cbn [mouseMode mouseMoved ctrled shifted call].
  repeat case_bool_decide; destruct moved, ctrl, shift; reflexivity.
Qed.

(** A release at the horizontal position of the press is handled as an
    empty click, whatever the vertical positions are: in the mode
    [selectbox] the selection is cleared and the hovered nodes are not
    selected; the vertical distance is not looked at. *)
Theorem vertical_drag_is_click y m :
  mouseMode m = "selectbox" →
  let para := background (mousedownPos m).1 y in
  mouseMoved (mouseupHandler para m) = false
  ∧ treatedAsEmptyClick para m
  ∧ nodesSelected (mouseupHandler para m) = ∅.
Proof.
  intros Hmode para.
  destruct (InteractionProperties.mouseupHandler_selectbox para m Hmode eq_refl)
    as (Hcalls & Hsel).
  cbv zeta in *. subst para. cbn [background para_event pageX] in *.
  rewrite bool_decide_eq_false_2 in Hcalls, Hsel by (by intros ?).
  split_and!; [|by unfold treatedAsEmptyClick; rewrite Hcalls | exact Hsel].
  rewrite mouseupHandler_mouseMoved. cbn [background para_event pageX].
  apply bool_decide_eq_false. lia.
Qed.

Lemma vertical_drag_is_click_witness :
  let m := set_dataflow {[7%nat]} {[1%nat; 2%nat]}
             (mousedownHandler (background 10 10) initialize) in
  nodesSelected (mouseupHandler (background 10 90) m) = ∅.
Proof.
  intros m.
  assert (Hmode : mouseMode m = "selectbox") by (vm_compute; reflexivity).
  destruct (vertical_drag_is_click 90 m Hmode) as (_ & _ & Hsel). exact Hsel.
Defined.

(** A release on a node at the horizontal position of the press is a click
    on the node, in any mode: the node becomes the selection, or is added
    to it when shift is held.  A release elsewhere leaves the selection. *)
Theorem node_click_selects n x y m :
  let para := mkPara "node" (mkEvent x y 0 (0, 0)) (Some n) None in
  nodesSelected (mouseupHandler para m)
  = if bool_decide (x = (mousedownPos m).1)
    then (if shifted m then nodesSelected m ∪ {[n]} else {[n]})
    else nodesSelected m.
Proof.
  unfold mouseupHandler. cbv zeta. cbn [para_type para_event para_node pageX pageY].
  simpl.
  replace (bool_decide (Z.abs (x - (mousedownPos m).1)
                        + Z.abs ((mousedownPos m).2 - (mousedownPos m).2) > 0))
    with (negb (bool_decide (x = (mousedownPos m).1))).
  2:{ case_bool_decide; cbn [negb]; symmetry;
        [apply bool_decide_eq_false | apply bool_decide_eq_true]; lia. }
  destruct (bool_decide (x = (mousedownPos m).1)); simpl; [|done].
  destruct (shifted m); simpl; unfold keyReleased1; simpl; [done|].
  by rewrite (left_id_L ∅ (∪)).
Qed.

(** Dragging a node: a node of the selection is dragged with the whole
    selection, which is kept; a node outside of it becomes the selection.
    In both cases the node is selected and the mode is [node]. *)
Theorem dragstart_node_selection n event m :
  let m' := dragstartHandler (mkPara "node" event (Some n) None) m in
  mouseMode m' = "node"
  ∧ n ∈ nodesSelected m'
  ∧ nodesSelected m' = (if bool_decide (n ∈ nodesSelected m)
                        then nodesSelected m else {[n]})
  ∧ draglastPos m' = (pageX event, pageY event)
  ∧ dropPossible m' = dropPossible m.
Proof.
  unfold dragstartHandler. cbv zeta. cbn [para_type para_event para_node]. simpl.
  case_bool_decide as Hn; simpl; split_and!; try done.
  - rewrite (left_id_L ∅ (∪)). by apply elem_of_singleton.
  - by rewrite (left_id_L ∅ (∪)).
Qed.



(** What the drop handler does not do: a drop on a target that is not a
    port, or a drop that is not eligible, changes nothing; an eligible
    drop on a port after a drag that carried no port fails. *)
Theorem dropHandler_ignores para m :
  (para_type para ≠ "port" ∨ dropPossible m = false → dropHandler para m = Some m)
  ∧ (para_type para = "port" → dropPossible m = true →
     dragstartPara m ≫= para_port = None → dropHandler para m = None).
Proof.
  unfold dropHandler. cbv zeta. split.
  - intros [Htype | Hdrop].
    + by rewrite bool_decide_eq_false_2 by done.
    + by rewrite Hdrop, andb_false_r.
  - intros Htype Hdrop Hstart. rewrite bool_decide_eq_true_2 by done.
    by rewrite Hdrop, Hstart.
Qed.

Lemma dropHandler_ignores_witness :
  dropHandler (mkPara "port" (mkEvent 5 5 0 (5, 5)) None (Some (mkPortInfo 1 false)))
              initialize
  = Some initialize.
Proof.
  apply (proj1 (dropHandler_ignores
                  (mkPara "port" (mkEvent 5 5 0 (5, 5)) None (Some (mkPortInfo 1 false)))
                  initialize)).
  right. reflexivity.
Defined.

End InteractionFacts.

(** * Further properties of the mutator *)

Section MutatorFacts.
Context `{Collaborators}.

(** The data a node is created with holds a corner, a center, or nothing:
    a coordinate is never there without the other one of its pair, the two
    pairs are never there together, a complete corner is taken whatever
    the center is, and a complete center is taken when the corner is not
    complete. *)
Theorem getNodeDataOnCreate_pairs options :
  let data := getNodeDataOnCreate options in
  (is_Some (data_dataflowX data) ↔ is_Some (data_dataflowY data))
  ∧ (is_Some (data_dataflowCenterX data) ↔ is_Some (data_dataflowCenterY data))
  ∧ ¬ (is_Some (data_dataflowX data) ∧ is_Some (data_dataflowCenterX data))
  ∧ (is_Some (opt_dataflowX options) → is_Some (opt_dataflowY options) →
     data = mkCreateNodeData (opt_dataflowX options) (opt_dataflowY options) None None)
  ∧ (¬ (is_Some (opt_dataflowX options) ∧ is_Some (opt_dataflowY options)) →
     is_Some (opt_dataflowCenterX options) → is_Some (opt_dataflowCenterY options) →
     data = mkCreateNodeData None None (opt_dataflowCenterX options)
                             (opt_dataflowCenterY options)).
Proof.
  unfold getNodeDataOnCreate.
  destruct (opt_dataflowX options) as [x|], (opt_dataflowY options) as [y|],
           (opt_dataflowCenterX options) as [cx|], (opt_dataflowCenterY options) as [cy|];
    cbn; split_and!; try done;
    try (split; intros [? ?]; done);
    try (intros [[? ?] [? ?]]; done);
    try (intros [? ?]; done);
    try (intros _ [? ?]; done);
    try (intros Hn; intros; exfalso; apply Hn; split; eauto).
Qed.

(** [removeEdge] touches the two ports of the edge only, and only takes
    edges away: at these two ports no edge with the identity of the edge
    is left, and the other edges stay in their order.  Removing the edge
    again changes no port.  With [propagate] the node of the target port
    is recomputed, before the canvas is told. *)
Theorem removeEdge_detaches state edge propagate :
  let state' := removeEdge state edge propagate in
  (∀ p, p ≠ source edge → p ≠ target edge → getPort state' p = getPort state p)
  ∧ (∀ p, p = source edge ∨ p = target edge →
       port_edges (getPort state' p)
       = List.filter (λ e, negb (same_edge edge e)) (port_edges (getPort state p)))
  ∧ (∀ p e, e ∈ port_edges (getPort state' p) → e ∈ port_edges (getPort state p))
  ∧ (∀ p, getPort (removeEdge state' edge propagate) p = getPort state' p)
  ∧ nodes state' = nodes state
  ∧ nodeObjs state' = nodeObjs state
  ∧ effects state'
    = effects state
      ++ (if propagate
          then [PropagateNode (port_node (getPort state (target edge)))] else [])
      ++ [CanvasRemoveEdge edge].
Proof.
  cbv zeta.
  assert (Hedges : ∀ p, port_edges (getPort (removeEdge state edge propagate) p)
            = if decide (source edge = p ∨ target edge = p)
              then List.filter (λ e, negb (same_edge edge e))
                               (port_edges (getPort state p))
              else port_edges (getPort state p)).
  { intros p. rewrite getPort_removeEdge.
    repeat case_decide; try tauto; cbn [with_port_edges port_edges id]; try done.
    rewrite filter_twice. apply filter_ext. intros e. by destruct (same_edge edge e). }
  split_and!.
  - intros p Hs Ht. rewrite getPort_removeEdge.
    by rewrite !decide_False by done.
  - intros p Hp. rewrite Hedges. rewrite decide_True; [done|]. destruct Hp; eauto.
  - intros p e. rewrite Hedges. case_decide; [|done].
    rewrite elem_of_filter_bool. tauto.
  - intros p. rewrite (getPort_removeEdge (removeEdge state edge propagate)).
    rewrite (getPort_removeEdge state).
    destruct (getPort state p) as [pid pn pin pm pt pes].
    repeat case_decide; unfold with_port_edges; cbn; f_equal;
      rewrite ?filter_twice; apply filter_ext; intros e;
      by destruct (same_edge edge e).
  - by destruct propagate.
  - by destruct propagate.
  - unfold removeEdge. destruct propagate; cbn [effects emit]; [|done].
    unfold removeIncidentEdge. rewrite !port_node_updPort_edges.
    by rewrite <- app_assoc.
Qed.

Lemma nodes_createEdge state a b propagate options :
  nodes (createEdge state a b propagate options).1 = nodes state
  ∧ nodeObjs (createEdge state a b propagate options).1 = nodeObjs state
  ∧ diagramName (createEdge state a b propagate options).1 = diagramName state
  ∧ numNodeLayers (createEdge state a b propagate options).1 = numNodeLayers state
  ∧ isDeserializing (createEdge state a b propagate options).1 = isDeserializing state.
Proof.
  unfold createEdge.
  destruct (connectable (checkEdgeConnectivity state a b)); cbn [negb].
  - by destruct propagate.
  - by destruct (negb (messageDisabled options)).
Qed.

(** Making an edge and removing it again restores every port, when the
    identity the edge is given is not that of an edge already at the two
    ports.  The nodes are untouched; the identity is used up. *)
Theorem removeEdge_createEdge state a b propagate options state' edge :
  createEdge state a b propagate options = (state', Some edge) →
  Forall (λ e, eid e ≠ nextRef state)
         (port_edges (getPort state a) ++ port_edges (getPort state b)) →
  eid edge = nextRef state
  ∧ (∀ p, getPort (removeEdge state' edge false) p = getPort state p)
  ∧ nodes (removeEdge state' edge false) = nodes state
  ∧ nodeObjs (removeEdge state' edge false) = nodeObjs state
  ∧ nextRef (removeEdge state' edge false) = S (nextRef state).
Proof.
  intros Hrun Hfresh.
  pose proof (createEdge_Some_inv _ _ _ _ _ _ _ Hrun) as Hc.
  rewrite (createEdge_accepted _ _ _ propagate options Hc) in Hrun. cbv zeta in Hrun.
  injection Hrun as <- <-.
  set (e := mkEdge (nextRef state)
              (if isInput (getPort state a) then b else a)
              (if isInput (getPort state a) then a else b)).
  assert (Hends : (source e = a ∧ target e = b) ∨ (source e = b ∧ target e = a)).
  { subst e. destruct (isInput (getPort state a)); cbn; tauto. }
  assert (Hkeep : ∀ p, (p = a ∨ p = b) →
            List.filter (λ e', negb (same_edge e e')) (port_edges (getPort state p))
            = port_edges (getPort state p)).
  { intros p Hp. apply forallb_filter_id. apply forallb_forall. intros e' He'.
    apply negb_true_iff. unfold same_edge. apply bool_decide_eq_false.
    apply list_elem_of_In in He'. rewrite Forall_forall in Hfresh.
    intros Heq. apply (Hfresh e'); [|by rewrite <- Heq].
    apply elem_of_app. destruct Hp as [-> | ->]; eauto. }
  assert (Hself : same_edge e e = true) by (by apply bool_decide_eq_true).
  assert (Heid : eid e = nextRef state) by done.
  clearbody e.
  split_and!; [done | | by destruct propagate..].
  intros p.
  assert (Hport : getPort (removeEdge
                    (addIncidentEdge b e
                       (addIncidentEdge a e (set_nextRef (S (nextRef state)) state)))
                    e false) p = getPort state p).
  { rewrite getPort_removeEdge. unfold addIncidentEdge.
    rewrite !getPort_updPort, getPort_set_nextRef.
    destruct (getPort state p) as [pid pn pin pm pt pes] eqn:Hp.
    assert (Hpes : pes = port_edges (getPort state p)) by (by rewrite Hp).
    destruct Hends as [[Hs Ht] | [Hs Ht]]; rewrite Hs, Ht;
      repeat case_decide; subst; try congruence; unfold with_port_edges, id; cbn;
      f_equal; rewrite ?filter_twice, ?List.filter_app; cbn; rewrite ?Hself; cbn;
      rewrite ?app_nil_r;
      try (rewrite <- filter_twice, !Hkeep by tauto; reflexivity);
      try (apply Hkeep; tauto). }
  destruct propagate; exact Hport.
Qed.

Lemma removeNode_empties_port state node propagate p :
  p ∈ portsOf state node →
  Forall (λ e, source e = p ∨ target e = p) (port_edges (getPort state p)) →
  port_edges (getPort (removeNode state node propagate).1 p) = [].
Proof.
  intros Hp Hends.
  assert (Hport : getPort (removeNode state node propagate).1 p
            = getPort (removeEdges state (getAllEdges state node)) p)
    by (by destruct propagate).
  rewrite Hport, getPort_removeEdges. cbn [port_edges with_port_edges].
  apply filter_bool_nil. intros e He. apply negb_false_iff. apply detached_self.
  - apply elem_of_getAllEdges. eauto.
  - rewrite Forall_forall in Hends. by apply Hends.
Qed.

(** [disconnectPort] returns the edges of the port and leaves the port
    without edge, when the edges found at it reference it; no port gains
    an edge.  Each edge is removed from the canvas, and with [propagate]
    one recomputation follows, of the node of the port when it is an input
    port and of the nodes that were connected to it otherwise. *)
Theorem disconnectPort_detaches state port propagate :
  Forall (λ e, source e = port ∨ target e = port) (port_edges (getPort state port)) →
  let result := disconnectPort state port propagate in
  result.2 = port_edges (getPort state port)
  ∧ port_edges (getPort result.1 port) = []
  ∧ (∀ p e, e ∈ port_edges (getPort result.1 p) → e ∈ port_edges (getPort state p))
  ∧ nodes result.1 = nodes state
  ∧ effects result.1
    = effects state
      ++ map CanvasRemoveEdge (port_edges (getPort state port))
      ++ (if propagate
          then [PropagateNodes
                  (if isInput (getPort state port)
                   then [port_node (getPort state port)]
                   else getConnectedNodes state port)]
          else []).
Proof.
  intros Hends result.
  assert (Hport : ∀ p, getPort result.1 p
            = getPort (removeEdges state (port_edges (getPort state port))) p)
    by (intros p; subst result; unfold disconnectPort; by destruct propagate).
  split_and!.
  - reflexivity.
  - rewrite Hport, getPort_removeEdges. cbn [port_edges with_port_edges].
    apply filter_bool_nil. intros e He. apply negb_false_iff.
    apply detached_self; [done|]. rewrite Forall_forall in Hends. by apply Hends.
  - intros p e. rewrite Hport, getPort_removeEdges. cbn [port_edges with_port_edges].
    rewrite elem_of_filter_bool. tauto.
  - subst result. unfold disconnectPort. destruct propagate; cbn [fst nodes emit];
      apply nodes_removeEdges.
  - subst result. unfold disconnectPort, port_getAllEdges.
    destruct propagate; cbn [fst effects emit]; rewrite effects_removeEdges;
      by rewrite <- ?app_assoc, ?app_nil_r.
Qed.

Lemma filter_const_true {A} (l : list A) : List.filter (λ _, true) l = l.
Proof. induction l as [|x l IH]; [done|]. cbn. by rewrite IH. Qed.

(** The nodes that [resetDataflow] removes one after the other. *)
Lemma removeAll_spec (todo : list NodeRef) :
  ∀ state,
    let state' := foldl (λ state node, (removeNode state node false).1) state todo in
    nodeObjs state' = nodeObjs state
    ∧ nextRef state' = nextRef state
    ∧ (∀ x, x ∈ nodes state' ↔ x ∈ nodes state ∧ x ∉ todo)
    ∧ propagations (effects state') = propagations (effects state)
    ∧ (∀ p, ∃ f, getPort state' p = with_port_edges (List.filter f) (getPort state p))
    ∧ (∀ n p, n ∈ todo → p ∈ portsOf state n →
          Forall (λ e, source e = p ∨ target e = p) (port_edges (getPort state p)) →
          port_edges (getPort state' p) = []).
Proof.
  induction todo as [|n todo IH]; intros state; cbv zeta.
  - cbn [foldl]. split_and!; try done.
    + intros x. rewrite elem_of_nil. tauto.
    + intros p. exists (λ _, true). destruct (getPort state p). unfold with_port_edges. cbn.
      by rewrite filter_const_true.
    + intros n p Hn. by apply elem_of_nil in Hn.
  - cbn [foldl].
    destruct (IH (removeNode state n false).1)
      as (Hobjs & Hnext & Hnodes & Hprop & Hports & Hempty).
    cbv zeta in *.
    remember (foldl (λ state node, (removeNode state node false).1)
                    (removeNode state n false).1 todo) as state' eqn:Hs'.
    clear Hs'.
    assert (Hstep : ∀ p, getPort (removeNode state n false).1 p
              = with_port_edges
                  (List.filter (λ e', negb (detached (getAllEdges state n) p e')))
                  (getPort state p)).
    { intros p. rewrite removeNode_false. cbn [fst]. apply getPort_removeEdges. }
    assert (Hobjs1 : nodeObjs (removeNode state n false).1 = nodeObjs state).
    { rewrite removeNode_false. cbn [fst]. apply nodeObjs_removeEdges. }
    split_and!.
    + by rewrite Hobjs.
    + rewrite Hnext, removeNode_false. cbn [fst]. apply nextRef_removeEdges.
    + intros x. rewrite Hnodes. rewrite removeNode_false. cbn [fst nodes emit set_nodes].
      rewrite nodes_removeEdges, elem_of_pull, elem_of_cons. tauto.
    + rewrite Hprop, removeNode_false. cbn [fst effects emit set_nodes].
      rewrite effects_removeEdges, !propagations_app. cbn.
      rewrite app_nil_r.
      assert (Hnone : ∀ es, propagations (map CanvasRemoveEdge es) = [])
        by (induction es; [done|]; cbn; done).
      by rewrite Hnone, app_nil_r.
    + intros p. destruct (Hports p) as [f Hf]. rewrite Hf, Hstep.
      eexists. destruct (getPort state p). unfold with_port_edges. cbn.
      by rewrite filter_twice.
    + intros m p Hm Hp Hends.
      apply elem_of_cons in Hm as [->|Hm].
      * destruct (Hports p) as [f Hf]. rewrite Hf. cbn [port_edges with_port_edges].
        by rewrite (removeNode_empties_port state n false p Hp Hends).
      * apply (Hempty m p Hm).
        -- unfold portsOf, getNode. rewrite Hobjs1. exact Hp.
        -- rewrite Hstep. cbn [port_edges with_port_edges].
           apply Forall_forall. intros e He. apply elem_of_filter_bool in He as [He _].
           rewrite Forall_forall in Hends. by apply Hends.
Qed.

Lemma effects_removeAll (todo : list NodeRef) :
  ∀ state,
    List.filter (λ e, match e with CanvasRemoveNode _ => true | _ => false end)
                (effects (foldl (λ state node, (removeNode state node false).1) state todo))
    = List.filter (λ e, match e with CanvasRemoveNode _ => true | _ => false end)
                  (effects state)
      ++ map CanvasRemoveNode todo.
Proof.
  induction todo as [|n todo IH]; intros state.
  - cbn. by rewrite app_nil_r.
  - cbn [foldl]. rewrite IH, removeNode_false. cbn [fst effects emit set_nodes].
    rewrite effects_removeEdges, !List.filter_app. cbn.
    assert (Hnone : ∀ es, List.filter
              (λ e, match e with CanvasRemoveNode _ => true | _ => false end)
              (map CanvasRemoveEdge es) = [])
      by (induction es; [done|]; cbn; done).
    by rewrite Hnone, app_nil_r, <- app_assoc.
Qed.

(** [resetDataflow] leaves a fresh diagram: no node, the name and the
    counters of a new diagram, the flag of deserialization off.  Each node
    was taken off the canvas once, in the order of the diagram; nothing
    was propagated; the history is cleared last.  The objects are not
    touched but for the edges at the ports: no port gains an edge, and a
    port of a node of the diagram whose edges referenced it has none left. *)
Theorem resetDataflow_clears state :
  let state' := resetDataflow state in
  nodes state' = []
  ∧ diagramName state' = initialDiagramName
  ∧ numNodeLayers state' = 0
  ∧ isDeserializing state' = false
  ∧ nodeObjs state' = nodeObjs state
  ∧ propagations (effects state') = propagations (effects state)
  ∧ last (effects state') = Some HistoryClear
  ∧ List.filter (λ e, match e with CanvasRemoveNode _ => true | _ => false end)
                (effects state')
    = List.filter (λ e, match e with CanvasRemoveNode _ => true | _ => false end)
                  (effects state)
      ++ map CanvasRemoveNode (nodes state)
  ∧ (∀ p e, e ∈ port_edges (getPort state' p) → e ∈ port_edges (getPort state p))
  ∧ (∀ p, p ∈ diagramPorts state →
          Forall (λ e, source e = p ∨ target e = p) (port_edges (getPort state p)) →
          port_edges (getPort state' p) = []).
Proof.
  cbv zeta. unfold resetDataflow.
  destruct (removeAll_spec (nodes state) state)
    as (Hobjs & _ & _ & Hprop & Hports & Hempty).
  pose proof (effects_removeAll (nodes state) state) as Hcanvas.
  cbv zeta in *.
  remember (foldl (λ state node, (removeNode state node false).1) state (nodes state))
    as state1 eqn:Hs1.
  clear Hs1. split_and!; try done.
  - cbn [effects emit resetFields]. rewrite propagations_app. cbn.
    by rewrite app_nil_r.
  - cbn [effects emit resetFields]. by rewrite last_snoc.
  - cbn [effects emit resetFields]. rewrite List.filter_app. cbn.
    by rewrite app_nil_r.
  - intros p e. change (getPort (emit HistoryClear (resetFields state1)) p)
      with (getPort state1 p).
    destruct (Hports p) as [f ->]. cbn [port_edges with_port_edges].
    rewrite elem_of_filter_bool. tauto.
  - intros p Hp Hends. apply elem_of_diagramPorts in Hp as (n & Hn & Hp).
    change (getPort (emit HistoryClear (resetFields state1)) p)
      with (getPort state1 p).
    by apply (Hempty n p).
Qed.



(** A node spliced into an edge: when the node has an input port that the
    source of the edge can be connected to and an output port that can be
    connected to the target, the edge is replaced by two edges through the
    node, made in this order, and only the original source port is
    propagated, once both edges are there. *)
Theorem insertNodeOnEdge_splices state node edge inPort outPort :
  let state1 := removeEdge state edge false in
  let e1 := mkEdge (nextRef state) (source edge) inPort in
  let e2 := mkEdge (S (nextRef state)) outPort (target edge) in
  findConnectablePort state1 node (target edge) = Some outPort →
  findConnectablePort state1 node (source edge) = Some inPort →
  isInput (getPort state (source edge)) = false →
  isInput (getPort state outPort) = false →
  connectable (checkEdgeConnectivity state1 (source edge) inPort) = true →
  connectable
    (checkEdgeConnectivity (createEdge state1 (source edge) inPort false None).1
                           outPort (target edge)) = true →
  let result := insertNodeOnEdge state node edge in
  createdEdges result.2 = [e1; e2]
  ∧ removedEdge result.2 = edge
  ∧ effects result.1
    = effects state
      ++ [CanvasRemoveEdge edge; CanvasAddEdge e1; CanvasAddEdge e2;
          PropagatePort (source edge)].
Proof.
  intros state1 e1 e2 Hout Hin HsrcOut HoutOut Hc1 Hc2 result.
  assert (Hstatic1 : ∀ p, isInput (getPort state1 p) = isInput (getPort state p)).
  { intros p. subst state1. rewrite getPort_removeEdge.
    repeat case_decide; by destruct (getPort state p). }
  assert (Hr1 : createEdge state1 (source edge) inPort false None
                = (emit (CanvasAddEdge e1)
                     (addIncidentEdge inPort e1
                        (addIncidentEdge (source edge) e1
                           (set_nextRef (S (nextRef state1)) state1))), Some e1)).
  { rewrite (createEdge_accepted _ _ _ false None Hc1). cbv zeta.
    by rewrite Hstatic1, HsrcOut. }
  rewrite Hr1 in Hc2. cbn [fst] in Hc2.
  set (state2 := emit (CanvasAddEdge e1)
                   (addIncidentEdge inPort e1
                      (addIncidentEdge (source edge) e1
                         (set_nextRef (S (nextRef state1)) state1)))) in *.
  assert (Hstatic2 : isInput (getPort state2 outPort) = false).
  { subst state2. rewrite getPort_emit. unfold addIncidentEdge.
    by rewrite !isInput_updPort_edges, getPort_set_nextRef, Hstatic1. }
  assert (Hr2 : createEdge state2 outPort (target edge) false (Some (mkEdgeOptions true))
                = (emit (CanvasAddEdge e2)
                     (addIncidentEdge (target edge) e2
                        (addIncidentEdge outPort e2
                           (set_nextRef (S (nextRef state2)) state2))), Some e2)).
  { rewrite (createEdge_accepted _ _ _ false _ Hc2). cbv zeta.
    by rewrite Hstatic2. }
  subst result. unfold insertNodeOnEdge. fold state1. rewrite Hout.
  unfold createEdgeToNode. rewrite Hin, Hr1. fold state2. rewrite Hr2.
  cbn [fst snd createdEdges removedEdge omap list_omap effects emit].
  split_and!; [done | done |].
  cbn. by rewrite <- !app_assoc.
Qed.

End MutatorFacts.

Lemma getNodeDataOnCreate_pairs_witness :
  getNodeDataOnCreate (mkCreateNodeOptions "filter" (Some 3) (Some 4) (Some 9) None false)
  = mkCreateNodeData (Some 3) (Some 4) None None.
Proof.
  apply (getNodeDataOnCreate_pairs
           (mkCreateNodeOptions "filter" (Some 3) (Some 4) (Some 9) None false));
    cbn; eauto.
Defined.

Lemma disconnectPort_detaches_witness :
  let result := disconnectPort Demo.pipeline 4%nat true in
  result.2 = [mkEdge 8 4 6]
  ∧ port_edges (getPort result.1 4%nat) = []
  ∧ effects result.1
    = effects Demo.pipeline ++ [CanvasRemoveEdge (mkEdge 8 4 6); PropagateNodes [5%nat]].
Proof.
  assert (Hedges : port_edges (getPort Demo.pipeline 4%nat) = [mkEdge 8 4 6])
    by (vm_compute; reflexivity).
  assert (Hinput : isInput (getPort Demo.pipeline 4%nat) = false)
    by (vm_compute; reflexivity).
  assert (Hconn : getConnectedNodes Demo.pipeline 4%nat = [5%nat])
    by (vm_compute; reflexivity).
  pose proof (disconnectPort_detaches Demo.pipeline 4%nat true) as Hthm.
  rewrite Hedges, Hinput, Hconn in Hthm. cbv zeta in Hthm.
  destruct Hthm as (Hret & Hempty & _ & _ & Heff).
  { constructor; [by left | constructor]. }
  cbv zeta. split_and!; [exact Hret | exact Hempty | exact Heff].
Defined.

Lemma resetDataflow_clears_witness :
  4%nat ∈ diagramPorts Demo.pipeline
  ∧ port_edges (getPort Demo.pipeline 4%nat) = [mkEdge 8 4 6]
  ∧ port_edges (getPort (@resetDataflow Demo.collaborators Demo.pipeline) 4%nat) = [].
Proof.
  assert (Hp : 4%nat ∈ diagramPorts Demo.pipeline)
    by (apply (bool_decide_unpack _); vm_compute; exact I).
  assert (Hedges : port_edges (getPort Demo.pipeline 4%nat) = [mkEdge 8 4 6])
    by (vm_compute; reflexivity).
  split; [exact Hp|]. split; [exact Hedges|].
  destruct (@resetDataflow_clears Demo.collaborators Demo.pipeline)
    as (_ & _ & _ & _ & _ & _ & _ & _ & _ & Hempty).
  apply Hempty; [exact Hp|]. rewrite Hedges.
  constructor; [by left | constructor].
Defined.

Lemma insertNodeOnEdge_splices_witness :
  let result := @insertNodeOnEdge Demo.collaborators Demo.connected 7%nat (mkEdge 4 1 3) in
  createdEdges result.2 = [mkEdge 10 1 8; mkEdge 11 9 3]
  ∧ removedEdge result.2 = mkEdge 4 1 3
  ∧ effects result.1
    = effects Demo.connected
      ++ [CanvasRemoveEdge (mkEdge 4 1 3); CanvasAddEdge (mkEdge 10 1 8);
          CanvasAddEdge (mkEdge 11 9 3); PropagatePort 1].
Proof.
  apply (@insertNodeOnEdge_splices Demo.collaborators Demo.connected 7%nat
           (mkEdge 4 1 3) 8%nat 9%nat); vm_compute; reflexivity.
Defined.

Lemma removeEdge_createEdge_witness :
  let made := @createEdge Demo.collaborators Demo.connected 6%nat 8%nat false None in
  made.2 = Some (mkEdge 10 6 8)
  ∧ port_edges (getPort made.1 8%nat) = [mkEdge 10 6 8]
  ∧ (∀ p, getPort (removeEdge made.1 (mkEdge 10 6 8) false) p = getPort Demo.connected p)
  ∧ nextRef (removeEdge made.1 (mkEdge 10 6 8) false) = 11%nat.
Proof.
  intros made.
  assert (Hsnd : made.2 = Some (mkEdge 10 6 8)) by (vm_compute; reflexivity).
  assert (Hrun : @createEdge Demo.collaborators Demo.connected 6%nat 8%nat false None
                 = (made.1, Some (mkEdge 10 6 8))).
  { apply injective_projections; [reflexivity | vm_compute; reflexivity]. }
  assert (Hfresh : Forall (λ e, eid e ≠ nextRef Demo.connected)
            (port_edges (getPort Demo.connected 6%nat)
             ++ port_edges (getPort Demo.connected 8%nat)))
    by (apply (bool_decide_unpack _); vm_compute; exact I).
  assert (Hat : port_edges (getPort made.1 8%nat) = [mkEdge 10 6 8])
    by (vm_compute; reflexivity).
  assert (Hnext : nextRef Demo.connected = 10%nat) by (vm_compute; reflexivity).
  clearbody made.
  destruct (@removeEdge_createEdge Demo.collaborators Demo.connected 6%nat 8%nat
              false None made.1 (mkEdge 10 6 8) Hrun Hfresh)
    as (_ & Hports & _ & _ & Hused).
  rewrite Hnext in Hused. split_and!; [exact Hsnd | exact Hat | exact Hports | exact Hused].
Defined.

(** * Reading a saved diagram *)

Section ReadingFacts.
Context `{Collaborators}.

Lemma resetDataflow_fields state :
  nodes (resetDataflow state) = []
  ∧ diagramName (resetDataflow state) = initialDiagramName
  ∧ propagations (effects (resetDataflow state)) = propagations (effects state).
Proof.
  unfold resetDataflow.
  destruct (removeAll_spec (nodes state) state) as (_ & _ & _ & Hprop & _).
  cbv zeta in Hprop. split_and!; try done.
  cbn [effects emit resetFields]. rewrite propagations_app. cbn.
  by rewrite app_nil_r.
Qed.

Lemma fields_newPorts owner input first specs state :
  diagramName (newPorts owner input first specs state) = diagramName state
  ∧ numNodeLayers (newPorts owner input first specs state) = numNodeLayers state
  ∧ isDeserializing (newPorts owner input first specs state) = isDeserializing state.
Proof.
  revert first state. induction specs as [|sp specs IH]; intros first state; [done|].
  cbn [newPorts]. destruct (IH (S first)
    (set_portObjs (insert first (mkPort (spec_id sp) owner input (spec_isMultiple sp)
                                        (spec_tag sp) [])) state)) as (-> & -> & ->).
  done.
Qed.

Lemma deserializeNode_fields state created sv :
  let result := deserializeNode (state, created) sv in
  diagramName result.1 = diagramName state
  ∧ numNodeLayers result.1 = numNodeLayers state
  ∧ isDeserializing result.1 = isDeserializing state
  ∧ propagations (effects result.1) = propagations (effects state).
Proof.
  cbv zeta. unfold deserializeNode, createNode, newNode.
  cbn [opt_type opt_activate]. cbv zeta.
  set (c := getConstructor (save_type sv)).
  set (s2 := newPorts (nextRef state) false (S (nextRef state) + length (class_inputs c))
               (class_outputs c)
               (newPorts (nextRef state) true (S (nextRef state)) (class_inputs c) state)).
  assert (Hfields : diagramName s2 = diagramName state
            ∧ numNodeLayers s2 = numNodeLayers state
            ∧ isDeserializing s2 = isDeserializing state
            ∧ effects s2 = effects state).
  { subst s2.
    destruct (fields_newPorts (nextRef state) false
                (S (nextRef state) + length (class_inputs c)) (class_outputs c)
                (newPorts (nextRef state) true (S (nextRef state)) (class_inputs c) state))
      as (-> & -> & ->).
    destruct (fields_newPorts (nextRef state) true (S (nextRef state))
                (class_inputs c) state) as (-> & -> & ->).
    by rewrite !effects_newPorts. }
  destruct Hfields as (Hname & Hlayers & Hflag & Heff).
  clearbody s2.
  case_bool_decide; cbn; rewrite ?Hname, ?Hlayers, ?Hflag, ?Heff;
    rewrite ?propagations_app; cbn; by rewrite ?app_nil_r.
Qed.

Lemma deserializeNodes_fields svs :
  ∀ state created,
    let result := foldl deserializeNode (state, created) svs in
    diagramName result.1 = diagramName state
    ∧ numNodeLayers result.1 = numNodeLayers state
    ∧ isDeserializing result.1 = isDeserializing state
    ∧ propagations (effects result.1) = propagations (effects state)
    ∧ (nodes state = created → nodes result.1 = result.2).
Proof.
  induction svs as [|sv svs IH]; intros state created; cbv zeta; [done|].
  cbn [foldl].
  pose proof (deserializeNode_fields state created sv) as Hstep.
  pose proof (deserializeNode_spec state created sv) as Hspec.
  cbv zeta in Hstep, Hspec.
  destruct (deserializeNode (state, created) sv) as [s1 created1].
  cbn [fst snd] in Hstep, Hspec.
  destruct Hstep as (Hn & Hl & Hf & Hp). destruct Hspec as (Hc & Hnodes & _).
  destruct (IH s1 created1) as (-> & -> & -> & -> & Hsame).
  split_and!; try done. intros Heq. apply Hsame. by rewrite Hnodes, Hc, Heq.
Qed.

Lemma deserializeEdge_fields state edgeSave state' :
  deserializeEdge state edgeSave = Some state' →
  nodes state' = nodes state
  ∧ nodeObjs state' = nodeObjs state
  ∧ diagramName state' = diagramName state
  ∧ numNodeLayers state' = numNodeLayers state
  ∧ isDeserializing state' = isDeserializing state
  ∧ propagations (effects state') = propagations (effects state).
Proof.
  unfold deserializeEdge. intros Hrun.
  destruct (findNodeById state (sourceNodeId edgeSave)) as [sn|]; [|done].
  destruct (findNodeById state (targetNodeId edgeSave)) as [tn|]; [|done].
  cbn [mbind option_bind] in Hrun.
  destruct (getOutputPort state sn (sourcePortId edgeSave)) as [sp|]; [|done].
  destruct (getInputPort state tn (targetPortId edgeSave)) as [tp|]; [|done].
  cbn [mbind option_bind] in Hrun. injection Hrun as <-.
  destruct (nodes_createEdge state sp tp false None) as (-> & -> & -> & -> & ->).
  split_and!; try done.
  unfold createEdge.
  destruct (connectable (checkEdgeConnectivity state sp tp)); cbn;
    rewrite ?propagations_app; cbn; by rewrite ?app_nil_r.
Qed.

Lemma deserializeEdges_fields edges :
  ∀ state state',
    deserializeEdges state edges = Some state' →
    nodes state' = nodes state
    ∧ nodeObjs state' = nodeObjs state
    ∧ diagramName state' = diagramName state
    ∧ numNodeLayers state' = numNodeLayers state
    ∧ isDeserializing state' = isDeserializing state
    ∧ propagations (effects state') = propagations (effects state).
Proof.
  induction edges as [|es edges IH]; intros state state' Hrun.
  - cbn in Hrun. by injection Hrun as <-.
  - rewrite deserializeEdges_cons in Hrun.
    destruct (deserializeEdge state es) as [s1|] eqn:Hstep; [|done].
    cbn [mbind option_bind] in Hrun.
    destruct (IH s1 state' Hrun) as (-> & -> & -> & -> & -> & ->).
    by apply deserializeEdge_fields in Hstep.
Qed.

Lemma ids_of_instances state ns svs :
  Forall2 (instanceOf state) ns svs →
  map (λ n, node_id (getNode state n)) ns = map save_id svs.
Proof.
  induction 1 as [|n sv ns svs Hn _ IH]; [done|].
  cbn [map]. f_equal; [|exact IH]. by destruct Hn as (Hid & _).
Qed.

Lemma maxLayer_bound (layers : list Z) : Forall (λ l, l ≤ maxLayer layers) layers.
Proof.
  destruct layers as [|l ls]; [constructor|]. cbn [maxLayer].
  assert (Hfold : ∀ ls a, a ≤ foldl Z.max a ls ∧ Forall (λ l, l ≤ foldl Z.max a ls) ls).
  { clear. induction ls as [|x ls IH]; intros a; cbn [foldl]; [split; [lia|constructor]|].
    destruct (IH (Z.max a x)) as [Ha Hls]. split; [lia|]. constructor; [lia|done]. }
  destruct (Hfold ls l). by constructor.
Qed.

(** A diagram that was read: it has the name of a fresh diagram, not the
    saved name; its number of layers is the largest saved layer (0 for no
    node), its nodes carry the saved ids in the saved order, whatever the
    diagram held before; the flag of deserialization is off again.  One
    propagation was asked for in all, at the very end: that of the nodes
    read whose class starts propagations. *)
Theorem deserializeDiagram_result state diagram state' :
  deserializeDiagram state diagram = Some state' →
  let sources :=
    List.filter (λ node, isPropagationSource (getNode state' node)) (nodes state') in
  diagramName state' = initialDiagramName
  ∧ numNodeLayers state' = maxLayer (map save_layer (save_nodes diagram))
  ∧ Forall (λ sv, save_layer sv ≤ numNodeLayers state') (save_nodes diagram)
  ∧ isDeserializing state' = false
  ∧ nodeIds state' = map save_id (save_nodes diagram)
  ∧ propagations (effects state')
    = propagations (effects state) ++ [PropagateNodes sources]
  ∧ last (effects state') = Some (PropagateNodes sources).
Proof.
  unfold deserializeDiagram. intros Hrun.
  destruct (resetDataflow_fields state) as (Hn0 & Hname0 & Hprop0).
  remember (set_isDeserializing true (resetDataflow state)) as s0 eqn:Hs0eq.
  assert (Hn0' : nodes s0 = []) by (by subst s0).
  assert (Hname0' : diagramName s0 = initialDiagramName) by (by subst s0).
  assert (Hprop0' : propagations (effects s0) = propagations (effects state))
    by (by subst s0).
  clear Hn0 Hname0 Hprop0 Hs0eq.
  assert (Hs0 : rebuilt s0 []).
  { unfold rebuilt, diagramPorts, outputPortsAll. rewrite Hn0'. split_and!; constructor. }
  pose proof (rebuilt_deserializeNodes (save_nodes diagram) s0 [] [] Hs0) as Hs1.
  destruct (deserializeNodes_fields (save_nodes diagram) s0 [])
    as (Hname1 & Hlayers1 & _ & Hprop1 & Hcreated).
  cbv zeta in *.
  destruct (foldl deserializeNode (s0, []) (save_nodes diagram)) as [s1 created].
  cbn [fst snd app] in *. specialize (Hcreated Hn0'). subst created.
  destruct (deserializeEdges
              (set_numNodeLayers (maxLayer (map save_layer (save_nodes diagram))) s1)
              (save_edges diagram)) as [s2|] eqn:Hedges; [|done].
  cbn [mbind option_bind] in Hrun. injection Hrun as <-.
  apply deserializeEdges_fields in Hedges
    as (Hnodes2 & Hobjs2 & Hname2 & Hlayers2 & _ & Hprop2).
  cbn [nodes diagramName numNodeLayers nodeObjs effects set_numNodeLayers] in *.
  assert (Hget : ∀ n, getNode (emit (PropagateNodes
              (List.filter (λ node, isPropagationSource (getNode s1 node)) (nodes s1)))
              (set_isDeserializing false s2)) n = getNode s1 n).
  { intros n. unfold getNode. cbn. by rewrite Hobjs2. }
  assert (Hsrc : List.filter (λ node, isPropagationSource (getNode (emit (PropagateNodes
              (List.filter (λ node, isPropagationSource (getNode s1 node)) (nodes s1)))
              (set_isDeserializing false s2)) node)) (nodes s2)
            = List.filter (λ node, isPropagationSource (getNode s1 node)) (nodes s1)).
  { rewrite Hnodes2. apply filter_ext_elem_of. intros n _. by rewrite Hget. }
  cbv zeta. cbn [nodes emit set_isDeserializing]. rewrite Hsrc.
  split_and!.
  - cbn. by rewrite Hname2, Hname1.
  - cbn. exact Hlayers2.
  - cbn. rewrite Hlayers2.
    pose proof (maxLayer_bound (map save_layer (save_nodes diagram))) as Hb.
    rewrite Forall_forall in Hb. apply Forall_forall. intros sv Hsv.
    apply Hb. apply elem_of_map. eauto.
  - done.
  - unfold nodeIds. cbn [nodes emit set_isDeserializing]. rewrite Hnodes2.
    destruct Hs1 as (Hinst & _).
    rewrite <- (ids_of_instances s1 (nodes s1) (save_nodes diagram) Hinst).
    apply map_ext. intros n. by rewrite Hget.
  - cbn [effects emit set_isDeserializing]. rewrite propagations_app. cbn.
    by rewrite Hprop2, Hprop1, Hprop0'.
  - cbn [effects emit set_isDeserializing]. by rewrite last_snoc.
Qed.

Lemma findNodeById_unknown state id :
  id ∉ nodeIds state → findNodeById state id = None.
Proof.
  unfold findNodeById, nodeIds. induction (nodes state) as [|n ns IH]; [done|].
  cbn [map List.find]. intros Hid. apply not_elem_of_cons in Hid as [Hne Hid].
  case_bool_decide; [congruence|]. by apply IH.
Qed.

Lemma deserializeEdges_unknown edges edgeSave :
  ∀ state,
    edgeSave ∈ edges →
    sourceNodeId edgeSave ∉ nodeIds state ∨ targetNodeId edgeSave ∉ nodeIds state →
    deserializeEdges state edges = None.
Proof.
  induction edges as [|es edges IH]; intros state Hin Hid.
  - by apply elem_of_nil in Hin.
  - rewrite deserializeEdges_cons.
    destruct (deserializeEdge state es) as [s1|] eqn:Hstep; [|done].
    cbn [mbind option_bind].
    apply elem_of_cons in Hin as [->|Hin].
    + exfalso. unfold deserializeEdge in Hstep. destruct Hid as [Hid|Hid].
      * by rewrite (findNodeById_unknown _ _ Hid) in Hstep.
      * rewrite (findNodeById_unknown _ _ Hid) in Hstep.
        by destruct (findNodeById state (sourceNodeId es)).
    + apply IH; [done|].
      apply deserializeEdge_fields in Hstep as (Hnodes & Hobjs & _).
      unfold nodeIds, getNode. by rewrite Hnodes, Hobjs.
Qed.

(** A saved edge that names a node id no saved node has makes
    [deserializeDiagram] fail, on the lookup of the port of a node that
    was not found, wherever the edge is in the list. *)
Theorem deserializeDiagram_unknown_node state diagram edgeSave :
  edgeSave ∈ save_edges diagram →
  sourceNodeId edgeSave ∉ map save_id (save_nodes diagram)
  ∨ targetNodeId edgeSave ∉ map save_id (save_nodes diagram) →
  deserializeDiagram state diagram = None.
Proof.
  intros Hin Hid. unfold deserializeDiagram.
  destruct (resetDataflow_fields state) as (Hn0 & _).
  remember (set_isDeserializing true (resetDataflow state)) as s0 eqn:Hs0eq.
  assert (Hn0' : nodes s0 = []) by (by subst s0).
  clear Hn0 Hs0eq.
  assert (Hs0 : rebuilt s0 []).
  { unfold rebuilt, diagramPorts, outputPortsAll. rewrite Hn0'. split_and!; constructor. }
  pose proof (rebuilt_deserializeNodes (save_nodes diagram) s0 [] [] Hs0) as Hs1.
  destruct (foldl deserializeNode (s0, []) (save_nodes diagram)) as [s1 created].
  cbn [fst snd app] in *. destruct Hs1 as (Hinst & _).
  rewrite (deserializeEdges_unknown (save_edges diagram) edgeSave); [done|done|].
  change (nodeIds (set_numNodeLayers (maxLayer (map save_layer (save_nodes diagram))) s1))
    with (map (λ n, node_id (getNode s1 n)) (nodes s1)).
  by rewrite (ids_of_instances s1 (nodes s1) (save_nodes diagram) Hinst).
Qed.

(** With no node selected, [removeSelectedNodes] removes nothing and
    returns two empty lists; the propagation engine is still called, with
    no node. *)
Theorem removeSelectedNodes_none_selected state :
  Forall (λ node, isSelected (getNode state node) = false) (nodes state) →
  removeSelectedNodes state = (emit (PropagateNodes []) state, mkRemoved [] []).
Proof.
  intros Hnone. unfold removeSelectedNodes.
  assert (Hsel : List.filter (λ node, isSelected (getNode state node)) (nodes state) = []).
  { apply filter_bool_nil. intros n Hn. rewrite Forall_forall in Hnone. by apply Hnone. }
  by rewrite Hsel.
Qed.

(** [createNode] files the new node last in the diagram and on the canvas,
    with the data the options give; a class whose type is not the type
    asked for is reported on the console, and the node is still created.
    The node is active and selected exactly when the options ask for it. *)
Theorem createNode_registers state options nodeSave :
  let result := createNode state options nodeSave in
  let node := result.2 in
  let class := getConstructor (opt_type options) in
  node = nextRef state
  ∧ nodes result.1 = nodes state ++ [node]
  ∧ nodeType (getNode result.1 node) = NODE_TYPE class
  ∧ dataOnCreate (getNode result.1 node) = getNodeDataOnCreate options
  ∧ isActive (getNode result.1 node) = opt_activate options
  ∧ isSelected (getNode result.1 node) = opt_activate options
  ∧ effects result.1
    = effects state
      ++ (if bool_decide (NODE_TYPE class ≠ opt_type options)
          then [ConsoleError ("NODE_TYPE not set on node " +:+ opt_type options)]
          else [])
      ++ [CanvasAddNode node].
Proof.
  cbv zeta. unfold createNode, newNode. cbv zeta.
  set (c := getConstructor (opt_type options)).
  set (r := nextRef state).
  set (s2 := newPorts r false (S r + length (class_inputs c)) (class_outputs c)
               (newPorts r true (S r) (class_inputs c) state)).
  assert (Hs2 : nodes s2 = nodes state ∧ effects s2 = effects state).
  { subst s2. by rewrite !nodes_newPorts, !effects_newPorts. }
  destruct Hs2 as [Hnodes Heff]. clearbody s2.
  unfold getNode.
  destruct nodeSave as [sv|], (opt_activate options);
    cbn; rewrite ?lookup_total_insert_eq; cbn;
    rewrite ?lookup_total_insert_eq; cbn;
    case_bool_decide; cbn;
    rewrite ?lookup_total_insert_eq; cbn; rewrite ?lookup_total_insert_eq; cbn;
    rewrite ?Hnodes, ?Heff, <- ?app_assoc; split_and!; done.
Qed.

End ReadingFacts.

Lemma deserializeDiagram_result_witness :
  let diagram :=
    mkDiagramSave "imported"
      [mkNodeSave "node-1" "data-source" 0 10 10; mkNodeSave "node-4" "chart" 3 90 10]
      [mkEdgeSave "node-1" "out" "node-4" "in"] in
  ∃ state', @deserializeDiagram Demo.collaborators Demo.connected diagram = Some state'
            ∧ diagramName state' = ""
            ∧ numNodeLayers state' = 3
            ∧ nodeIds state' = ["node-1"; "node-4"]
            ∧ last (effects state') = Some (PropagateNodes [10%nat]).
Proof.
  intros diagram.
  destruct (@deserializeDiagram Demo.collaborators Demo.connected diagram)
    as [state'|] eqn:Hrun; [|vm_compute in Hrun; discriminate].
  exists state'. split; [reflexivity|].
  destruct (@deserializeDiagram_result Demo.collaborators Demo.connected diagram state' Hrun)
    as (Hname & Hlayers & _ & _ & Hids & _ & Hlast).
  assert (Hsrc : List.filter (λ node, isPropagationSource (getNode state' node))
                             (nodes state') = [10%nat]).
  { assert (Hs : Some state' = Some state') by reflexivity.
    rewrite <- Hrun in Hs at 1. vm_compute in Hs. injection Hs as <-. reflexivity. }
  rewrite Hsrc in Hlast. split_and!; [exact Hname | exact Hlayers | exact Hids | exact Hlast].
Defined.

Lemma deserializeDiagram_unknown_node_witness :
  @deserializeDiagram Demo.collaborators Demo.connected
    (mkDiagramSave "imported"
       [mkNodeSave "node-1" "data-source" 0 10 10]
       [mkEdgeSave "node-1" "out" "node-9" "in"])
  = None.
Proof.
  apply (@deserializeDiagram_unknown_node Demo.collaborators Demo.connected
           (mkDiagramSave "imported"
              [mkNodeSave "node-1" "data-source" 0 10 10]
              [mkEdgeSave "node-1" "out" "node-9" "in"])
           (mkEdgeSave "node-1" "out" "node-9" "in")).
  - apply list_elem_of_singleton. reflexivity.
  - right. apply (bool_decide_unpack _). vm_compute. exact I.
Defined.

Lemma removeSelectedNodes_none_selected_witness :
  removeSelectedNodes Demo.pipeline
  = (emit (PropagateNodes []) Demo.pipeline, mkRemoved [] []).
Proof.
  apply (removeSelectedNodes_none_selected Demo.pipeline).
  apply (bool_decide_unpack _). vm_compute. exact I.
Defined.

(** * Consistency of the graph under the operations *)

Section Consistency.
Context `{Collaborators}.

Local Abbreviation E s p := (port_edges (getPort s p)).

Lemma elem_of_diagramEdges_port s e :
  e ∈ diagramEdges s ↔ ∃ p, p ∈ diagramPorts s ∧ e ∈ E s p.
Proof.
  rewrite elem_of_diagramEdges. split.
  - intros (n & p & Hn & Hp & He). exists p. split; [|done].
    apply elem_of_diagramPorts. eauto.
  - intros (p & Hp & He). apply elem_of_diagramPorts in Hp as (n & Hn & Hp). eauto.
Qed.

(** Consistency, by membership. *)
Lemma consistent_spec s :
  consistent s ↔
  NoDup (nodes s)
  ∧ (∀ n, n ∈ nodes s → (n < nextRef s)%nat)
  ∧ (∀ p, p ∈ diagramPorts s → (p < nextRef s)%nat)
  ∧ (∀ n p, n ∈ nodes s → p ∈ portsOf s n → port_node (getPort s p) = n)
  ∧ (∀ p e, p ∈ diagramPorts s → e ∈ E s p → edgeLinked s p e)
  ∧ (∀ e, e ∈ diagramEdges s → source e ∈ diagramPorts s ∧ target e ∈ diagramPorts s)
  ∧ (∀ e, e ∈ diagramEdges s → (eid e < nextRef s)%nat)
  ∧ (∀ e e', e ∈ diagramEdges s → e' ∈ diagramEdges s → eid e' = eid e → e' = e).
Proof.
  unfold consistent, allocated, portsAllocated, portsOwned, edgesLinked, edgesInside,
    edgesIdentified, known.
  repeat setoid_rewrite Forall_forall.
  split.
  - intros (Hnd & Ha & Hpa & Hown & Hl & Hin & Hid).
    split_and!; [exact Hnd | exact Ha | exact Hpa | | | exact Hin | |].
    + intros n p Hn Hp. by apply (Hown n Hn).
    + intros p e Hp He. by apply (Hl p Hp).
    + intros e He. by apply Hid.
    + intros e e' He He'. by apply Hid.
  - intros (Hnd & Ha & Hpa & Hown & Hl & Hin & Hlt & Hid).
    split_and!; [exact Hnd | exact Ha | exact Hpa | | | exact Hin |].
    + intros n Hn p Hp. by apply Hown.
    + intros p Hp e He. by apply Hl.
    + intros e He. split; [by apply Hlt|]. intros e' He'. by apply Hid.
Qed.

Lemma diagramPorts_same s s' :
  nodes s' = nodes s → (∀ n, portsOf s' n = portsOf s n) →
  diagramPorts s' = diagramPorts s.
Proof.
  intros Hnodes Hports. unfold diagramPorts. rewrite Hnodes.
  apply map_ext_elem_of in Hports || idtac.
  f_equal. apply map_ext. exact Hports.
Qed.

(** Edges deleted at every port of the diagram, the nodes and their ports
    staying as they are. *)
Lemma consistent_filter s s' (keep : Edge → bool) :
  nodes s' = nodes s →
  (∀ n, portsOf s' n = portsOf s n) →
  (∀ p, port_node (getPort s' p) = port_node (getPort s p)) →
  (nextRef s ≤ nextRef s')%nat →
  (∀ p, p ∈ diagramPorts s → E s' p = List.filter keep (E s p)) →
  consistent s → consistent s'.
Proof.
  intros Hnodes Hports Hpn Hnext Hedges Hs.
  pose proof (diagramPorts_same s s' Hnodes Hports) as Hdp.
  apply consistent_spec in Hs as (Hnd & Ha & Hpa & Hown & Hl & Hin & Hlt & Hid).
  assert (Hsub : ∀ e, e ∈ diagramEdges s' → e ∈ diagramEdges s ∧ keep e = true).
  { intros e He. apply elem_of_diagramEdges_port in He as (p & Hp & He).
    rewrite Hdp in Hp. rewrite (Hedges p Hp) in He.
    apply elem_of_filter_bool in He as [He Hk]. split; [|done].
    apply elem_of_diagramEdges_port. eauto. }
  apply consistent_spec. split_and!.
  - by rewrite Hnodes.
  - intros n Hn. rewrite Hnodes in Hn. specialize (Ha n Hn). lia.
  - intros p Hp. rewrite Hdp in Hp. specialize (Hpa p Hp). lia.
  - intros n p Hn Hp. rewrite Hnodes in Hn. rewrite Hports in Hp. rewrite Hpn. by apply Hown.
  - intros p e Hp He. rewrite Hdp in Hp. rewrite (Hedges p Hp) in He.
    apply elem_of_filter_bool in He as [He Hk].
    destruct (Hl p e Hp He) as (Hends & Hsrc & Htgt & Hes & Het).
    assert (Hde : e ∈ diagramEdges s) by (apply elem_of_diagramEdges_port; eauto).
    destruct (Hin e Hde) as [Hsp Htp].
    unfold edgeLinked. rewrite !Hports, !Hpn, (Hedges _ Hsp), (Hedges _ Htp).
    rewrite !elem_of_filter_bool. done.
  - intros e He. rewrite Hdp. apply Hin. by apply Hsub.
  - intros e He. apply Hsub in He as [He _]. specialize (Hlt e He). lia.
  - intros e e' He He'. apply Hid; by apply Hsub.
Qed.

Lemma filter_all {A} (f : A → bool) (l : list A) :
  (∀ x, x ∈ l → f x = true) → List.filter f l = l.
Proof.
  intros Hf. rewrite <- (filter_const_true l) at 2. by apply filter_ext_elem_of.
Qed.

(** Nothing of the graph changed. *)
Lemma consistent_frame s s' :
  nodes s' = nodes s →
  (∀ n, portsOf s' n = portsOf s n) →
  (∀ p, getPort s' p = getPort s p) →
  (nextRef s ≤ nextRef s')%nat →
  consistent s → consistent s'.
Proof.
  intros Hnodes Hports Hget Hnext.
  apply (consistent_filter s s' (λ _, true)); try done.
  - intros p. by rewrite Hget.
  - intros p _. by rewrite Hget, filter_const_true.
Qed.

Lemma consistent_fields s s' :
  nodes s' = nodes s → nodeObjs s' = nodeObjs s → portObjs s' = portObjs s →
  nextRef s' = nextRef s →
  consistent s → consistent s'.
Proof.
  intros Hnodes Hobjs Hports Hnext.
  apply consistent_frame; [done | | | lia].
  - intros n. unfold portsOf, getNode. by rewrite Hobjs.
  - intros p. unfold getPort. by rewrite Hports.
Qed.

Lemma consistent_no_nodes s : nodes s = [] → consistent s.
Proof.
  intros Hnodes. unfold consistent, allocated, portsAllocated, portsOwned, edgesLinked,
    edgesInside, edgesIdentified, diagramEdges, diagramPorts.
  rewrite Hnodes. cbn. split_and!; constructor.
Qed.

Lemma known_diagramEdges s e : consistent s → e ∈ diagramEdges s → known s e.
Proof.
  intros Hs He. apply consistent_spec in Hs as (_ & _ & _ & _ & _ & _ & _ & Hid).
  unfold known. apply Forall_forall. intros e' He'. by apply Hid.
Qed.

(** ** Removing edges *)

Lemma skeleton_removeEdge s e propagate :
  nodes (removeEdge s e propagate) = nodes s
  ∧ nodeObjs (removeEdge s e propagate) = nodeObjs s
  ∧ nextRef (removeEdge s e propagate) = nextRef s
  ∧ ∀ p, port_node (getPort (removeEdge s e propagate) p) = port_node (getPort s p).
Proof.
  split_and!; try (by destruct propagate).
  intros p. rewrite getPort_removeEdge. by repeat case_decide.
Qed.

(** In a consistent graph [removeEdge] deletes the edge, and only it, at
    every port of the diagram. *)
Lemma edges_removeEdge s e propagate p :
  consistent s → known s e → p ∈ diagramPorts s →
  E (removeEdge s e propagate) p
  = List.filter (λ e', negb (bool_decide (e' = e))) (E s p).
Proof.
  intros Hs Hknown Hp.
  apply consistent_spec in Hs as (_ & _ & _ & _ & Hl & _).
  unfold known in Hknown. rewrite Forall_forall in Hknown.
  assert (Hsame : List.filter (λ e', negb (same_edge e e')) (E s p)
                  = List.filter (λ e', negb (bool_decide (e' = e))) (E s p)).
  { apply filter_ext_elem_of. intros e' He'. f_equal. unfold same_edge.
    assert (Hde : e' ∈ diagramEdges s) by (apply elem_of_diagramEdges_port; eauto).
    specialize (Hknown e' Hde).
    apply bool_decide_ext. split; [intros Heq; by apply Hknown | by intros ->]. }
  rewrite getPort_removeEdge.
  destruct (decide (source e = p)) as [Hsrc|Hsrc], (decide (target e = p)) as [Htgt|Htgt];
    unfold id; cbn [port_edges with_port_edges]; rewrite ?filter_twice, ?Hsame.
  - rewrite <- Hsame. apply filter_ext. intros e'.
    by destruct (negb (same_edge e e')).
  - done.
  - done.
  - symmetry. apply filter_all. intros e' He'. apply negb_true_iff, bool_decide_eq_false.
    intros ->. destruct (Hl p e Hp He') as ([?|?] & _); done.
Qed.

Lemma consistent_removeEdge s e propagate :
  consistent s → known s e → consistent (removeEdge s e propagate).
Proof.
  intros Hs Hknown.
  destruct (skeleton_removeEdge s e propagate) as (Hnodes & Hobjs & Hnext & Hpn).
  apply (consistent_filter s _ (λ e', negb (bool_decide (e' = e)))); try done.
  - intros n. unfold portsOf, getNode. by rewrite Hobjs.
  - lia.
  - intros p Hp. by apply edges_removeEdge.
Qed.

Lemma diagramPorts_removeEdge s e propagate :
  diagramPorts (removeEdge s e propagate) = diagramPorts s.
Proof.
  destruct (skeleton_removeEdge s e propagate) as (Hnodes & Hobjs & _).
  apply diagramPorts_same; [done|]. intros n. unfold portsOf, getNode. by rewrite Hobjs.
Qed.

Lemma diagramEdges_removeEdge s e propagate e' :
  consistent s → known s e →
  e' ∈ diagramEdges (removeEdge s e propagate) → e' ∈ diagramEdges s.
Proof.
  intros Hs Hknown He'. apply elem_of_diagramEdges_port in He' as (p & Hp & He').
  rewrite diagramPorts_removeEdge in Hp. rewrite edges_removeEdge in He' by done.
  apply elem_of_filter_bool in He' as [He' _]. apply elem_of_diagramEdges_port. eauto.
Qed.

Lemma known_removeEdge s e propagate e' :
  consistent s → known s e → known s e' → known (removeEdge s e propagate) e'.
Proof.
  intros Hs Hknown Hknown'.
  pose proof (λ e'', diagramEdges_removeEdge s e propagate e'' Hs Hknown) as Hsub.
  unfold known in Hknown' |- *. rewrite Forall_forall in Hknown'.
  apply Forall_forall. intros e'' He''. apply Hknown'. by apply Hsub.
Qed.

Lemma consistent_removeEdges es :
  ∀ s, consistent s → Forall (known s) es →
       consistent (removeEdges s es)
       ∧ diagramPorts (removeEdges s es) = diagramPorts s
       ∧ ∀ p, p ∈ diagramPorts s →
              E (removeEdges s es) p
              = List.filter (λ e', negb (bool_decide (e' ∈ es))) (E s p).
Proof.
  induction es as [|e es IH]; intros s Hs Hknown.
  - cbn. split_and!; try done. intros p _. symmetry. apply filter_all.
    intros e' _. apply negb_true_iff, bool_decide_eq_false. apply not_elem_of_nil.
  - rewrite removeEdges_cons. apply Forall_cons in Hknown as [Hk Hks].
    destruct (IH (removeEdge s e false)) as (Hc & Hdp & Hedges).
    + by apply consistent_removeEdge.
    + eapply Forall_impl; [exact Hks|]. intros e' He'. by apply known_removeEdge.
    + rewrite diagramPorts_removeEdge in Hdp, Hedges.
      split_and!; try done. intros p Hp.
      rewrite (Hedges p Hp), edges_removeEdge, filter_twice by done.
      apply filter_ext_elem_of. intros e' _.
      rewrite (bool_decide_ext (e' ∈ e :: es) (e' = e ∨ e' ∈ es))
        by apply elem_of_cons.
      rewrite bool_decide_or.
      by destruct (bool_decide (e' = e)), (bool_decide (e' ∈ es)).
Qed.

(** ** Removing nodes *)

Lemma NoDup_filter_bool {A} (f : A → bool) (l : list A) :
  NoDup l → NoDup (List.filter f l).
Proof.
  induction 1 as [|x l Hx Hl IH]; cbn; [constructor|].
  destruct (f x); [|done]. constructor; [|done].
  rewrite elem_of_filter_bool. tauto.
Qed.

Lemma consistent_pull s s2 n :
  consistent s →
  (∀ p, p ∈ portsOf s n → E s p = []) →
  nodes s2 = pull n (nodes s) → nodeObjs s2 = nodeObjs s →
  portObjs s2 = portObjs s → nextRef s2 = nextRef s →
  consistent s2.
Proof.
  intros Hs Hempty Hnodes Hobjs Hpobjs Hnext.
  apply consistent_spec in Hs as (Hnd & Ha & Hpa & Hown & Hl & Hin & Hlt & Hid).
  assert (Hports : ∀ m, portsOf s2 m = portsOf s m)
    by (intros m; unfold portsOf, getNode; by rewrite Hobjs).
  assert (Hget : ∀ p, getPort s2 p = getPort s p)
    by (intros p; unfold getPort; by rewrite Hpobjs).
  assert (Hdp : ∀ p, p ∈ diagramPorts s2
            ↔ ∃ m, m ∈ nodes s ∧ m ≠ n ∧ p ∈ portsOf s m).
  { intros p. rewrite elem_of_diagramPorts. split.
    - intros (m & Hm & Hp). rewrite Hnodes in Hm. apply elem_of_pull in Hm as [Hm Hne].
      rewrite Hports in Hp. eauto.
    - intros (m & Hm & Hne & Hp). exists m. rewrite Hnodes, Hports.
      split; [by apply elem_of_pull | done]. }
  assert (Hdps : ∀ p, p ∈ diagramPorts s2 → p ∈ diagramPorts s).
  { intros p Hp. apply Hdp in Hp as (m & Hm & _ & Hp). apply elem_of_diagramPorts. eauto. }
  assert (Hde : ∀ e, e ∈ diagramEdges s2 → e ∈ diagramEdges s).
  { intros e He. apply elem_of_diagramEdges_port in He as (p & Hp & He).
    rewrite Hget in He. apply elem_of_diagramEdges_port. eauto. }
  assert (Hstay : ∀ e q, e ∈ diagramEdges s → q ∈ diagramPorts s → e ∈ E s q →
            q ∈ diagramPorts s2).
  { intros e q He Hq Heq. apply elem_of_diagramPorts in Hq as (k & Hk & Hq).
    apply Hdp. exists k. split_and!; [done| |done].
    intros ->. rewrite (Hempty q Hq) in Heq. by apply elem_of_nil in Heq. }
  apply consistent_spec. split_and!.
  - rewrite Hnodes. unfold pull. by apply NoDup_filter_bool.
  - intros m Hm. rewrite Hnodes in Hm. apply elem_of_pull in Hm as [Hm _].
    rewrite Hnext. by apply Ha.
  - intros p Hp. rewrite Hnext. apply Hpa. by apply Hdps.
  - intros m p Hm Hp. rewrite Hnodes in Hm. apply elem_of_pull in Hm as [Hm _].
    rewrite Hports in Hp. rewrite Hget. by apply Hown.
  - intros p e Hp He. rewrite Hget in He.
    destruct (Hl p e (Hdps p Hp) He) as (Hends & Hsrc & Htgt & Hes & Het).
    unfold edgeLinked. by rewrite !Hget, !Hports.
  - intros e He. pose proof (Hde e He) as He'.
    apply elem_of_diagramEdges_port in He' as (p & Hp & Hep).
    destruct (Hl p e Hp Hep) as (_ & _ & _ & Hes & Het).
    destruct (Hin e (Hde e He)) as [Hsp Htp].
    split; [apply (Hstay e) | apply (Hstay e)]; auto.
  - intros e He. rewrite Hnext. apply Hlt. by apply Hde.
  - intros e e' He He'. apply Hid; by apply Hde.
Qed.

Lemma getAllEdges_known s n :
  consistent s → n ∈ nodes s → Forall (known s) (getAllEdges s n).
Proof.
  intros Hs Hn. apply Forall_forall. intros e He.
  apply known_diagramEdges; [done|].
  apply elem_of_getAllEdges in He as (p & Hp & He).
  apply elem_of_diagramEdges. eauto.
Qed.

Lemma consistent_removeNode s n propagate :
  consistent s → n ∈ nodes s →
  consistent (removeNode s n propagate).1
  ∧ ∀ x, x ∈ nodes (removeNode s n propagate).1 ↔ x ∈ nodes s ∧ x ≠ n.
Proof.
  intros Hs Hn.
  destruct (consistent_removeEdges (getAllEdges s n) s Hs (getAllEdges_known s n Hs Hn))
    as (Hs1 & Hdp & Hedges).
  set (s1 := removeEdges s (getAllEdges s n)) in *.
  assert (Hobjs1 : nodeObjs s1 = nodeObjs s) by apply nodeObjs_removeEdges.
  assert (Hnodes1 : nodes s1 = nodes s) by apply nodes_removeEdges.
  assert (Hshape : nodes (removeNode s n propagate).1 = pull n (nodes s1)
            ∧ nodeObjs (removeNode s n propagate).1 = nodeObjs s1
            ∧ portObjs (removeNode s n propagate).1 = portObjs s1
            ∧ nextRef (removeNode s n propagate).1 = nextRef s1)
    by (by destruct propagate).
  destruct Hshape as (Hnodes & Hobjs & Hpobjs & Hnext).
  split.
  - apply (consistent_pull s1 _ n); try done.
    intros p Hp. unfold portsOf, getNode in Hp. rewrite Hobjs1 in Hp.
    assert (Hpd : p ∈ diagramPorts s) by (apply elem_of_diagramPorts; eauto).
    rewrite (Hedges p Hpd). apply filter_bool_nil. intros e He.
    apply negb_false_iff, bool_decide_eq_true. apply elem_of_getAllEdges. eauto.
  - intros x. rewrite Hnodes, Hnodes1. apply elem_of_pull.
Qed.

Lemma removeNodes_fst todo :
  ∀ s acc,
    (foldl (λ '(state, removedEdges) node,
              let '(state, removed) := removeNode state node false in
              (state, removedEdges ++ removed))
           (s, acc) todo).1
    = foldl (λ state node, (removeNode state node false).1) s todo.
Proof.
  induction todo as [|n todo IH]; intros s acc; [done|].
  rewrite removeNodes_cons. cbn [foldl]. apply IH.
Qed.

Lemma consistent_removeAll todo :
  ∀ s, consistent s → NoDup todo → (∀ n, n ∈ todo → n ∈ nodes s) →
       consistent (foldl (λ state node, (removeNode state node false).1) s todo).
Proof.
  induction todo as [|n todo IH]; intros s Hs Hnd Hin; [done|].
  cbn [foldl]. apply NoDup_cons in Hnd as [Hn Hnd].
  destruct (consistent_removeNode s n false Hs) as [Hs1 Hnodes1].
  { apply Hin. apply elem_of_cons. by left. }
  apply IH; [done | done |].
  intros m Hm. apply Hnodes1. split.
  - apply Hin. by apply elem_of_cons; right.
  - by intros ->.
Qed.

Lemma consistent_removeSelectedNodes s :
  consistent s → consistent (removeSelectedNodes s).1.
Proof.
  intros Hs. unfold removeSelectedNodes.
  set (selected := List.filter (λ node, isSelected (getNode s node)) (nodes s)).
  pose proof (removeNodes_fst selected s []) as Hfst.
  unfold removeNodes.
  destruct (foldl _ (s, []) selected) as [s1 removed]. cbn [fst] in *.
  apply (consistent_fields s1); try done. rewrite Hfst.
  apply consistent_removeAll; [done | |].
  - apply NoDup_filter_bool. by apply consistent_spec in Hs as (Hnd & _).
  - intros n Hn. by apply elem_of_filter_bool in Hn as [Hn _].
Qed.

Lemma consistent_disconnectPort s p propagate :
  consistent s → p ∈ diagramPorts s → consistent (disconnectPort s p propagate).1.
Proof.
  intros Hs Hp.
  destruct (consistent_removeEdges (port_getAllEdges s p) s Hs) as (Hs1 & _).
  { apply Forall_forall. intros e He. apply known_diagramEdges; [done|].
    apply elem_of_diagramEdges_port. eauto. }
  unfold disconnectPort. by destruct propagate.
Qed.

Lemma consistent_resetDataflow s : consistent (resetDataflow s).
Proof. by apply consistent_no_nodes. Qed.

(** ** Making edges *)

Lemma diagramPorts_createEdge s a b propagate options :
  diagramPorts (createEdge s a b propagate options).1 = diagramPorts s.
Proof.
  destruct (nodes_createEdge s a b propagate options) as (Hnodes & Hobjs & _).
  apply diagramPorts_same; [done|]. intros n. unfold portsOf, getNode. by rewrite Hobjs.
Qed.

Lemma consistent_link s a b x y :
  consistent s → a ∈ diagramPorts s → b ∈ diagramPorts s →
  (x = a ∧ y = b) ∨ (x = b ∧ y = a) →
  let e := mkEdge (nextRef s) x y in
  consistent (addIncidentEdge b e (addIncidentEdge a e (set_nextRef (S (nextRef s)) s))).
Proof.
  intros Hs Ha Hb Hends e.
  set (s' := addIncidentEdge b e (addIncidentEdge a e (set_nextRef (S (nextRef s)) s))).
  apply consistent_spec in Hs as (Hnd & Hal & Hpa & Hown & Hl & Hin & Hlt & Hid).
  assert (Hget : ∀ p, getPort s' p
            = with_port_edges
                (λ es, (es ++ if decide (p = a) then [e] else [])
                       ++ if decide (p = b) then [e] else [])
                (getPort s p)).
  { intros p. subst s'. unfold addIncidentEdge.
    rewrite !getPort_updPort, getPort_set_nextRef.
    destruct (getPort s p) as [pid pn pin pm pt pes]. unfold with_port_edges.
    repeat case_decide; subst; try congruence; simpl; by rewrite ?app_nil_r. }
  assert (Hpn : ∀ p, port_node (getPort s' p) = port_node (getPort s p))
    by (intros p; by rewrite Hget).
  assert (Hedge : ∀ p e', e' ∈ E s' p ↔ e' ∈ E s p ∨ (e' = e ∧ (p = a ∨ p = b))).
  { intros p e'. rewrite Hget. cbn [port_edges with_port_edges].
    rewrite !elem_of_app.
    destruct (decide (p = a)), (decide (p = b));
      rewrite ?list_elem_of_singleton, ?elem_of_nil; tauto. }
  assert (Hports : ∀ n, portsOf s' n = portsOf s n) by done.
  assert (Hdp : diagramPorts s' = diagramPorts s) by done.
  assert (Hde : ∀ e', e' ∈ diagramEdges s' ↔ e' ∈ diagramEdges s ∨ e' = e).
  { intros e'. rewrite !elem_of_diagramEdges_port. rewrite Hdp. split.
    - intros (p & Hp & He'). apply Hedge in He' as [He'|[-> _]]; eauto.
    - intros [(p & Hp & He')| ->].
      + exists p. split; [done|]. apply Hedge. by left.
      + exists a. split; [done|]. apply Hedge. right. split; [done|by left]. }
  assert (Hsrc : source e = a ∨ source e = b) by (subst e; cbn; tauto).
  assert (Htgt : target e = a ∨ target e = b) by (subst e; cbn; tauto).
  assert (Hab : ∀ p, p = a ∨ p = b → p ∈ diagramPorts s) by (by intros p [->| ->]).
  assert (Hself : ∀ p, p = a ∨ p = b → p ∈ portsOf s (port_node (getPort s p))).
  { intros p Hp. apply Hab in Hp. apply elem_of_diagramPorts in Hp as (n & Hn & Hp).
    by rewrite (Hown n p Hn Hp). }
  apply consistent_spec. split_and!.
  - done.
  - intros n Hn. specialize (Hal n Hn). cbn. lia.
  - intros p Hp. rewrite Hdp in Hp. specialize (Hpa p Hp). cbn. lia.
  - intros n p Hn Hp. rewrite Hpn. by apply Hown.
  - intros p e' Hp He'. rewrite Hdp in Hp. unfold edgeLinked.
    rewrite !Hpn, !Hports, !Hedge.
    apply Hedge in He' as [He'|[-> Hpe]].
    + destruct (Hl p e' Hp He') as (? & ? & ? & ? & ?). tauto.
    + split_and!; [| by apply Hself | by apply Hself | tauto | tauto].
      subst e. cbn. destruct Hends as [[-> ->]|[-> ->]], Hpe as [->| ->]; tauto.
  - intros e' He'. rewrite Hdp. apply Hde in He' as [He'| ->]; [by apply Hin|].
    split; by apply Hab.
  - intros e' He'. apply Hde in He' as [He'| ->]; [specialize (Hlt e' He'); cbn; lia|].
    cbn. lia.
  - intros e1 e2 H1 H2 Heq. apply Hde in H1 as [H1| ->], H2 as [H2| ->].
    + by apply Hid.
    + specialize (Hlt e1 H1). cbn in Heq. lia.
    + specialize (Hlt e2 H2). cbn in Heq. lia.
    + done.
Qed.

Lemma consistent_createEdge s a b propagate options :
  consistent s → a ∈ diagramPorts s → b ∈ diagramPorts s →
  consistent (createEdge s a b propagate options).1.
Proof.
  intros Hs Ha Hb.
  destruct (connectable (checkEdgeConnectivity s a b)) eqn:Hc.
  - rewrite (createEdge_accepted s a b propagate options Hc). cbv zeta.
    eapply (consistent_fields
              (addIncidentEdge b _ (addIncidentEdge a _ (set_nextRef (S (nextRef s)) s))));
      [by destruct propagate..|].
    apply (consistent_link s a b); [done..|].
    destruct (isInput (getPort s a)); tauto.
  - unfold createEdge. rewrite Hc. cbn [negb fst].
    apply (consistent_fields s); [by destruct (negb (messageDisabled options))..|done].
Qed.

(** ** Making nodes *)

Lemma createNode_frame s options nodeSave :
  let r := nextRef s in
  let c := getConstructor (opt_type options) in
  let a := length (class_inputs c) in
  let b := length (class_outputs c) in
  let s' := (createNode s options nodeSave).1 in
  nodes s' = nodes s ++ [r]
  ∧ nextRef s' = (S r + a + b)%nat
  ∧ portsOf s' r = seq (S r) a ++ seq (S r + a) b
  ∧ (∀ m, m ≠ r → getNode s' m = getNode s m)
  ∧ (∀ p, (p ≤ r)%nat → getPort s' p = getPort s p)
  ∧ (∀ p, (S r ≤ p < S r + a + b)%nat → port_node (getPort s' p) = r ∧ E s' p = []).
Proof.
  intros r c a b s'.
  set (s2 := newPorts r false (S r + a) (class_outputs c)
               (newPorts r true (S r) (class_inputs c) s)).
  assert (Hports : portObjs s' = portObjs s2).
  { subst s'. unfold createNode, newNode. fold c. fold r. fold a. fold s2. cbv zeta.
    by case_bool_decide; destruct (opt_activate options). }
  assert (Hport : ∀ p, getPort s' p = getPort s2 p).
  { intros p. unfold getPort. by rewrite Hports. }
  assert (Hshape : nodes s' = nodes s ++ [r]
            ∧ nextRef s' = (S r + a + b)%nat
            ∧ ∃ o, nodeObjs s' = <[r := o]> (nodeObjs s)
                   ∧ inputPorts o = seq (S r) a
                   ∧ outputPorts o = seq (S r + a) b).
  { subst s'. unfold createNode, newNode. fold c. fold r. fold a. fold b. fold s2.
    cbv zeta.
    case_bool_decide; destruct (opt_activate options), nodeSave as [sv|];
      cbn; subst s2; rewrite ?nodes_newPorts, ?nodeObjs_newPorts;
      rewrite ?lookup_total_insert_eq, ?insert_insert_eq;
      (split_and!; [done | done | eexists; split_and!; [reflexivity | done | done]]). }
  destruct Hshape as (Hnodes & Hnext & o & Hobjs & Hins & Houts).
  split_and!; try done.
  - unfold portsOf, getNode. by rewrite Hobjs, lookup_total_insert_eq, Hins, Houts.
  - intros m Hm. unfold getNode. by rewrite Hobjs, lookup_total_insert_ne.
  - intros p Hp. rewrite Hport. subst s2. by rewrite !getPort_newPorts_lt by lia.
  - intros p Hp. rewrite Hport. subst s2.
    destruct (decide (p < S r + a)%nat) as [Hlt|Hge].
    + rewrite getPort_newPorts_lt by lia.
      destruct (lookup_lt_is_Some_2 (class_inputs c) (p - S r)) as [sp Hsp];
        [fold a; lia|].
      replace p with (S r + (p - S r))%nat by lia.
      by rewrite (getPort_newPorts_at _ _ _ _ _ _ sp Hsp).
    + destruct (lookup_lt_is_Some_2 (class_outputs c) (p - (S r + a))) as [sp Hsp];
        [fold b; lia|].
      replace p with (S r + a + (p - (S r + a)))%nat by lia.
      by rewrite (getPort_newPorts_at _ _ _ _ _ _ sp Hsp).
Qed.

Lemma consistent_createNode s options nodeSave :
  consistent s → consistent (createNode s options nodeSave).1.
Proof.
  intros Hs.
  destruct (createNode_frame s options nodeSave)
    as (Hnodes & Hnext & Hnew & Hnode & Hport & Hfresh).
  cbv zeta in *.
  set (r := nextRef s) in *.
  set (a := length (class_inputs (getConstructor (opt_type options)))) in *.
  set (b := length (class_outputs (getConstructor (opt_type options)))) in *.
  set (s' := (createNode s options nodeSave).1) in *.
  apply consistent_spec in Hs as (Hnd & Hal & Hpa & Hown & Hl & Hin & Hlt & Hid).
  assert (Hold : ∀ m, m ∈ nodes s → portsOf s' m = portsOf s m).
  { intros m Hm. specialize (Hal m Hm). unfold portsOf. rewrite Hnode; [done|]. lia. }
  assert (Hrange : ∀ p, p ∈ portsOf s' r ↔ (S r ≤ p < S r + a + b)%nat).
  { intros p. rewrite Hnew, elem_of_app, !elem_of_seq. lia. }
  assert (Hdp : ∀ p, p ∈ diagramPorts s'
            ↔ p ∈ diagramPorts s ∨ (S r ≤ p < S r + a + b)%nat).
  { intros p. rewrite !elem_of_diagramPorts. rewrite Hnodes. split.
    - intros (m & Hm & Hp). apply elem_of_app in Hm as [Hm|Hm].
      + left. exists m. split; [done|]. by rewrite <- (Hold m Hm).
      + apply list_elem_of_singleton in Hm as ->. right. by apply Hrange.
    - intros [(m & Hm & Hp)|Hp].
      + exists m. split; [apply elem_of_app; by left|]. by rewrite (Hold m Hm).
      + exists r. split; [apply elem_of_app; right; by apply list_elem_of_singleton|].
        by apply Hrange. }
  assert (Hsame : ∀ p, p ∈ diagramPorts s → getPort s' p = getPort s p).
  { intros p Hp. specialize (Hpa p Hp). apply Hport. lia. }
  assert (Hde : ∀ e, e ∈ diagramEdges s' ↔ e ∈ diagramEdges s).
  { intros e. rewrite !elem_of_diagramEdges_port. split.
    - intros (p & Hp & He). apply Hdp in Hp as [Hp|Hp].
      + rewrite (Hsame p Hp) in He. eauto.
      + destruct (Hfresh p Hp) as [_ Hnil]. rewrite Hnil in He.
        by apply elem_of_nil in He.
    - intros (p & Hp & He). exists p. split; [apply Hdp; by left|].
      by rewrite (Hsame p Hp). }
  apply consistent_spec. split_and!.
  - rewrite Hnodes. apply NoDup_app. split_and!; [done| |apply NoDup_singleton].
    intros x Hx Hr. apply list_elem_of_singleton in Hr as ->.
    specialize (Hal r Hx). lia.
  - intros n Hn. rewrite Hnodes in Hn. rewrite Hnext.
    apply elem_of_app in Hn as [Hn|Hn].
    + specialize (Hal n Hn). lia.
    + apply list_elem_of_singleton in Hn as ->. lia.
  - intros p Hp. rewrite Hnext. apply Hdp in Hp as [Hp|Hp]; [|lia].
    specialize (Hpa p Hp). lia.
  - intros n p Hn Hp. rewrite Hnodes in Hn. apply elem_of_app in Hn as [Hn|Hn].
    + rewrite (Hold n Hn) in Hp.
      rewrite Hsame by (apply elem_of_diagramPorts; eauto). by apply Hown.
    + apply list_elem_of_singleton in Hn as ->. apply Hrange in Hp.
      by destruct (Hfresh p Hp).
  - intros p e Hp He. apply Hdp in Hp as [Hp|Hp].
    + rewrite (Hsame p Hp) in He.
      destruct (Hl p e Hp He) as (Hends & Hsrc & Htgt & Hes & Het).
      assert (Hed : e ∈ diagramEdges s) by (apply elem_of_diagramEdges_port; eauto).
      destruct (Hin e Hed) as [Hsp Htp].
      assert (Hback : ∀ q, q ∈ diagramPorts s →
                portsOf s' (port_node (getPort s q)) = portsOf s (port_node (getPort s q))).
      { intros q Hq. apply elem_of_diagramPorts in Hq as (k & Hk & Hq).
        rewrite (Hown k q Hk Hq). by apply Hold. }
      unfold edgeLinked.
      by rewrite (Hsame _ Hsp), (Hsame _ Htp), (Hback _ Hsp), (Hback _ Htp).
    + destruct (Hfresh p Hp) as [_ Hnil]. rewrite Hnil in He.
      by apply elem_of_nil in He.
  - intros e He. apply Hde in He. destruct (Hin e He). split; apply Hdp; by left.
  - intros e He. apply Hde in He. specialize (Hlt e He). rewrite Hnext. lia.
  - intros e e' He He'. apply Hid; by apply Hde.
Qed.

Lemma consistent_updNode n (f : Node → Node) s :
  (∀ o, inputPorts (f o) = inputPorts o ∧ outputPorts (f o) = outputPorts o) →
  consistent s → consistent (updNode n f s).
Proof.
  intros Hf. apply consistent_frame; [done| |done|done].
  intros m. unfold portsOf, getNode, updNode. cbn.
  destruct (decide (n = m)) as [->|Hne].
  - rewrite lookup_total_insert_eq. by destruct (Hf (nodeObjs s !!! m)) as [-> ->].
  - by rewrite lookup_total_insert_ne.
Qed.

(** ** Reading a diagram *)

Lemma consistent_deserializeNode s created sv :
  consistent s → consistent (deserializeNode (s, created) sv).1.
Proof.
  intros Hs. unfold deserializeNode.
  pose proof (consistent_createNode s
                (mkCreateNodeOptions (save_type sv) None None None None false)
                (Some sv) Hs) as Hs1.
  destruct (createNode s _ (Some sv)) as [s1 node]. cbn [fst] in *.
  unfold node_deactivate, node_deserialize.
  apply consistent_updNode; [done|]. by apply consistent_updNode.
Qed.

Lemma consistent_deserializeNodes svs :
  ∀ s created, consistent s → consistent (foldl deserializeNode (s, created) svs).1.
Proof.
  induction svs as [|sv svs IH]; intros s created Hs; [done|].
  cbn [foldl]. pose proof (consistent_deserializeNode s created sv Hs) as Hs1.
  destruct (deserializeNode (s, created) sv) as [s1 created1]. by apply IH.
Qed.

Lemma findNodeById_elem_of s id n : findNodeById s id = Some n → n ∈ nodes s.
Proof.
  unfold findNodeById. intros Hfind. apply List.find_some in Hfind as [Hin _].
  by apply list_elem_of_In.
Qed.

Lemma consistent_deserializeEdge s es s' :
  consistent s → deserializeEdge s es = Some s' → consistent s'.
Proof.
  unfold deserializeEdge. intros Hs Hrun.
  destruct (findNodeById s (sourceNodeId es)) as [sn|] eqn:Hsn; [|done].
  destruct (findNodeById s (targetNodeId es)) as [tn|] eqn:Htn; [|done].
  cbn [mbind option_bind] in Hrun.
  destruct (getOutputPort s sn (sourcePortId es)) as [sp|] eqn:Hsp; [|done].
  destruct (getInputPort s tn (targetPortId es)) as [tp|] eqn:Htp; [|done].
  cbn [mbind option_bind] in Hrun. injection Hrun as <-.
  apply findNodeById_elem_of in Hsn, Htn.
  apply List.find_some in Hsp as [Hsp _]. apply List.find_some in Htp as [Htp _].
  apply list_elem_of_In in Hsp, Htp.
  apply consistent_createEdge; [done| |].
  - apply elem_of_diagramPorts. exists sn. split; [done|].
    unfold portsOf. apply elem_of_app. by right.
  - apply elem_of_diagramPorts. exists tn. split; [done|].
    unfold portsOf. apply elem_of_app. by left.
Qed.

Lemma consistent_deserializeEdges edges :
  ∀ s s', consistent s → deserializeEdges s edges = Some s' → consistent s'.
Proof.
  induction edges as [|es edges IH]; intros s s' Hs Hrun.
  - cbn in Hrun. by injection Hrun as <-.
  - rewrite deserializeEdges_cons in Hrun.
    destruct (deserializeEdge s es) as [s1|] eqn:Hstep; [|done].
    cbn [mbind option_bind] in Hrun.
    apply (IH s1 s'); [|done]. by apply (consistent_deserializeEdge s es).
Qed.

Lemma consistent_deserializeDiagram s d s' :
  deserializeDiagram s d = Some s' → consistent s'.
Proof.
  unfold deserializeDiagram. intros Hrun.
  assert (Hs0 : consistent (set_isDeserializing true (resetDataflow s)))
    by (by apply consistent_no_nodes).
  pose proof (consistent_deserializeNodes (save_nodes d) _ [] Hs0) as Hs1.
  destruct (foldl deserializeNode (set_isDeserializing true (resetDataflow s), [])
                  (save_nodes d)) as [s1 created].
  cbn [fst] in Hs1.
  destruct (deserializeEdges
              (set_numNodeLayers (maxLayer (map save_layer (save_nodes d))) s1)
              (save_edges d)) as [s2|] eqn:Hedges; [|done].
  cbn [mbind option_bind] in Hrun. injection Hrun as <-.
  apply consistent_deserializeEdges in Hedges; [|by apply (consistent_fields s1)].
  by apply (consistent_fields s2).
Qed.

Hypothesis findConnectablePort_port :
  ∀ s n p q, findConnectablePort s n p = Some q → q ∈ portsOf s n.

Lemma consistent_createEdgeToNode s a n propagate options :
  consistent s → a ∈ diagramPorts s → n ∈ nodes s →
  consistent (createEdgeToNode s a n propagate options).1
  ∧ diagramPorts (createEdgeToNode s a n propagate options).1 = diagramPorts s.
Proof.
  intros Hs Ha Hn. unfold createEdgeToNode.
  destruct (findConnectablePort s n a) as [q|] eqn:Hq.
  - split; [|apply diagramPorts_createEdge].
    apply consistent_createEdge; [done..|].
    apply elem_of_diagramPorts. exists n. split; [done|].
    by apply (findConnectablePort_port s n a).
  - cbn [fst]. split; [|by destruct (negb (messageDisabled options))].
    apply (consistent_fields s); [by destruct (negb (messageDisabled options))..|done].
Qed.

Lemma consistent_insertNodeOnEdge s n e :
  consistent s → n ∈ nodes s → e ∈ diagramEdges s →
  consistent (insertNodeOnEdge s n e).1.
Proof.
  intros Hs Hn He.
  pose proof (known_diagramEdges s e Hs He) as Hknown.
  pose proof (consistent_removeEdge s e false Hs Hknown) as Hs1.
  pose proof (diagramPorts_removeEdge s e false) as Hdp1.
  destruct (skeleton_removeEdge s e false) as (Hnodes1 & Hobjs1 & _).
  assert (Hends : source e ∈ diagramPorts s ∧ target e ∈ diagramPorts s).
  { apply consistent_spec in Hs as (_ & _ & _ & _ & _ & Hin & _). by apply Hin. }
  destruct Hends as [Hsrc Htgt].
  unfold insertNodeOnEdge. cbv zeta.
  set (s1 := removeEdge s e false) in *.
  destruct (findConnectablePort s1 n (target e)) as [q|] eqn:Hq.
  - destruct (consistent_createEdgeToNode s1 (source e) n false
                (Some (mkEdgeOptions true))) as [Hs2 Hdp2];
      [done | by rewrite Hdp1 | by rewrite Hnodes1 |].
    destruct (createEdgeToNode s1 (source e) n false (Some (mkEdgeOptions true)))
      as [s2 e1]. cbn [fst] in Hs2, Hdp2.
    pose proof (consistent_createEdge s2 q (target e) false
                  (Some (mkEdgeOptions true)) Hs2) as Hs3.
    destruct (createEdge s2 q (target e) false (Some (mkEdgeOptions true)))
      as [s3 e2]. cbn [fst] in Hs3.
    assert (Hs3' : consistent s3).
    { apply Hs3; rewrite Hdp2, Hdp1; [|done].
      apply elem_of_diagramPorts. exists n. split; [done|].
      apply findConnectablePort_port in Hq.
      unfold portsOf, getNode in Hq |- *. by rewrite <- Hobjs1. }
    cbn [fst]. destruct e1, e2; by apply (consistent_fields s3).
  - cbn [fst]. done.
Qed.

Lemma consistent_mutate s m s' :
  consistent s → permitted s m → mutate s m = Some s' → consistent s'.
Proof.
  intros Hs Hm Hrun.
  destruct m as [options nodeSave | a b propagate options | a n propagate options
                | n e | e propagate | n propagate | | p propagate | | d];
    cbn [mutate permitted] in *; try (injection Hrun as <-).
  - by apply consistent_createNode.
  - destruct Hm. by apply consistent_createEdge.
  - destruct Hm. by apply consistent_createEdgeToNode.
  - destruct Hm. by apply consistent_insertNodeOnEdge.
  - apply consistent_removeEdge; [done|]. by apply known_diagramEdges.
  - by apply consistent_removeNode.
  - by apply consistent_removeSelectedNodes.
  - by apply consistent_disconnectPort.
  - apply consistent_resetDataflow.
  - by apply (consistent_deserializeDiagram s d).
Qed.

(** Every operation of the module keeps the graph consistent, when the
    search of a node for a port returns ports of that node: after a
    sequence of requests, each one naming nodes, ports and edges of the
    diagram it is made in, the nodes own their ports, an edge found at a
    port has the port as an end and is found at both of its ends, and no
    edge has an end outside of the diagram. *)
Theorem mutations_keep_consistent ms :
  ∀ s s', consistent s → mutations s ms = Some s' → consistent s'.
Proof.
  induction ms as [|m ms IH]; intros s s' Hs Hrun.
  - cbn in Hrun. by injection Hrun as <-.
  - cbn [mutations] in Hrun. case_bool_decide as Hm; [|done].
    destruct (mutate s m) as [s1|] eqn:Hstep; [|done].
    cbn [mbind option_bind] in Hrun.
    apply (IH s1 s'); [|done]. by apply (consistent_mutate s m).
Qed.

Lemma deserializeNodes_fresh (r0 : nat) svs :
  ∀ s created,
    Forall (λ n, (r0 ≤ n)%nat) (nodes s) → (r0 ≤ nextRef s)%nat →
    Forall (λ n, (r0 ≤ n)%nat) (nodes (foldl deserializeNode (s, created) svs).1).
Proof.
  induction svs as [|sv svs IH]; intros s created Hnodes Hnext; [done|].
  cbn [foldl]. pose proof (deserializeNode_spec s created sv) as Hspec.
  cbv zeta in Hspec.
  destruct (deserializeNode (s, created) sv) as [s1 created1]. cbn [fst snd] in Hspec.
  destruct Hspec as (_ & Hnodes1 & Hnext1 & _).
  apply IH; [|lia]. rewrite Hnodes1. apply Forall_app. split; [done|].
  constructor; [done|constructor].
Qed.

(** What [deserializeDiagram] leaves, when it succeeds, is a consistent
    graph made of new objects, whatever the state it started from: no node
    of the former diagram is a node of the diagram that was read. *)
Theorem deserializeDiagram_consistent s d s' :
  deserializeDiagram s d = Some s' →
  consistent s'
  ∧ Forall (λ n, (nextRef s ≤ n)%nat) (nodes s')
  ∧ (allocated s → ∀ n, n ∈ nodes s → n ∉ nodes s').
Proof.
  intros Hrun. split; [by apply (consistent_deserializeDiagram s d)|].
  assert (Hfresh : Forall (λ n, (nextRef s ≤ n)%nat) (nodes s')).
  { unfold deserializeDiagram in Hrun.
    assert (Hnext0 : nextRef (set_isDeserializing true (resetDataflow s)) = nextRef s).
    { unfold resetDataflow.
      destruct (removeAll_spec (nodes s) s) as (_ & Hnext & _). exact Hnext. }
    pose proof (deserializeNodes_fresh (nextRef s) (save_nodes d)
                  (set_isDeserializing true (resetDataflow s)) []) as Hs1.
    destruct (foldl deserializeNode (set_isDeserializing true (resetDataflow s), [])
                    (save_nodes d)) as [s1 created].
    cbn [fst] in Hs1.
    destruct (deserializeEdges
                (set_numNodeLayers (maxLayer (map save_layer (save_nodes d))) s1)
                (save_edges d)) as [s2|] eqn:Hedges; [|done].
    cbn [mbind option_bind] in Hrun. injection Hrun as <-.
    apply deserializeEdges_fields in Hedges as (Hnodes2 & _).
    cbn [nodes emit set_isDeserializing set_numNodeLayers] in *. rewrite Hnodes2.
    apply Hs1; [constructor | lia]. }
  split; [exact Hfresh|].
  intros Halloc n Hn Hn'. unfold allocated in Halloc.
  rewrite Forall_forall in Halloc, Hfresh.
  specialize (Halloc n Hn). specialize (Hfresh n Hn'). lia.
Qed.

End Consistency.

Lemma findPort_port s n p q : Demo.findPort s n p = Some q → q ∈ portsOf s n.
Proof.
  unfold Demo.findPort, portsOf. intros Hfind.
  apply List.find_some in Hfind as [Hin _]. apply list_elem_of_In in Hin.
  apply elem_of_app. destruct (isInput (getPort s p)); auto.
Qed.

(** A loader and a chart are created and connected, a filter is created
    and inserted on the edge, and the loader is removed. *)
Lemma mutations_keep_consistent_witness :
  let ms := [MutCreateNode (Demo.options "data-source") None;
             MutCreateNode (Demo.options "chart") None;
             MutCreateEdge 1 3 true None;
             MutCreateNode (Demo.options "filter") None;
             MutInsertNodeOnEdge 5 (mkEdge 4 1 3);
             MutRemoveNode 0 true] in
  ∃ s', @mutations Demo.collaborators (@emptyState Demo.collaborators) ms = Some s'
        ∧ nodes s' = [2%nat; 5%nat]
        ∧ diagramEdges s' = [mkEdge 9 7 3; mkEdge 9 7 3]
        ∧ consistent s'.
Proof.
  intros ms.
  destruct (@mutations Demo.collaborators (@emptyState Demo.collaborators) ms)
    as [s'|] eqn:Hrun; [|vm_compute in Hrun; discriminate].
  exists s'. split; [reflexivity|].
  assert (Hshape : nodes s' = [2%nat; 5%nat]
            ∧ diagramEdges s' = [mkEdge 9 7 3; mkEdge 9 7 3]).
  { assert (Hs : Some s' = Some s') by reflexivity.
    rewrite <- Hrun in Hs at 1. vm_compute in Hs. injection Hs as <-.
    split; vm_compute; reflexivity. }
  destruct Hshape as [Hnodes Hedges]. split; [exact Hnodes|]. split; [exact Hedges|].
  apply (@mutations_keep_consistent Demo.collaborators findPort_port ms
           (@emptyState Demo.collaborators) s'); [|exact Hrun].
  apply consistent_no_nodes. reflexivity.
Defined.

Lemma deserializeDiagram_consistent_witness :
  let diagram :=
    mkDiagramSave "imported"
      [mkNodeSave "node-1" "data-source" 0 10 10; mkNodeSave "node-4" "chart" 3 90 10]
      [mkEdgeSave "node-1" "out" "node-4" "in"] in
  ∃ s', @deserializeDiagram Demo.collaborators Demo.connected diagram = Some s'
        ∧ length (diagramEdges s') = 2%nat
        ∧ nodes s' = [10%nat; 12%nat]
        ∧ consistent s'.
Proof.
  intros diagram.
  destruct (@deserializeDiagram Demo.collaborators Demo.connected diagram)
    as [s'|] eqn:Hrun; [|vm_compute in Hrun; discriminate].
  exists s'. split; [reflexivity|].
  assert (Hshape : length (diagramEdges s') = 2%nat ∧ nodes s' = [10%nat; 12%nat]).
  { assert (Hs : Some s' = Some s') by reflexivity.
    rewrite <- Hrun in Hs at 1. vm_compute in Hs. injection Hs as <-.
    split; vm_compute; reflexivity. }
  destruct Hshape as [Hedges Hnodes]. split; [exact Hedges|]. split; [exact Hnodes|].
  apply (@deserializeDiagram_consistent Demo.collaborators Demo.connected diagram s' Hrun).
Defined.

(** * Saving what was read *)

Section SaveAfterRead.
Context `{Collaborators}.
Variable compatible : string → string → bool.



End SaveAfterRead.


(** * Dragging nodes and ports *)

Module DragFacts.
Import Interaction.

Lemma dragmoveHandler_node n x y m :
  mouseMode m = "node" →
  ∃ m', dragmoveHandler (nodeAt n x y) m = Some m'
        ∧ mouseMode m' = "node"
        ∧ draglastPos m' = (x, y)
        ∧ nodesSelected m' = nodesSelected m
        ∧ calls m'
          = calls m ++ [MoveNodes (x - (draglastPos m).1) (y - (draglastPos m).2)
                                  NodesSelected].
Proof.
  intros Hmode. unfold dragmoveHandler, nodeAt. cbv zeta.
  cbn [para_type para_event pageX pageY set_drag mouseMode]. rewrite Hmode.
  cbn. eexists. split; [reflexivity|]. cbn. by rewrite Hmode.
Qed.

Lemma dragmoves_cons n p positions m :
  dragmoves n (p :: positions) m
  = m1 ← dragmoveHandler (nodeAt n p.1 p.2) m; dragmoves n positions m1.
Proof.
  unfold dragmoves. cbn [foldl]. cbn [mbind option_bind].
  destruct (dragmoveHandler (nodeAt n p.1 p.2) m) as [m1|]; [done|].
  cbn [mbind option_bind]. induction positions as [|q positions IH]; [done|]. exact IH.
Qed.

Lemma dragmoves_node n positions :
  ∀ m, mouseMode m = "node" →
       ∃ m', dragmoves n positions m = Some m'
             ∧ mouseMode m' = "node"
             ∧ draglastPos m' = default (draglastPos m) (last positions)
             ∧ nodesSelected m' = nodesSelected m
             ∧ ∃ moved, calls m' = calls m ++ moved
                        ∧ length moved = length positions
                        ∧ Forall (λ c, ∃ dx dy, c = MoveNodes dx dy NodesSelected) moved
                        ∧ totalMove moved
                          = ((draglastPos m').1 - (draglastPos m).1,
                             (draglastPos m').2 - (draglastPos m).2).
Proof.
  induction positions as [|[x y] positions IH]; intros m Hmode.
  - exists m. split_and!; try done. exists []. rewrite app_nil_r.
    split_and!; [done | done | constructor |]. unfold totalMove. cbn. f_equal; lia.
  - rewrite dragmoves_cons. cbn [fst snd].
    destruct (dragmoveHandler_node n x y m Hmode)
      as (m1 & Hstep & Hmode1 & Hlast1 & Hsel1 & Hcalls1).
    rewrite Hstep. cbn [mbind option_bind].
    destruct (IH m1 Hmode1)
      as (m' & Hrun & Hmode' & Hlast' & Hsel' & moved & Hcalls' & Hlen & Hall & Htotal).
    exists m'. split_and!; [done | done | | congruence |].
    + rewrite Hlast', Hlast1. by destruct positions as [|p positions'] using rev_ind;
        [|rewrite app_comm_cons, !last_snoc].
    + eexists. split_and!.
      * rewrite Hcalls', Hcalls1, <- app_assoc. reflexivity.
      * cbn. by rewrite Hlen.
      * cbn [app]. constructor; [eauto | done].
      * cbn [app]. rewrite InteractionFacts.totalMove_cons, Htotal, Hlast1. cbn.
        f_equal; lia.
Qed.

(** Dragging a node from start to end: the drag starts at a node, moves
    through a sequence of positions and stops.  No move fails.  The node is
    selected throughout: the selection is the one before the drag when the
    node was in it, and the node alone otherwise.  Each move asks the
    selected nodes to move, and the steps add up to the displacement of the
    pointer from the start of the drag to the last move.  The stop leaves
    the mode [none] and does not touch the selection. *)
Theorem node_drag_gesture n x0 y0 positions stop m :
  let m1 := dragstartHandler (nodeAt n x0 y0) m in
  let selection :=
    if bool_decide (n ∈ nodesSelected m) then nodesSelected m else {[n]} in
  let pointer := default (x0, y0) (last positions) in
  ∃ m2, dragmoves n positions m1 = Some m2
        ∧ n ∈ selection
        ∧ nodesSelected m2 = selection
        ∧ nodesSelected (dragstopHandler stop m2) = selection
        ∧ mouseMode (dragstopHandler stop m2) = "none"
        ∧ length (newCalls m1 m2) = length positions
        ∧ Forall (λ c, ∃ dx dy, c = MoveNodes dx dy NodesSelected) (newCalls m1 m2)
        ∧ totalMove (newCalls m1 m2) = (pointer.1 - x0, pointer.2 - y0).
Proof.
  intros m1 selection pointer.
  assert (Hstart : mouseMode m1 = "node" ∧ draglastPos m1 = (x0, y0)
                   ∧ nodesSelected m1 = selection).
  { subst m1 selection. unfold dragstartHandler, nodeAt. cbv zeta.
    cbn [para_type para_event para_node]. simpl.
    case_bool_decide as Hn; simpl; split_and!; try done.
    by rewrite (left_id_L ∅ (∪)). }
  destruct Hstart as (Hmode1 & Hlast1 & Hsel1). clearbody m1.
  destruct (dragmoves_node n positions m1 Hmode1)
    as (m2 & Hrun & Hmode2 & Hlast2 & Hsel2 & moved & Hcalls2 & Hlen & Hall & Htotal).
  exists m2.
  assert (Hnew : newCalls m1 m2 = moved).
  { unfold newCalls. by rewrite Hcalls2, drop_app_length. }
  rewrite Hnew.
  assert (Hstop : nodesSelected (dragstopHandler stop m2) = nodesSelected m2
                  ∧ mouseMode (dragstopHandler stop m2) = "none").
  { unfold dragstopHandler. cbv zeta. by repeat case_bool_decide. }
  destruct Hstop as [Hsel3 Hmode3].
  split_and!; try done.
  - subst selection. case_bool_decide; [done|]. by apply elem_of_singleton.
  - congruence.
  - congruence.
  - rewrite Htotal, Hlast2, Hlast1. done.
Qed.


(** A move that arrives after the drag has stopped is ignored: whatever is
    dragged, a node or a port, nothing is asked of the dataflow and nothing
    is drawn; only the pointer position is recorded. *)
Theorem dragmove_after_stop para stop m :
  para_type para ≠ "none" →
  let m1 := dragstopHandler stop m in
  let pointer := (pageX (para_event para), pageY (para_event para)) in
  ∃ m2, dragmoveHandler para m1 = Some m2
        ∧ dragstopPos m2 = pointer
        ∧ calls m2 = calls m1
        ∧ mouseMode m2 = "none"
        ∧ draglastPos m2 = draglastPos m1
        ∧ nodesSelected m2 = nodesSelected m1
        ∧ dropPossible m2 = dropPossible m1.
Proof.
  intros Htype m1 pointer.
  assert (Hmode1 : mouseMode m1 = "none").
  { subst m1. unfold dragstopHandler. cbv zeta. by repeat case_bool_decide. }
  clearbody m1. unfold dragmoveHandler. cbv zeta.
  cbn [set_drag mouseMode]. rewrite Hmode1.
  rewrite bool_decide_eq_true_2 by (by intros Heq; apply Htype).
  eexists. split; [reflexivity|]. cbn. by rewrite Hmode1.
Qed.

End DragFacts.

Lemma node_drag_gesture_witness :
  let m := Interaction.initialize in
  let m1 := Interaction.dragstartHandler (Interaction.nodeAt 3 10 10) m in
  ∃ m2, Interaction.dragmoves 3 [(14, 12); (30, 25); (28, 40)] m1 = Some m2
        ∧ Interaction.nodesSelected m2 = {[3%nat]}
        ∧ Interaction.totalMove (Interaction.newCalls m1 m2) = (18, 30).
Proof.
  intros m m1.
  destruct (DragFacts.node_drag_gesture 3 10 10 [(14, 12); (30, 25); (28, 40)]
              (Interaction.nodeAt 3 28 40) m)
    as (m2 & Hrun & _ & Hsel & _ & _ & _ & _ & Htotal).
  exists m2. split; [exact Hrun|]. split; [exact Hsel | exact Htotal].
Defined.


Lemma dragmove_after_stop_witness :
  let m := Interaction.dragstartHandler (Interaction.nodeAt 3 10 10)
             Interaction.initialize in
  let m1 := Interaction.dragstopHandler (Interaction.nodeAt 3 20 20) m in
  ∃ m2, Interaction.dragmoveHandler (Interaction.nodeAt 3 25 25) m1 = Some m2
        ∧ Interaction.calls m2 = Interaction.calls m1.
Proof.
  intros m m1.
  destruct (DragFacts.dragmove_after_stop (Interaction.nodeAt 3 25 25)
              (Interaction.nodeAt 3 20 20) m)
    as (m2 & Hrun & _ & Hcalls & _); [done|].
  exists m2. split; [exact Hrun | exact Hcalls].
Defined.
